(** * writeABF: creation of ABF1 files from channel data

    A shallow embedding of [writeABF] (src/writeABF.py).  The Python function
    builds one [bytearray] holding a 2048-byte ABF1 header followed by the
    interleaved, scaled, 16-bit samples, and writes it to disk.

    Modelling choices, all taken from the source:
    - Python and numpy [float64] values are Rocq's primitive binary64 floats
      ([PrimFloat.float]); their arithmetic is the IEEE-754 arithmetic the
      interpreter uses.
    - Python exceptions are the constructors of [pyerror]; a computation that
      may raise returns a [result].
    - the [bytearray] is a list of bytes (integers in 0..255) and
      [struct.pack_into] overwrites a slice of it.
    - a numpy array is its shape together with its elements in C order.
    - Rocq's floats have a single NaN: it stands for the canonical quiet NaN
      ([float('nan')]).  The sign and payload of a NaN matter to the code
      only where a NaN sample rate reaches the header field at offset 122.
    - the file system is threaded explicitly through [writeABF]: a path can
      either be opened for writing, and then holds the whole buffer after
      the call, or [open] raises.  A write that fails after the file has
      been opened (a full disk) is not part of the model. *)

From Stdlib Require Import ZArith List Lia Bool Ascii PeanoNat.
From Stdlib Require String.
From Stdlib Require QArith Qabs.
From Stdlib Require Import Floats.
Import ListNotations.

(** ** Exceptions and the error monad *)

Inductive pyerror : Set :=
| TypeError
| ZeroDivisionError
| ValueError
| IndexError
| NameError
| StructError      (* struct.error *)
| OSError.

Inductive result (A : Type) : Type :=
| Ok (a : A)
| Raise (e : pyerror).

Arguments Ok {A} a.
Arguments Raise {A} e.

Definition bind {A B : Type} (r : result A) (k : A -> result B) : result B :=
  match r with
  | Ok a => k a
  | Raise e => Raise e
  end.

Notation "x <- c ;; k" := (bind c (fun x => k))
  (at level 61, c at next level, right associativity).
Notation "' p <- c ;; k" := (bind c (fun x => let p := x in k))
  (at level 61, p pattern, c at next level, right associativity).

(** [for x in l: s = body(x, s)] *)
Fixpoint for_each {A S : Type} (l : list A) (body : A -> S -> result S) (s : S)
  : result S :=
  match l with
  | [] => Ok s
  | x :: t => s' <- body x s ;; for_each t body s'
  end.

Definition range (n : nat) : list nat := seq 0 n.

(** [l[i]] for a non-negative index. *)
Definition py_index {A : Type} (l : list A) (i : nat) : result A :=
  match nth_error l i with
  | Some x => Ok x
  | None => Raise IndexError
  end.

(** ** Python floats *)

(** [x / y] on Python floats. *)
Definition py_truediv (x y : float) : result float :=
  if (y =? 0)%float then Raise ZeroDivisionError else Ok (x / y)%float.

(** [float(n)] for a non-negative Python int. *)
Definition float_of_nat (n : nat) : float :=
  SF2Prim (binary_normalize prec emax (Z.of_nat n) 0 false).

(** ** Bytes and [struct] *)

Definition byte := Z.
Definition bytearray := list byte.

(** [bytearray(n)]: [n] zero bytes. *)
Definition bytearray_zeros (n : nat) : bytearray := repeat 0%Z n.

(** The [n] low-order bytes of [v], least significant first (two's
    complement for a negative [v]). *)
Fixpoint le_bytes (n : nat) (v : Z) : list byte :=
  match n with
  | O => []
  | S n' => (v mod 256)%Z :: le_bytes n' (v / 256)%Z
  end.

(** Format ['h']: a signed 16-bit integer. *)
Definition pack_h (v : Z) : result (list byte) :=
  if ((-32768 <=? v) && (v <=? 32767))%Z then Ok (le_bytes 2 v)
  else Raise StructError.

(** Format ['i']: a signed 32-bit integer. *)
Definition pack_i (v : Z) : result (list byte) :=
  if ((-2147483648 <=? v) && (v <=? 2147483647))%Z then Ok (le_bytes 4 v)
  else Raise StructError.

(** Format ['<n>s']: [n] bytes, truncated or padded with zero bytes. *)
Definition pack_s (n : nat) (bs : list byte) : result (list byte) :=
  Ok (firstn n (bs ++ repeat 0%Z n)).

(** The bits of a finite binary32 number [(-1)^s * m * 2^e] in canonical
    form. *)
Definition bits_of_b32 (s : bool) (m : positive) (e : Z) : Z :=
  ((if s then 2147483648 else 0)
   + (if 8388608 <=? Zpos m then (e + 150) * 8388608 + (Zpos m - 8388608)
      else Zpos m))%Z.

(** Format ['f'] in native mode (the formats of the source have no byte
    order prefix): the C conversion of the double to a [float].  It rounds
    to binary32 (to nearest, ties to even); a double beyond the binary32
    range becomes an infinity, and no value raises.  The NaN of the model
    is packed as the canonical quiet NaN of [float('nan')]. *)
Definition pack_f (x : float) : result (list byte) :=
  let r := match Prim2SF x with
           | S754_finite s m e => binary_round 24 128 s m e
           | y => y
           end in
  Ok (le_bytes 4
        match r with
        | S754_nan => 2143289344
        | S754_zero s => if s then 2147483648 else 0
        | S754_infinity s => if s then 4286578688 else 2139095040
        | S754_finite s m e => bits_of_b32 s m e
        end).

(** [buf[off : off + len(bs)] = bs] *)
Definition splice (buf : bytearray) (off : nat) (bs : list byte) : bytearray :=
  firstn off buf ++ bs ++ skipn (off + length bs) buf.

(** [struct.pack_into(fmt, buf, off, v)], where [size] is [calcsize(fmt)]
    and [enc] the packed value: the buffer bound is checked first, then
    the value is packed. *)
Definition pack_into (size : nat) (enc : result (list byte))
    (buf : bytearray) (off : nat) : result bytearray :=
  if off + size <=? length buf then
    bs <- enc ;; Ok (splice buf off bs)
  else Raise StructError.

Definition pack_into_h buf off v := pack_into 2 (pack_h v) buf off.
Definition pack_into_i buf off v := pack_into 4 (pack_i v) buf off.
Definition pack_into_f buf off x := pack_into 4 (pack_f x) buf off.
Definition pack_into_s n buf off bs := pack_into n (pack_s n bs) buf off.

(** Format ['<n>h'] with [n] values. *)
Fixpoint pack_hs (vs : list Z) : result (list byte) :=
  match vs with
  | [] => Ok []
  | v :: t => b <- pack_h v ;; bs <- pack_hs t ;; Ok (b ++ bs)
  end.

Definition pack_into_hs buf off (vs : list Z) :=
  pack_into (2 * length vs) (pack_hs vs) buf off.

(** [str.encode()]: UTF-8, for strings of code points below 256. *)
Definition utf8_char (c : ascii) : list byte :=
  let n := Z.of_nat (nat_of_ascii c) in
  if (n <? 128)%Z then [n] else [(192 + n / 64)%Z; (128 + n mod 64)%Z].

Fixpoint encode (s : String.string) : list byte :=
  match s with
  | String.EmptyString => []
  | String.String c s' => utf8_char c ++ encode s'
  end.

(** ** numpy arrays of [float64] *)

Record ndarray : Type := { shape : list nat; elems : list float }.

Definition size_of (sh : list nat) : nat := fold_right Nat.mul 1 sh.

(** A well-formed array has as many elements as its shape says. *)
Definition wf_ndarray (a : ndarray) : Prop :=
  length (elems a) = size_of (shape a).

(** [a[ch, :]] (all elements of the sub-array at index [ch] of axis 0). *)
Definition subarray (a : ndarray) (ch : nat) : list float :=
  let stride := size_of (tl (shape a)) in
  firstn stride (skipn (ch * stride) (elems a)).

(** [np.maximum]: a NaN operand propagates. *)
Definition np_maximum (a b : float) : float :=
  if is_nan a then a else if (b <=? a)%float then a else b.

(** [np.max] of a flattened array; an empty array has no maximum. *)
Definition np_max (l : list float) : result float :=
  match l with
  | [] => Raise ValueError
  | x :: t => Ok (fold_left np_maximum t x)
  end.

Definition np_abs (l : list float) : list float := map abs l.

(** The elements, in C order, of [a.transpose()] (all axes reversed). *)
Fixpoint transpose_elems (sh : list nat) (l : list float) : list float :=
  match sh with
  | [] => l
  | s0 :: rest =>
      let blk := size_of rest in
      let subs :=
        map (fun i => transpose_elems rest (firstn blk (skipn (i * blk) l)))
            (seq 0 s0) in
      flat_map (fun k => map (fun t => nth k t 0%float) subs) (seq 0 blk)
  end.

(** [a.reshape((1, n))[0]] *)
Definition reshape_row (l : list float) (n : nat) : result (list float) :=
  if length l =? n then Ok l else Raise ValueError.

(** [np.tile(l, reps)] for a one-dimensional [l]. *)
Definition np_tile (l : list float) (reps : nat) : list float :=
  concat (repeat l reps).

Fixpoint zip_mul (a b : list float) : list float :=
  match a, b with
  | x :: a', y :: b' => (x * y)%float :: zip_mul a' b'
  | _, _ => []
  end.

(** [np.multiply] of two one-dimensional arrays, with broadcasting of a
    length-one operand. *)
Definition np_multiply (a b : list float) : result (list float) :=
  if length a =? length b then Ok (zip_mul a b)
  else match a, b with
       | _, [y] => Ok (map (fun x => (x * y)%float) a)
       | [x], _ => Ok (map (fun y => (x * y)%float) b)
       | _, _ => Raise ValueError
       end.

(** The C conversion of a double to a 64-bit integer, which truncates
    toward zero; a NaN, an infinity or a value outside the 64-bit range
    yields the smallest 64-bit integer. *)
Definition c_double_to_int64 (x : spec_float) : Z :=
  match x with
  | S754_zero _ => 0%Z
  | S754_finite s m e =>
      let v := (if 0 <=? e then Zpos m * 2 ^ e else Zpos m / 2 ^ (- e))%Z in
      let v := if s then (- v)%Z else v in
      if ((- 2 ^ 63 <=? v) && (v <? 2 ^ 63))%Z then v else (- 2 ^ 63)%Z
  | _ => (- 2 ^ 63)%Z
  end.

(** [astype(int)] on one element. *)
Definition astype_int (x : float) : Z := c_double_to_int64 (Prim2SF x).

(** ** writeABF *)

Definition BLOCKSIZE : nat := 512.
Definition HEADER_BLOCKS : nat := 4.
Definition MAX_NUM_CH : nat := 16.

Definition lADCResolution : float := 32768%float.
Definition fADCRange : float := 10%float.

(** Lines 34-36: a one-dimensional array becomes a single channel;
    [len()] of a zero-dimensional array raises. *)
Definition as_channels (channelData : ndarray) : result ndarray :=
  match shape channelData with
  | [] => Raise TypeError
  | [n] => Ok {| shape := [1; n]; elems := elems channelData |}
  | _ => Ok channelData
  end.

(** Lines 85-91: the inner loop over [i], with [n] iterations left.  The
    result is the last value of [fInstrumentScaleFactor] and, if the loop
    was left by [break], the scale appended to [valueScale]. *)
Fixpoint scale_search (n : nat) (fInstrumentScaleFactor maxVal : float)
  : result (float * option float) :=
  match n with
  | O => Ok (fInstrumentScaleFactor, None)
  | S n' =>
      let fInstrumentScaleFactor := (fInstrumentScaleFactor / 10)%float in
      let valueScaleI :=
        (lADCResolution / fADCRange * fInstrumentScaleFactor)%float in
      maxDeviationFromZero <- py_truediv 32767 valueScaleI ;;
      if (maxVal <=? maxDeviationFromZero)%float
      then Ok (fInstrumentScaleFactor, Some valueScaleI)
      else scale_search n' fInstrumentScaleFactor maxVal
  end.

(** Lines 97-98 *)
Definition pad_unit (unitStringCh : String.string) : String.string :=
  String.append unitStringCh
    (String.concat String.EmptyString
       (repeat (String.String " " String.EmptyString)
               (8 - String.length unitStringCh))).

(** The state of the scale loop (lines 82-91): the list [valueScale] and
    the variable [fInstrumentScaleFactor], unbound before the first
    iteration. *)
Definition scale_state : Type := (list float * option float)%type.

Definition scale_loop (maxVal : list float) (channelCount : nat)
  : result scale_state :=
  for_each (range channelCount)
    (fun ch (st : scale_state) =>
       m <- py_index maxVal ch ;;
       r <- scale_search 10 1%float m ;;
       Ok (match snd r with
           | Some valueScaleI => fst st ++ [valueScaleI]
           | None => fst st
           end, Some (fst r)))
    ([], None).

(** [l[i]] for a Python int [i]; a negative index counts from the end. *)
Definition py_getitem {A : Type} (l : list A) (i : Z) : result A :=
  let j := if (i <? 0)%Z then (i + Z.of_nat (length l))%Z else i in
  if (j <? 0)%Z then Raise IndexError else py_index l (Z.to_nat j).

(** Lines 47-65: the header values that do not depend on the scales. *)
Definition populate_header (data : bytearray) (dataPointCount : nat)
    (sampleRateHz : float) (channelCount : nat) : result bytearray :=
  data <- pack_into_s 4 data 0 [65; 66; 70; 32]%Z ;;
  data <- pack_into_f data 4 0x1.4cccccccccccdp+0%float ;;
  data <- pack_into_h data 8 5 ;;
  data <- pack_into_i data 10 (Z.of_nat dataPointCount) ;;
  data <- pack_into_i data 16 1 ;;
  data <- pack_into_i data 40 (Z.of_nat HEADER_BLOCKS) ;;
  data <- pack_into_h data 100 0 ;;
  q <- py_truediv 1000000%float sampleRateHz ;;
  fADCSampleInterval <- py_truediv q (float_of_nat channelCount) ;;
  data <- pack_into_f data 122 fADCSampleInterval ;;
  data <- pack_into_i data 138 (Z.of_nat dataPointCount) ;;
  data <- pack_into_h data 120 (Z.of_nat channelCount) ;;
  for_each (range MAX_NUM_CH)
    (fun ch data =>
       if (Z.of_nat ch <=? Z.of_nat channelCount - 1)%Z then
         data <- pack_into_h data (378 + 2 * ch) (Z.of_nat ch) ;;
         pack_into_h data (410 + 2 * ch) (Z.of_nat ch)
       else
         data <- pack_into_h data (378 + 2 * ch) (-1) ;;
         pack_into_h data (410 + 2 * ch) (-1))
    data.

(** Lines 76-78: the peak deviation from zero of every channel. *)
Definition peak_deviation (channelData : ndarray) (channelCount : nat)
  : result (list float) :=
  for_each (range channelCount)
    (fun ch maxVal =>
       m <- np_max (np_abs (subarray channelData ch)) ;;
       Ok (maxVal ++ [m]))
    [].

(** Lines 94-99: the units as space-padded 8-character strings. *)
Definition unit_strings (units : list String.string) (channelCount : nat)
  : result (list String.string) :=
  for_each (range channelCount)
    (fun ch unitString =>
       unitStringCh <- py_getitem units (Z.of_nat ch) ;;
       Ok (unitString ++ [pad_unit unitStringCh]))
    [].

(** Lines 102-108: the scale data of the header.  [fInstrumentScaleFactor]
    is the variable left by the scale loop. *)
Definition store_scale_data (data : bytearray)
    (fInstrumentScaleFactor : option float)
    (unitString : list String.string) (channelCount : nat)
  : result bytearray :=
  data <- pack_into_i data 252 32768 ;;
  data <- pack_into_f data 244 fADCRange ;;
  for_each (range MAX_NUM_CH)
    (fun ch data =>
       f <- match fInstrumentScaleFactor with
            | Some f => Ok f
            | None => Raise NameError
            end ;;
       data <- pack_into_f data (922 + ch * 4) f ;;
       data <- pack_into_f data (1050 + ch * 4) 1%float ;;
       data <- pack_into_f data (730 + ch * 4) 1%float ;;
       u <- py_getitem unitString
              (Z.min (Z.of_nat ch) (Z.of_nat channelCount - 1)) ;;
       pack_into_s 8 data (602 + ch * 8) (encode u))
    data.

(** Lines 111-112: interleave signals. *)
Definition interleave_signals (channelData : ndarray) (dataPointCount : nat)
  : result (list float) :=
  reshape_row (transpose_elems (shape channelData) (elems channelData))
              dataPointCount.

(** Lines 115-117: scale signals. *)
Definition scale_signals (interleaved valueScale : list float)
    (dataPointCount : nat) : result (list float) :=
  reps <- (if length valueScale =? 0 then Raise ZeroDivisionError
           else Ok (dataPointCount / length valueScale)) ;;
  np_multiply interleaved (np_tile valueScale reps).

(** Lines 37-123, on the array with at least two dimensions.  The array
    sizes are Python ints; [int(n * 2 / 512)] and [int(n / m)] are the
    integer quotients (the float quotient of two ints below 2^53 truncates
    to it). *)
Definition writeABF_channels (channelData : ndarray) (sampleRateHz : float)
    (units : list String.string) : result bytearray :=
  let channelCount := nth 0 (shape channelData) 0 in
  let channelPointCount := nth 1 (shape channelData) 0 in
  let dataPointCount := channelPointCount * channelCount in
  (* calculate how large our file must be *)
  let bytesPerPoint := 2 in
  let dataBlocks := dataPointCount * bytesPerPoint / BLOCKSIZE + 1 in
  let data := bytearray_zeros ((dataBlocks + HEADER_BLOCKS) * BLOCKSIZE) in
  data <- populate_header data dataPointCount sampleRateHz channelCount ;;
  maxVal <- peak_deviation channelData channelCount ;;
  st <- scale_loop maxVal channelCount ;;
  let valueScale := fst st in
  unitString <- unit_strings units channelCount ;;
  data <- store_scale_data data (snd st) unitString channelCount ;;
  interleaved <- interleave_signals channelData dataPointCount ;;
  scaled <- scale_signals interleaved valueScale dataPointCount ;;
  (* fill the rest of data with interleaved and scaled signals *)
  let dataByteOffset := BLOCKSIZE * HEADER_BLOCKS in
  pack_into_hs data dataByteOffset (map astype_int scaled).

(** Lines 26-123: the byte array handed to [f.write]. *)
Definition writeABF_data (channelData : ndarray) (sampleRateHz : float)
    (units : list String.string) : result bytearray :=
  (* determine dimensions of data *)
  channelData <- as_channels channelData ;;
  writeABF_channels channelData sampleRateHz units.

(** ** The file system *)

Record filesystem : Type := {
  fs_files : String.string -> option bytearray;
  fs_writable : String.string -> bool
}.

(** The file [name] holds [data]; all other files are unchanged. *)
Definition fs_store (fs : filesystem) (name : String.string) (data : bytearray)
  : filesystem :=
  {| fs_files := fun n => if String.eqb n name then Some data else fs_files fs n;
     fs_writable := fs_writable fs |}.

(** Lines 126-127: [open(filename, 'wb')] raises when the file cannot be
    opened for writing; otherwise the whole buffer is written ([f.write]
    is assumed not to fail on an open file). *)
Definition write_file (fs : filesystem) (filename : String.string)
    (data : bytearray) : filesystem * result unit :=
  if fs_writable fs filename then (fs_store fs filename data, Ok tt)
  else (fs, Raise OSError).

Definition writeABF (channelData : ndarray) (filename : String.string)
    (sampleRateHz : float) (units : list String.string) (fs : filesystem)
  : filesystem * result unit :=
  match writeABF_data channelData sampleRateHz units with
  | Ok data => write_file fs filename data
  | Raise e => (fs, Raise e)
  end.
(** * Specification vocabulary *)

(** The exact value of a double, in units of 2^-1074 (every finite double
    is an integer multiple of it); an infinity is placed beyond all finite
    values. *)
Definition SFord (x : spec_float) : Z :=
  match x with
  | S754_zero _ => 0%Z
  | S754_nan => 0%Z
  | S754_infinity s => cond_Zopp s (2 ^ 2098)%Z
  | S754_finite s m e => cond_Zopp s (Zpos m * 2 ^ (e + 1074))%Z
  end.


(** The value of [fInstrumentScaleFactor] after [k] passes of the inner
    loop of the scale selection (lines 84-86). *)
Fixpoint instrument_factor (k : nat) : float :=
  match k with
  | O => 1%float
  | S k' => (instrument_factor k' / 10)%float
  end.

(** [valueScaleI] and [maxDeviationFromZero] in pass [k] (lines 87-88). *)
Definition candidate_scale (k : nat) : float :=
  (lADCResolution / fADCRange * instrument_factor k)%float.

Definition max_deviation (k : nat) : float :=
  (32767 / candidate_scale k)%float.

(** A scale [s] with deviation bound [D] is admissible when [s] is a
    positive normal double and the exact product [D * s] stays below 2^15
    by more than 2^-38. *)
Definition scale_admissible (s D : float) : bool :=
  match Prim2SF s, Prim2SF D with
  | S754_finite false ms es, S754_finite false mD eD =>
      ((2 ^ 52 <=? Zpos ms)
       && (Zpos mD * 2 ^ (eD + 1074) * (Zpos ms * 2 ^ (es + 1074))
           + 2 ^ (2148 - 38) <? 2 ^ (2148 + 15)))%Z
  | _, _ => false
  end.

(** The exact value of a double as a rational number. *)
Definition F2Q (x : float) : QArith_base.Q :=
  QArith_base.Qmake (SFord (Prim2SF x)) (2 ^ 1074)%positive.

(** ** Inputs *)

(** [channelCount] and [channelPointCount] of an input (lines 34-38). *)
Definition channelCount_of (a : ndarray) : nat :=
  match shape a with
  | [] => 0
  | [_] => 1
  | c :: _ => c
  end.

Definition channelPointCount_of (a : ndarray) : nat :=
  match shape a with
  | [] => 0
  | [n] => n
  | _ :: n :: _ => n
  end.

(** [matrix[ch][i]] and the row [matrix[ch]] of a one- or two-dimensional
    input. *)
Definition sample (a : ndarray) (ch i : nat) : float :=
  nth (ch * channelPointCount_of a + i) (elems a) 0%float.

Definition channel (a : ndarray) (ch : nat) : list float :=
  firstn (channelPointCount_of a)
         (skipn (ch * channelPointCount_of a) (elems a)).

(** The scale selection of one channel: its peak deviation, then the inner
    loop.  The results are the channel's instrument factor and its
    [ChannelScale], if the loop found one. *)
Definition select_scale (row : list float) : result (float * option float) :=
  m <- np_max (np_abs row) ;; scale_search 10 1%float m.

Definition channel_scale (a : ndarray) (ch : nat) : option float :=
  match select_scale (channel a ch) with
  | Ok (_, Some s) => Some s
  | _ => None
  end.

Definition channel_factor (a : ndarray) (ch : nat) : option float :=
  match select_scale (channel a ch) with
  | Ok (f, Some _) => Some f
  | _ => None
  end.

(** What one pass of the scale loop appends to [valueScale]. *)
Definition appended (r : float * option float) : list float :=
  match snd r with
  | Some v => [v]
  | None => []
  end.

(** A channel is representable when its peak deviation is within the
    deviation of the last pass. *)
Definition representable (row : list float) : Prop :=
  exists m, np_max (np_abs row) = Ok m /\ (m <=? max_deviation 10)%float = true.

(** A channel overflows when its peak deviation exceeds the deviation of
    every pass. *)
Definition overflows (row : list float) : Prop :=
  exists m, np_max (np_abs row) = Ok m /\
    forall k, 1 <= k <= 10 -> (max_deviation k <? m)%float = true.

(** A valid matrix and sample rate: a well-formed array of rank 1 or 2 with
    1 to 16 channels and at least one sample per channel, whose total
    sample count fits the 32-bit header fields, and a sample rate for which
    the sample interval exists (the rate is not zero) and is packed. *)
Definition valid_matrix (a : ndarray) (sampleRateHz : float) : Prop :=
  wf_ndarray a /\
  (length (shape a) = 1 \/ length (shape a) = 2) /\
  1 <= channelCount_of a <= 16 /\
  1 <= channelPointCount_of a /\
  (Z.of_nat (channelPointCount_of a * channelCount_of a) <= 2147483647)%Z /\
  (exists q i bs, py_truediv 1000000%float sampleRateHz = Ok q /\
                  py_truediv q (float_of_nat (channelCount_of a)) = Ok i /\
                  pack_f i = Ok bs).

(** Valid inputs: a valid matrix and sample rate, a unit label for every
    channel, and only representable channels. *)
Definition valid_input (a : ndarray) (sampleRateHz : float)
    (units : list String.string) : Prop :=
  valid_matrix a sampleRateHz /\
  channelCount_of a <= length units /\
  (forall ch, ch < channelCount_of a -> representable (channel a ch)).

(** ** The layout of the file *)

(** The header fields of the layout table, as (offset, length). *)
Definition header_fields : list (nat * nat) :=
  [ (0, 4); (4, 4); (8, 2); (10, 4); (16, 4); (40, 4); (100, 2); (120, 2);
    (122, 4); (138, 4); (244, 4); (252, 4); (378, 32); (410, 32);
    (602, 128); (730, 64); (922, 64); (1050, 64) ].

Definition in_header_field (j : nat) : Prop :=
  exists f, In f header_fields /\ fst f <= j < fst f + snd f.

(** [struct.unpack_from('h', buf, off)]: the signed 16-bit little-endian
    integer stored at [off]. *)
Definition int16_at (buf : bytearray) (off : nat) : Z :=
  let u := (nth off buf 0 + 256 * nth (off + 1) buf 0)%Z in
  if (u <? 32768)%Z then u else (u - 65536)%Z.

(** Two byte arrays of the same length that agree outside [R]. *)
Definition agree_outside (R : nat -> Prop) (b b' : bytearray) : Prop :=
  length b' = length b /\ forall j, ~ R j -> nth j b' 0%Z = nth j b 0%Z.

(** ** Example inputs *)

Definition mV : String.string := String.String "m" (String.String "V" String.EmptyString).

(** A file system with no files in which every path can be opened. *)
Definition empty_fs : filesystem :=
  {| fs_files := fun _ => None; fs_writable := fun _ => true |}.

(** Two channels of two samples: [[1, 0], [500, -3]]. *)
Definition two_channels : ndarray :=
  {| shape := [2; 2]; elems := [1; 0; 500; -3]%float |}.

(** Two channels, the second with a peak of 9.9998e10, above the deviation
    of every pass. *)
Definition overflowing_channel : ndarray :=
  {| shape := [2; 2]; elems := [90000000000; 0; 99998000000; 0]%float |}.

(** One channel with a peak of 2e11. *)
Definition overflowing_single : ndarray :=
  {| shape := [1; 2]; elems := [200000000000; 0]%float |}.

(** Seventeen channels of one sample each. *)
Definition seventeen_channels : ndarray :=
  {| shape := [17; 1];
     elems := [1; 2; 3; 4; 5; 6; 7; 8; 9; 10; 11; 12; 13; 14; 15; 16; 17]%float |}.

(** A rank-3 array of shape (2, 3, 1). *)
Definition rank3_input : ndarray :=
  {| shape := [2; 3; 1]; elems := [1; 2; 3; 4; 5; 6]%float |}.

(** Two channels without samples. *)
Definition no_samples : ndarray := {| shape := [2; 0]; elems := [] |}.

(** ** Reading the header *)

(** [buf[off : off + len]] *)
Definition bytes_at (buf : bytearray) (off len : nat) : list byte :=
  firstn len (skipn off buf).

(** The value written to slot [ch] of the two channel maps (lines 60-65). *)
Definition map_slot (channelCount ch : nat) : Z :=
  if (Z.of_nat ch <=? Z.of_nat channelCount - 1)%Z then Z.of_nat ch else (-1)%Z.

(** The bytes written by lines 59-65 and by lines 102-108. *)
Definition map_region (j : nat) : Prop := 378 <= j < 442.

Definition scale_region (j : nat) : Prop :=
  244 <= j < 248 \/ 252 <= j < 256 \/ 602 <= j < 794 \/
  922 <= j < 986 \/ 1050 <= j < 1114.

(** What lines 47-65 leave in the header: every field holds the packed
    value of the layout table. *)
Definition header_block (buf : bytearray) (dataPointCount : nat)
    (sampleRateHz : float) (channelCount : nat) : Prop :=
  pack_s 4 [65; 66; 70; 32]%Z = Ok (bytes_at buf 0 4) /\
  pack_f 0x1.4cccccccccccdp+0%float = Ok (bytes_at buf 4 4) /\
  pack_h 5 = Ok (bytes_at buf 8 2) /\
  pack_i (Z.of_nat dataPointCount) = Ok (bytes_at buf 10 4) /\
  pack_i 1 = Ok (bytes_at buf 16 4) /\
  pack_i 4 = Ok (bytes_at buf 40 4) /\
  pack_h 0 = Ok (bytes_at buf 100 2) /\
  (exists q i, py_truediv 1000000%float sampleRateHz = Ok q /\
               py_truediv q (float_of_nat channelCount) = Ok i /\
               pack_f i = Ok (bytes_at buf 122 4)) /\
  pack_i (Z.of_nat dataPointCount) = Ok (bytes_at buf 138 4) /\
  pack_h (Z.of_nat channelCount) = Ok (bytes_at buf 120 2) /\
  forall ch, ch < 16 ->
    pack_h (map_slot channelCount ch) = Ok (bytes_at buf (378 + 2 * ch) 2) /\
    pack_h (map_slot channelCount ch) = Ok (bytes_at buf (410 + 2 * ch) 2).

(** What lines 102-108 leave in the header, for the value [fo] of the
    variable [fInstrumentScaleFactor] and the list [unitString]. *)
Definition scale_block (buf : bytearray) (fo : option float)
    (unitString : list String.string) (channelCount : nat) : Prop :=
  pack_i 32768 = Ok (bytes_at buf 252 4) /\
  pack_f fADCRange = Ok (bytes_at buf 244 4) /\
  forall ch, ch < 16 ->
    (exists f, fo = Some f /\ pack_f f = Ok (bytes_at buf (922 + ch * 4) 4)) /\
    pack_f 1%float = Ok (bytes_at buf (1050 + ch * 4) 4) /\
    pack_f 1%float = Ok (bytes_at buf (730 + ch * 4) 4) /\
    (exists u, py_getitem unitString
                 (Z.min (Z.of_nat ch) (Z.of_nat channelCount - 1)) = Ok u /\
               pack_s 8 (encode u) = Ok (bytes_at buf (602 + ch * 8) 8)).

(** ** More example inputs *)

(** The file written for [two_channels] at 10000 Hz with units mV. *)
Definition two_channels_file : bytearray :=
  Eval vm_compute in
    match writeABF_data two_channels 10000 [mV; mV] with
    | Ok out => out
    | Raise _ => []
    end.

(** A file system in which no path can be opened for writing. *)
Definition read_only_fs : filesystem :=
  {| fs_files := fun _ => None; fs_writable := fun _ => false |}.

(** An array of shape (0, 3). *)
Definition no_channels : ndarray := {| shape := [0; 3]; elems := [] |}.

(** The list [valueScale] after lines 82-91: the scales of the channels
    for which the search accepted a pass, in channel order. *)
Definition selected_scales (a : ndarray) : list float :=
  flat_map (fun ch => match channel_scale a ch with
                      | Some s => [s]
                      | None => []
                      end)
           (seq 0 (channelCount_of a)).

(** The file written for [overflowing_channel] at 10000 Hz with units mV. *)
Definition overflowing_channel_file : bytearray :=
  Eval vm_compute in
    match writeABF_data overflowing_channel 10000 [mV; mV] with
    | Ok out => out
    | Raise _ => []
    end.

(** [float(c)] is not zero for the [n] integers [c] from [p] on. *)
Fixpoint float_nonzero_from (n : nat) (p : positive) : bool :=
  match n with
  | O => true
  | S n' =>
      negb (SF2Prim (binary_normalize prec emax (Zpos p) 0 false) =? 0)%float
      && float_nonzero_from n' (Pos.succ p)
  end.
(** * Binary64 arithmetic

    Facts about the IEEE-754 operations the encoder uses, derived from the
    specification of the primitive floats. *)

Section Binary64.
Local Open Scope Z_scope.

Lemma digits2_pos_size : forall p, digits2_pos p = Pos.size p.
Proof. induction p; simpl; congruence. Qed.

Lemma digits2_pos_bounds : forall p,
  2 ^ (Zpos (digits2_pos p) - 1) <= Zpos p < 2 ^ Zpos (digits2_pos p).
Proof.
  induction p; cbn [digits2_pos].
  - rewrite Pos2Z.inj_succ.
    replace (Z.succ (Zpos (digits2_pos p)) - 1) with (Z.succ (Zpos (digits2_pos p) - 1)) by lia.
    rewrite !Z.pow_succ_r by lia. lia.
  - rewrite Pos2Z.inj_succ.
    replace (Z.succ (Zpos (digits2_pos p)) - 1) with (Z.succ (Zpos (digits2_pos p) - 1)) by lia.
    rewrite !Z.pow_succ_r by lia. lia.
  - simpl. lia.
Qed.

Lemma iter_pos_nat : forall (A : Type) (f : A -> A) p x,
  iter_pos f p x = Nat.iter (Pos.to_nat p) f x.
Proof.
  intros A f. induction p; intros x; cbn [iter_pos].
  - rewrite !IHp. rewrite Pos2Nat.inj_xI.
    replace (S (2 * Pos.to_nat p))%nat with (Pos.to_nat p + (Pos.to_nat p + 1))%nat by lia.
    rewrite !Nat.iter_add. simpl. reflexivity.
  - rewrite !IHp. rewrite Pos2Nat.inj_xO.
    replace (2 * Pos.to_nat p)%nat with (Pos.to_nat p + Pos.to_nat p)%nat by lia.
    rewrite Nat.iter_add. reflexivity.
  - reflexivity.
Qed.

Lemma shr_1_m : forall r, 0 <= shr_m r -> shr_m (shr_1 r) = shr_m r / 2.
Proof.
  intros [m r s] H. cbn [shr_m] in *.
  destruct m as [|p|p]; [reflexivity| |lia].
  destruct p; cbn [shr_1 shr_m].
  - rewrite Pos2Z.inj_xI. apply Z.div_unique with 1; lia.
  - rewrite Pos2Z.inj_xO. apply Z.div_unique with 0; lia.
  - reflexivity.
Qed.

Lemma shr_iter_m : forall n r, 0 <= shr_m r ->
  shr_m (Nat.iter n shr_1 r) = shr_m r / 2 ^ Z.of_nat n.
Proof.
  induction n; intros r H.
  - simpl. now rewrite Z.div_1_r.
  - rewrite Nat.iter_succ. rewrite shr_1_m.
    + rewrite IHn by assumption. rewrite Nat2Z.inj_succ, Z.pow_succ_r by lia.
      rewrite Z.div_div by lia. f_equal. lia.
    + rewrite IHn by assumption. apply Z.div_pos; lia.
Qed.

Lemma round_nearest_even_bounds : forall m l,
  m <= round_nearest_even m l <= m + 1.
Proof.
  intros m [|[]]; cbn [round_nearest_even]; try lia.
  destruct (Z.even m); lia.
Qed.

Lemma fexp_b64 : forall x, fexp prec emax x = Z.max (x - 53) (-1074).
Proof. reflexivity. Qed.

Lemma digits2_pos_le : forall p k, Zpos p < 2 ^ k -> Zpos (digits2_pos p) <= k.
Proof.
  intros p k H.
  destruct (Z.le_gt_cases (Zpos (digits2_pos p)) k) as [|G]; [assumption|exfalso].
  pose proof (digits2_pos_bounds p) as [B _].
  assert (2 ^ k <= 2 ^ (Zpos (digits2_pos p) - 1)) by (apply Z.pow_le_mono_r; lia).
  lia.
Qed.

Lemma shr_nonpos : forall r e n, n <= 0 -> shr r e n = (r, e).
Proof. intros r e [|n|n] H; try reflexivity; lia. Qed.

Lemma shr_pos : forall r e n, 0 < n -> 0 <= shr_m r ->
  exists r', shr r e n = (r', e + n) /\ shr_m r' = shr_m r / 2 ^ n.
Proof.
  intros r e [|p|p] H Hm; try lia.
  exists (iter_pos shr_1 p r). split; [reflexivity|].
  rewrite iter_pos_nat, shr_iter_m by assumption.
  now rewrite positive_nat_Z.
Qed.

Lemma binary_round_aux_spec : forall s P e,
  let e1 := Z.max e (fexp prec emax (Zpos (digits2_pos P) + e)) in
  let m1 := Zpos P / 2 ^ (e1 - e) in
  exists m3 e3, 0 <= m3 /\ e1 <= e3 /\ m1 <= m3 * 2 ^ (e3 - e1) <= m1 + 1 /\
    binary_round_aux prec emax s (Zpos P) e loc_Exact =
      match m3 with
      | Z0 => S754_zero s
      | Zpos p => if e3 <=? emax - prec then S754_finite s p e3 else S754_infinity s
      | Zneg _ => S754_nan
      end.
Proof.
  intros s P e. cbv zeta.
  pose proof (digits2_pos_bounds P) as [DL DU].
  unfold binary_round_aux, shr_fexp, fexp.
  change (SpecFloat.emin prec emax) with (-1074). change prec with 53.
  cbn [Zdigits2 shr_record_of_loc].
  set (d := Zpos (digits2_pos P)) in *.
  set (f := Z.max (d + e - 53) (-1074)).
  set (e1 := Z.max e f).
  (* the first shift *)
  assert (H1 : exists r', shr {| shr_m := Zpos P; shr_r := false; shr_s := false |} e (f - e) = (r', e1)
                /\ shr_m r' = Zpos P / 2 ^ (e1 - e)
                /\ (f - e <= 0 -> r' = {| shr_m := Zpos P; shr_r := false; shr_s := false |})).
  { destruct (Z_le_gt_dec (f - e) 0) as [L|G].
    - rewrite shr_nonpos by assumption. eexists; split; [f_equal; lia|]. split; [|reflexivity].
      cbn [shr_m]. replace (e1 - e) with 0 by lia. now rewrite Z.div_1_r.
    - destruct (shr_pos {| shr_m := Zpos P; shr_r := false; shr_s := false |} e (f - e)) as (r' & E & M); [lia|cbn; lia|].
      exists r'. rewrite E. split; [f_equal; lia|]. split; [|lia].
      rewrite M. cbn [shr_m]. f_equal. f_equal. lia. }
  destruct H1 as (r' & -> & Hm & Hex).
  set (m2 := round_nearest_even (shr_m r') (loc_of_shr_record r')).
  assert (Hm1 : 0 <= shr_m r') by (rewrite Hm; apply Z.div_pos; lia).
  assert (Hlt : shr_m r' < 2 ^ 53).
  { rewrite Hm. apply Z.div_lt_upper_bound; [lia|].
    rewrite <- Z.pow_add_r by lia.
    eapply Z.lt_le_trans; [exact DU|]. apply Z.pow_le_mono_r; lia. }
  assert (Hm2 : shr_m r' <= m2 <= shr_m r' + 1) by apply round_nearest_even_bounds.
  assert (Hm2' : f - e <= 0 -> m2 = Zpos P).
  { intros L. unfold m2. rewrite (Hex L). reflexivity. }
  assert (Hb : -1074 <= e1 /\ e <= e1) by (unfold e1, f; lia).
  destruct m2 as [|q|q] eqn:Eq; [| |lia].
  - (* rounded to zero *)
    cbn [Zdigits2].
    rewrite shr_nonpos by lia. cbn [shr_m].
    exists 0, e1. rewrite Z.sub_diag. cbn. repeat split; lia.
  - cbn [Zdigits2].
    destruct (Z.eq_dec (Zpos q) (2 ^ 53)) as [E53|N53].
    + (* carry *)
      assert (q = 9007199254740992%positive) by (apply Pos2Z.inj; rewrite E53; reflexivity).
      subst q. change (Zpos (digits2_pos 9007199254740992)) with 54.
      replace (Z.max (54 + e1 - 53) (-1074) - e1) with 1 by lia.
      cbn [shr iter_pos shr_1 shr_m].
      exists 4503599627370496, (e1 + 1).
      replace (e1 + 1 - e1) with 1 by lia. repeat split; try lia.
    + assert (Zpos (digits2_pos q) <= 53) by (apply digits2_pos_le; lia).
      rewrite shr_nonpos by lia. cbn [shr_m].
      exists (Zpos q), e1. rewrite Z.sub_diag. rewrite Z.pow_0_r.
      repeat split; lia.
Qed.

Lemma bounded_facts : forall m e, bounded prec emax m e = true ->
  -1074 <= e <= 971 /\ Zpos m < 2 ^ 53 /\ (e = -1074 \/ 2 ^ 52 <= Zpos m).
Proof.
  intros m e H. unfold bounded, canonical_mantissa, fexp in H.
  change (SpecFloat.emin prec emax) with (-1074) in H.
  change prec with 53 in H. change emax with 1024 in H.
  apply andb_true_iff in H. destruct H as [C B].
  apply Z.eqb_eq in C. apply Z.leb_le in B.
  pose proof (digits2_pos_bounds m) as [DL DU].
  set (d := Zpos (digits2_pos m)) in *.
  assert (d <= 53) by lia.
  split; [lia|]. split.
  - eapply Z.lt_le_trans; [exact DU|]. apply Z.pow_le_mono_r; lia.
  - destruct (Z.eq_dec e (-1074)); [now left|right].
    assert (d = 53) by lia. replace 52 with (d - 1) by lia. assumption.
Qed.

Lemma pow2_pos : forall k, 0 < 2 ^ k \/ k < 0.
Proof. intros k. destruct (Z_lt_le_dec k 0); [now right|left]. apply Z.pow_pos_nonneg; lia. Qed.

Lemma mag_lt : forall m1 e1 m2 e2,
  bounded prec emax m1 e1 = true -> bounded prec emax m2 e2 = true ->
  e1 < e2 -> Zpos m1 * 2 ^ (e1 + 1074) < Zpos m2 * 2 ^ (e2 + 1074).
Proof.
  intros m1 e1 m2 e2 B1 B2 L.
  apply bounded_facts in B1. apply bounded_facts in B2.
  destruct B1 as (R1 & U1 & _). destruct B2 as (R2 & _ & [?|L2]); [lia|].
  replace (e2 + 1074) with ((e1 + 1074) + (e2 - e1)) by lia.
  rewrite (Z.pow_add_r 2 (e1 + 1074) (e2 - e1)) by lia.
  assert (0 < 2 ^ (e1 + 1074)) by (apply Z.pow_pos_nonneg; lia).
  assert (2 ^ 1 <= 2 ^ (e2 - e1)) by (apply Z.pow_le_mono_r; lia).
  change (2 ^ 1) with 2 in *. change (2 ^ 53) with (2 * 2 ^ 52) in U1.
  set (A := 2 ^ (e1 + 1074)) in *. set (B := 2 ^ (e2 - e1)) in *.
  set (T := 2 ^ 52) in *. assert (0 < T) by reflexivity. clearbody T A B.
  assert (Zpos m1 * A < 2 * T * A) by (apply Z.mul_lt_mono_pos_r; lia).
  assert (T * (A * 2) <= Zpos m2 * (A * B)).
  { apply Z.mul_le_mono_nonneg; try lia. apply Z.mul_le_mono_nonneg_l; lia. }
  lia.
Qed.

Lemma mag_compare : forall m1 e1 m2 e2,
  bounded prec emax m1 e1 = true -> bounded prec emax m2 e2 = true ->
  match e1 ?= e2 with
  | Lt => Lt
  | Gt => Gt
  | Eq => Pos.compare_cont Eq m1 m2
  end = (Zpos m1 * 2 ^ (e1 + 1074) ?= Zpos m2 * 2 ^ (e2 + 1074)).
Proof.
  intros m1 e1 m2 e2 B1 B2.
  destruct (Z.compare_spec e1 e2) as [E|L|G].
  - subst e2.
    assert (0 < 2 ^ (e1 + 1074)).
    { apply bounded_facts in B1. apply Z.pow_pos_nonneg; lia. }
    change (Pos.compare_cont Eq m1 m2) with (Zpos m1 ?= Zpos m2).
    apply Zmult_compare_compat_r. lia.
  - symmetry. apply Z.compare_lt_iff. now apply mag_lt.
  - symmetry. apply Z.compare_gt_iff. now apply mag_lt.
Qed.

Lemma mag_bounds : forall m e, bounded prec emax m e = true ->
  0 < Zpos m * 2 ^ (e + 1074) < 2 ^ 2098.
Proof.
  intros m e B. apply bounded_facts in B. destruct B as (R & U & _).
  assert (0 < 2 ^ (e + 1074)) by (apply Z.pow_pos_nonneg; lia).
  split; [lia|].
  assert (2 ^ (e + 1074) <= 2 ^ 2045) by (apply Z.pow_le_mono_r; lia).
  replace (2 ^ 2098) with (2 ^ 53 * 2 ^ 2045) by (rewrite <- Z.pow_add_r by lia; reflexivity).
  assert (0 < 2 ^ 53) by lia.
  nia.
Qed.

Lemma SFcompare_ord : forall x y,
  valid_binary x = true -> valid_binary y = true ->
  x <> S754_nan -> y <> S754_nan ->
  SFcompare x y = Some (SFord x ?= SFord y).
Proof.
  intros x y Vx Vy Nx Ny.
  assert (P2 : 0 < 2 ^ 2098) by (apply Z.pow_pos_nonneg; lia).
  destruct x as [sx|sx| |sx mx ex]; [| |congruence|];
  destruct y as [sy|sy| |sy my ey]; try congruence; cbn [SFcompare SFord];
    try (pose proof (mag_bounds _ _ Vx)); try (pose proof (mag_bounds _ _ Vy));
    f_equal; symmetry.
  all: try (destruct sx; destruct sy; cbn [cond_Zopp]; 
            first [ apply Z.compare_eq_iff; lia | apply Z.compare_lt_iff; lia | apply Z.compare_gt_iff; lia ]).
  all: try (destruct sx; cbn [cond_Zopp]; 
            first [ apply Z.compare_eq_iff; lia | apply Z.compare_lt_iff; lia | apply Z.compare_gt_iff; lia ]).
  all: try (destruct sy; cbn [cond_Zopp]; 
            first [ apply Z.compare_eq_iff; lia | apply Z.compare_lt_iff; lia | apply Z.compare_gt_iff; lia ]).
  all: try (first [ apply Z.compare_eq_iff; lia | apply Z.compare_lt_iff; lia | apply Z.compare_gt_iff; lia ]).
  cbn [valid_binary] in Vx, Vy.
  destruct sx, sy; cbn [cond_Zopp].
  - rewrite Z.compare_opp.
    rewrite <- (mag_compare my ey mx ex Vy Vx).
    rewrite (Z.compare_antisym ey ex).
    destruct (ey ?= ex); cbn [CompOpp]; try reflexivity.
    change (PosDef.Pos.compare_cont Eq mx my) with (Pos.compare mx my).
    change (PosDef.Pos.compare_cont Eq my mx) with (Pos.compare my mx).
    now rewrite (Pos.compare_antisym mx my).
  - apply Z.compare_lt_iff; lia.
  - apply Z.compare_gt_iff; lia.
  - symmetry. now apply mag_compare.
Qed.

(** Order facts on primitive floats. *)
Lemma is_nan_spec : forall x, is_nan x = true <-> Prim2SF x = S754_nan.
Proof.
  intros x. unfold is_nan. rewrite eqb_spec. unfold SFeqb.
  pose proof (Prim2SF_valid x) as V.
  destruct (Prim2SF x) as [s|s| |s m e] eqn:E.
  - cbn. split; discriminate.
  - cbn. destruct s; cbn; split; discriminate.
  - cbn. split; reflexivity.
  - rewrite SFcompare_ord by (assumption || discriminate).
    rewrite Z.compare_refl. cbn. split; discriminate.
Qed.

Lemma leb_true_ord : forall x y, (x <=? y)%float = true ->
  (Prim2SF x <> S754_nan) /\ (Prim2SF y <> S754_nan) /\
  (SFord (Prim2SF x) <= SFord (Prim2SF y)).
Proof.
  intros x y H. rewrite leb_spec in H. unfold SFleb in H.
  assert (Nx : Prim2SF x <> S754_nan).
  { intros E. rewrite E in H. discriminate. }
  assert (Ny : Prim2SF y <> S754_nan).
  { intros E. rewrite E in H. destruct (Prim2SF x); discriminate. }
  rewrite SFcompare_ord in H by (apply Prim2SF_valid || assumption).
  repeat split; try assumption.
  destruct (Z.compare_spec (SFord (Prim2SF x)) (SFord (Prim2SF y))); try lia; discriminate.
Qed.

Lemma leb_false_ord : forall x y, (x <=? y)%float = false ->
  Prim2SF x <> S754_nan -> Prim2SF y <> S754_nan ->
  SFord (Prim2SF y) < SFord (Prim2SF x).
Proof.
  intros x y H Nx Ny. rewrite leb_spec in H. unfold SFleb in H.
  rewrite SFcompare_ord in H by (apply Prim2SF_valid || assumption).
  destruct (Z.compare_spec (SFord (Prim2SF x)) (SFord (Prim2SF y))); try lia; discriminate.
Qed.


(** Pure arithmetic core: truncating a value that was rounded to a grid of
    step [1/T] stays within one unit of the exact value. *)
Lemma round_then_trunc : forall P A T W U m1 M v,
  0 < A -> 0 < T -> 0 < W -> U = A * T * W ->
  m1 * A <= P < (m1 + 1) * A ->
  m1 <= M <= m1 + 1 ->
  v * T <= M < (v + 1) * T ->
  (v - 1) * U <= P * W <= (v + 1) * U /\ v * U <= P * W + A * W.
Proof.
  intros P A T W U m1 M v HA HT HW -> [P1 P2] [M1 M2] [V1 V2].
  assert (HAW : 0 < A * W) by nia.
  assert (E1 : (v - 1) * T <= m1) by nia.
  assert (E2 : m1 + 1 <= (v + 1) * T) by nia.
  assert (F1 : (v - 1) * T * (A * W) <= m1 * (A * W)) by (apply Z.mul_le_mono_nonneg_r; lia).
  assert (F2 : (m1 + 1) * (A * W) <= (v + 1) * T * (A * W)) by (apply Z.mul_le_mono_nonneg_r; lia).
  assert (G1 : m1 * A * W <= P * W) by (apply Z.mul_le_mono_nonneg_r; lia).
  assert (G2 : P * W <= (m1 + 1) * A * W) by (apply Z.mul_le_mono_nonneg_r; lia).
  assert (F3 : v * T * (A * W) <= (m1 + 1) * (A * W)) by (apply Z.mul_le_mono_nonneg_r; lia).
  repeat split; nia.
Qed.

(** Multiplying a double [x] by a positive normal double [s] and converting
    the product to an integer.  [c] is the scaling exponent [2 * 1074] of
    exact products; it is kept symbolic so that no large power is ever
    evaluated. *)
Lemma SFmul_trunc : forall c, c = 2148 -> forall sx mx ex ms es,
  bounded prec emax mx ex = true -> bounded prec emax ms es = true ->
  2 ^ 52 <= Zpos ms ->
  Zpos mx * 2 ^ (ex + 1074) * (Zpos ms * 2 ^ (es + 1074)) + 2 ^ (c - 38)
    < 2 ^ (c + 15) ->
  exists q, 0 <= q <= 32767 /\
    c_double_to_int64
      (SFmul prec emax (S754_finite sx mx ex) (S754_finite false ms es))
    = cond_Zopp sx q /\
    (q - 1) * 2 ^ c
    <= Zpos mx * 2 ^ (ex + 1074) * (Zpos ms * 2 ^ (es + 1074))
    <= (q + 1) * 2 ^ c.
Proof.
  intros c Hc sx mx ex ms es Bx Bs Ns Hb.
  apply bounded_facts in Bx. apply bounded_facts in Bs.
  destruct Bx as (Rx & Ux & _). destruct Bs as (Rs & Us & _).
  cbn [SFmul]. rewrite xorb_false_r.
  destruct (binary_round_aux_spec sx (mx * ms) (ex + es))
    as (m3 & e3 & Hm3 & He3 & HM & ->).
  pose proof (digits2_pos_bounds (mx * ms)) as [DL DU].
  unfold fexp in *. change (SpecFloat.emin prec emax) with (-1074) in *.
  change prec with 53 in *. change emax with 1024 in *.
  set (d := Zpos (digits2_pos (mx * ms))) in *.
  set (P := Zpos (mx * ms)) in *.
  set (e := ex + es) in *.
  assert (HP : P = Zpos mx * Zpos ms) by (unfold P; apply Pos2Z.inj_mul).
  assert (Hec : 0 <= e + c) by (unfold e; lia).
  (* the exact product *)
  assert (HXS : Zpos mx * 2 ^ (ex + 1074) * (Zpos ms * 2 ^ (es + 1074))
                = P * 2 ^ (e + c)).
  { replace (e + c) with ((ex + 1074) + (es + 1074)) by (unfold e; lia).
    rewrite (Z.pow_add_r 2 (ex + 1074) (es + 1074)) by lia. rewrite HP. ring. }
  rewrite HXS in *. clear HXS.
  set (W := 2 ^ (e + c)) in *.
  assert (HW : 0 < W) by (apply Z.pow_pos_nonneg; lia).
  assert (HG : 0 < 2 ^ (c - 38)) by (apply Z.pow_pos_nonneg; lia).
  assert (P52 : 2 ^ 52 <= P).
  { rewrite HP. assert (0 < 2 ^ 52) by reflexivity.
    assert (1 * Zpos ms <= Zpos mx * Zpos ms) by (apply Z.mul_le_mono_nonneg_r; lia).
    lia. }
  assert (Hd : 53 <= d).
  { assert (H : 2 ^ 52 < 2 ^ d) by lia.
    apply Z.pow_lt_mono_r_iff in H; lia. }
  assert (Hde : d + e <= 15).
  { assert (H : 2 ^ (d - 1) * W < 2 ^ (c + 15)).
    { eapply Z.le_lt_trans; [apply Z.mul_le_mono_nonneg_r; [lia|exact DL]|lia]. }
    unfold W in H. rewrite <- Z.pow_add_r in H by lia.
    apply Z.pow_lt_mono_r_iff in H; lia. }
  set (e1 := Z.max e (Z.max (d + e - 53) (-1074))) in *.
  assert (He1 : e <= e1 <= -38) by (unfold e1; lia).
  set (A := 2 ^ (e1 - e)) in *.
  set (T := 2 ^ (- e1)).
  set (M := m3 * 2 ^ (e3 - e1)) in *.
  assert (HA : 0 < A) by (apply Z.pow_pos_nonneg; lia).
  assert (HT : 0 < T) by (apply Z.pow_pos_nonneg; lia).
  assert (HU : 2 ^ c = A * T * W).
  { unfold A, T, W. rewrite <- !Z.pow_add_r by lia. f_equal. lia. }
  assert (HAWG : A * W <= 2 ^ (c - 38)).
  { unfold A, W. rewrite <- Z.pow_add_r by lia. apply Z.pow_le_mono_r; lia. }
  assert (H63 : 2 ^ (c + 15) = 32768 * 2 ^ c).
  { rewrite Z.pow_add_r by lia. change (2 ^ 15) with 32768. ring. }
  assert (HU0 : 0 < 2 ^ c) by (apply Z.pow_pos_nonneg; lia).
  rewrite H63 in Hb. clear H63.
  set (U := 2 ^ c) in *. set (G := 2 ^ (c - 38)) in *.
  assert (HTdef : T = 2 ^ (- e1)) by reflexivity.
  clearbody U G W A T.
  set (m1 := P / A) in *.
  assert (Hm1 : m1 * A <= P < (m1 + 1) * A).
  { unfold m1. split.
    - rewrite Z.mul_comm. apply Z.mul_div_le. lia.
    - pose proof (Z.mul_succ_div_gt P A HA). lia. }
  assert (HM0 : 0 <= M).
  { unfold M. apply Z.mul_nonneg_nonneg; [lia|]. apply Z.pow_nonneg; lia. }
  set (v := M / T).
  assert (Hv : v * T <= M < (v + 1) * T).
  { unfold v. split.
    - rewrite Z.mul_comm. apply Z.mul_div_le. lia.
    - pose proof (Z.mul_succ_div_gt M T HT). lia. }
  assert (Hv0 : 0 <= v) by (unfold v; apply Z.div_pos; lia).
  destruct (round_then_trunc P A T W U m1 M v HA HT HW HU Hm1 HM Hv) as [RT UB].
  assert (Hv1 : v <= 32767).
  { assert (H : v * U < 32768 * U) by lia.
    apply Z.mul_lt_mono_pos_r in H; lia. }
  exists v. split; [lia|]. split; [|exact RT].
  clear RT UB Hb HAWG HU.
  destruct m3 as [|p|p]; [| |lia].
  - (* rounded to zero *)
    cbn [c_double_to_int64]. unfold v, M. rewrite Z.mul_0_l.
    rewrite Z.div_0_l by lia. now destruct sx.
  - assert (He3' : e3 < 15).
    { assert (HMT : M < 32768 * T).
      { eapply Z.lt_le_trans; [apply Hv|]. apply Z.mul_le_mono_nonneg_r; lia. }
      assert (H1 : 2 ^ (e3 - e1) <= M).
      { unfold M. assert (0 < 2 ^ (e3 - e1)) by (apply Z.pow_pos_nonneg; lia).
        assert (1 * 2 ^ (e3 - e1) <= Zpos p * 2 ^ (e3 - e1))
          by (apply Z.mul_le_mono_nonneg_r; lia).
        lia. }
      assert (H2 : 2 ^ (e3 - e1) < 2 ^ (15 - e1)).
      { replace (15 - e1) with (15 + - e1) by lia.
        rewrite Z.pow_add_r by lia. change (2 ^ 15) with 32768.
        rewrite HTdef in HMT. lia. }
      apply Z.pow_lt_mono_r_iff in H2; lia. }
    replace (e3 <=? 1024 - 53) with true by (symmetry; apply Z.leb_le; lia).
    cbn [c_double_to_int64].
    assert (Hq : (if 0 <=? e3 then Zpos p * 2 ^ e3 else Zpos p / 2 ^ (- e3)) = v).
    { unfold v, M. rewrite HTdef. destruct (Z.leb_spec 0 e3) as [L|L].
      - replace (e3 - e1) with (e3 + - e1) by lia.
        rewrite Z.pow_add_r by lia. rewrite Z.mul_assoc.
        rewrite Z.div_mul; [reflexivity|]. apply Z.pow_nonzero; lia.
      - replace (- e1) with (- e3 + (e3 - e1)) by lia.
        rewrite Z.pow_add_r by lia.
        rewrite Z.div_mul_cancel_r; [reflexivity| |];
          apply Z.pow_nonzero; lia. }
    rewrite Hq.
    destruct sx; cbn [cond_Zopp].
    + replace ((- 2 ^ 63 <=? - v) && (- v <? 2 ^ 63)) with true; [reflexivity|].
      symmetry. apply andb_true_iff. split; [apply Z.leb_le|apply Z.ltb_lt];
        change (2 ^ 63) with 9223372036854775808; lia.
    + replace ((- 2 ^ 63 <=? v) && (v <? 2 ^ 63)) with true; [reflexivity|].
      symmetry. apply andb_true_iff. split; [apply Z.leb_le|apply Z.ltb_lt];
        change (2 ^ 63) with 9223372036854775808; lia.
Qed.

End Binary64.
(** * Scale selection and quantisation *)

Section Scales.
Local Open Scope Z_scope.

Lemma candidate_scale_nonzero : forall k, (1 <= k <= 10)%nat ->
  (candidate_scale k =? 0)%float = false.
Proof.
  intros k [L U].
  do 11 (destruct k as [|k]; [try lia; try (vm_compute; reflexivity)|]).
  lia.
Qed.

Lemma candidate_scale_admissible : forall k, (1 <= k <= 10)%nat ->
  scale_admissible (candidate_scale k) (max_deviation k) = true.
Proof.
  intros k [L U].
  do 11 (destruct k as [|k]; [try lia; try (vm_compute; reflexivity)|]).
  lia.
Qed.

(** The inner loop, started after [j] passes with [n] passes left. *)
Lemma scale_search_spec : forall n j maxVal, (j + n <= 10)%nat ->
  (exists k, (j < k <= j + n)%nat /\
     scale_search n (instrument_factor j) maxVal
       = Ok (instrument_factor k, Some (candidate_scale k)) /\
     (maxVal <=? max_deviation k)%float = true /\
     forall i, (j < i < k)%nat -> (maxVal <=? max_deviation i)%float = false)
  \/ (scale_search n (instrument_factor j) maxVal
        = Ok (instrument_factor (j + n), None) /\
      forall i, (j < i <= j + n)%nat -> (maxVal <=? max_deviation i)%float = false).
Proof.
  induction n as [|n IH]; intros j maxVal Hj.
  - right. cbn [scale_search]. rewrite Nat.add_0_r. split; [reflexivity|].
    intros i Hi. lia.
  - cbn [scale_search].
    change (instrument_factor j / 10)%float with (instrument_factor (S j)).
    change (lADCResolution / fADCRange * instrument_factor (S j))%float
      with (candidate_scale (S j)).
    unfold py_truediv. rewrite candidate_scale_nonzero by lia.
    cbn [bind].
    change (32767 / candidate_scale (S j))%float with (max_deviation (S j)).
    destruct (maxVal <=? max_deviation (S j))%float eqn:E.
    + left. exists (S j). repeat split; try lia; try assumption.
    + destruct (IH (S j) maxVal) as [(k & Hk & Hs & Hle & Hlt)|[Hs Hlt]]; [lia| |].
      * left. exists k. repeat split; try lia; try assumption.
        intros i Hi. destruct (Nat.eq_dec i (S j)) as [->|]; [assumption|].
        apply Hlt. lia.
      * right. replace (j + S n)%nat with (S j + n)%nat by lia.
        split; [assumption|].
        intros i Hi. destruct (Nat.eq_dec i (S j)) as [->|]; [assumption|].
        apply Hlt. lia.
Qed.
End Scales.

Section Quantize.
Local Open Scope Z_scope.

Lemma np_maximum_fold : forall l acc,
  Prim2SF (fold_left np_maximum l acc) <> S754_nan ->
  (Prim2SF acc <> S754_nan /\
   SFord (Prim2SF acc) <= SFord (Prim2SF (fold_left np_maximum l acc))) /\
  (forall y, In y l ->
     Prim2SF y <> S754_nan /\
     SFord (Prim2SF y) <= SFord (Prim2SF (fold_left np_maximum l acc))).
Proof.
  induction l as [|y l IH]; intros acc Hn; cbn [fold_left] in *.
  - split; [split; [assumption|lia]|]. intros y [].
  - destruct (IH _ Hn) as [[Hn1 Hle1] Hall]. clear IH.
    set (r := fold_left np_maximum l (np_maximum acc y)) in *.
    assert (Hstep : (Prim2SF acc <> S754_nan) /\ (Prim2SF y <> S754_nan) /\
                    SFord (Prim2SF acc) <= SFord (Prim2SF (np_maximum acc y)) /\
                    SFord (Prim2SF y) <= SFord (Prim2SF (np_maximum acc y))).
    { unfold np_maximum in *.
      destruct (is_nan acc) eqn:Na.
      - apply is_nan_spec in Na. contradiction.
      - assert (Nacc : Prim2SF acc <> S754_nan).
        { intros E. apply is_nan_spec in E. congruence. }
        destruct (y <=? acc)%float eqn:L.
        + apply leb_true_ord in L. destruct L as (Ny & _ & L).
          repeat split; try assumption; lia.
        + apply leb_false_ord in L; try assumption.
          repeat split; try assumption; lia. }
    destruct Hstep as (Na & Ny & La & Ly).
    split; [split; [assumption|lia]|].
    intros z [<-|Hz]; [split; [assumption|lia]|]. now apply Hall.
Qed.

(** Every element of a row is bounded by the row's peak deviation. *)
Lemma np_max_abs_bound : forall row m x,
  np_max (np_abs row) = Ok m -> Prim2SF m <> S754_nan -> In x row ->
  Prim2SF (abs x) <> S754_nan /\
  SFord (Prim2SF (abs x)) <= SFord (Prim2SF m).
Proof.
  intros row m x Hm Hn Hx. unfold np_max, np_abs in Hm.
  destruct row as [|x0 row]; [discriminate|]. cbn [map] in Hm.
  injection Hm as <-.
  destruct (np_maximum_fold _ _ Hn) as [[Hn0 Hl0] Hall].
  destruct Hx as [<-|Hx]; [split; assumption|].
  apply Hall. now apply in_map.
Qed.

(** Scaling a sample within the deviation bound and converting it to an
    integer: the result fits 16 bits and is within one unit of the exact
    product.  [c] is the scaling exponent of exact products. *)
Lemma quantize_spec : forall c, c = 2148 -> forall x s D,
  scale_admissible s D = true -> (abs x <=? D)%float = true ->
  -32767 <= astype_int (x * s) <= 32767 /\
  Z.abs (astype_int (x * s) * 2 ^ c
         - SFord (Prim2SF x) * SFord (Prim2SF s)) <= 2 ^ c.
Proof.
  intros c Hc x s D Hadm Hle.
  unfold scale_admissible in Hadm.
  pose proof (Prim2SF_valid s) as Vs. pose proof (Prim2SF_valid D) as VD.
  pose proof (Prim2SF_valid x) as Vx.
  destruct (Prim2SF s) as [| | |ss ms es] eqn:Es; try discriminate.
  destruct ss; [discriminate|].
  destruct (Prim2SF D) as [| | |sD mD eD] eqn:ED; try discriminate.
  destruct sD; [discriminate|].
  apply andb_true_iff in Hadm. destruct Hadm as [Ns Hb].
  apply Z.leb_le in Ns. apply Z.ltb_lt in Hb. rewrite <- Hc in Hb.
  apply leb_true_ord in Hle. destruct Hle as (Nx & _ & Hle).
  rewrite abs_spec in Nx, Hle. rewrite ED in Hle. cbn [SFord cond_Zopp] in Hle.
  unfold astype_int. rewrite mul_spec, Es. unfold SF64mul.
  assert (HU : 0 < 2 ^ c) by (apply Z.pow_pos_nonneg; lia).
  cbn [valid_binary] in Vs, VD.
  pose proof (mag_bounds _ _ Vs) as [S0 _].
  pose proof (mag_bounds _ _ VD) as [_ DU].
  destruct (Prim2SF x) as [sx|sx| |sx mx ex] eqn:Ex.
  - (* zero *)
    cbn [SFmul c_double_to_int64 SFord]. rewrite Z.mul_0_l, Z.sub_0_r.
    cbn [Z.abs]. split; lia.
  - (* infinity *)
    exfalso. cbn [SFabs SFord cond_Zopp] in Hle.
    apply (Z.lt_irrefl (2 ^ 2098)). eapply Z.le_lt_trans; eassumption.
  - exfalso. now apply Nx.
  - cbn [SFabs SFord cond_Zopp valid_binary] in Hle, Vx.
    destruct (SFmul_trunc c Hc sx mx ex ms es Vx Vs Ns) as (q & Hq & -> & RT).
    { eapply Z.le_lt_trans; [|exact Hb]. apply Z.add_le_mono_r.
      apply Z.mul_le_mono_nonneg_r; [|assumption]. apply Z.lt_le_incl, S0. }
    clear Hb DU Hle.
    cbn [SFord]. 
    set (U := 2 ^ c) in *. clearbody U.
    set (X := Zpos mx * 2 ^ (ex + 1074)) in *.
    set (S := Zpos ms * 2 ^ (es + 1074)) in *. clearbody X S.
    destruct sx; cbn [cond_Zopp]; split; lia.
Qed.
End Quantize.
(** * Byte arrays and [struct.pack_into] *)

Lemma bind_ok_inv : forall (A B : Type) (r : result A) (k : A -> result B) b,
  bind r k = Ok b -> exists a, r = Ok a /\ k a = Ok b.
Proof. intros A B [a|e] k b H; [now exists a|discriminate]. Qed.

Ltac inv_bind H :=
  match type of H with
  | bind _ _ = Ok _ =>
      let x := fresh "x" in
      let E := fresh "E" in
      apply bind_ok_inv in H; destruct H as (x & E & H)
  end.

Lemma le_bytes_length : forall n v, length (le_bytes n v) = n.
Proof. induction n; intros v; cbn; [reflexivity|now rewrite IHn]. Qed.

Lemma pack_h_length : forall v bs, pack_h v = Ok bs -> length bs = 2.
Proof.
  unfold pack_h. intros v bs H.
  destruct (_ && _); [|discriminate]. injection H as <-. reflexivity.
Qed.

Lemma pack_i_length : forall v bs, pack_i v = Ok bs -> length bs = 4.
Proof.
  unfold pack_i. intros v bs H.
  destruct (_ && _); [|discriminate]. injection H as <-. reflexivity.
Qed.

Lemma pack_f_length : forall x bs, pack_f x = Ok bs -> length bs = 4.
Proof.
  unfold pack_f. intros x bs H. cbv zeta in H.
  match type of H with Ok (le_bytes 4 ?v) = _ => set (w := v) in H end.
  injection H as <-. reflexivity.
Qed.

Lemma pack_s_length : forall n bs bs', pack_s n bs = Ok bs' -> length bs' = n.
Proof.
  unfold pack_s. intros n bs bs' H. injection H as <-.
  rewrite firstn_length_le; [reflexivity|].
  rewrite length_app, repeat_length. lia.
Qed.

Lemma pack_hs_length : forall vs bs, pack_hs vs = Ok bs -> length bs = 2 * length vs.
Proof.
  induction vs as [|v vs IH]; intros bs H; cbn [pack_hs] in H.
  - injection H as <-. reflexivity.
  - inv_bind H. inv_bind H. injection H as <-.
    rewrite length_app, (pack_h_length _ _ E), (IH _ E0). cbn [length]. lia.
Qed.

Lemma splice_length : forall buf off bs,
  off + length bs <= length buf -> length (splice buf off bs) = length buf.
Proof.
  intros buf off bs H. unfold splice.
  rewrite !length_app, firstn_length_le, length_skipn by lia. lia.
Qed.

Lemma splice_nth_outside : forall buf off bs j d,
  off + length bs <= length buf -> j < off \/ off + length bs <= j ->
  nth j (splice buf off bs) d = nth j buf d.
Proof.
  intros buf off bs j d H [L|G]; unfold splice.
  - rewrite app_nth1 by (rewrite firstn_length_le; lia).
    rewrite nth_firstn. destruct (j <? off) eqn:E; [reflexivity|].
    apply Nat.ltb_ge in E. lia.
  - rewrite app_nth2 by (rewrite firstn_length_le; lia).
    rewrite firstn_length_le by lia.
    rewrite app_nth2 by lia.
    rewrite nth_skipn. f_equal. lia.
Qed.

Lemma splice_nth_inside : forall buf off bs k d,
  off + length bs <= length buf -> k < length bs ->
  nth (off + k) (splice buf off bs) d = nth k bs d.
Proof.
  intros buf off bs k d H L. unfold splice.
  rewrite app_nth2 by (rewrite firstn_length_le; lia).
  rewrite firstn_length_le by lia.
  rewrite app_nth1 by lia. f_equal. lia.
Qed.

Lemma pack_into_inv : forall size enc buf off buf',
  pack_into size enc buf off = Ok buf' ->
  exists bs, enc = Ok bs /\ off + size <= length buf /\ buf' = splice buf off bs.
Proof.
  unfold pack_into. intros size enc buf off buf' H.
  destruct (off + size <=? length buf) eqn:E; [|discriminate].
  apply Nat.leb_le in E. inv_bind H. injection H as <-. now exists x.
Qed.

Lemma pack_into_ok : forall size enc buf off bs,
  enc = Ok bs -> off + size <= length buf ->
  pack_into size enc buf off = Ok (splice buf off bs).
Proof.
  unfold pack_into. intros size enc buf off bs -> H.
  apply Nat.leb_le in H. now rewrite H.
Qed.

(** ** Frames *)

Lemma agree_refl : forall R b, agree_outside R b b.
Proof. intros R b. split; [reflexivity|]. reflexivity. Qed.

Lemma agree_trans : forall R b1 b2 b3,
  agree_outside R b1 b2 -> agree_outside R b2 b3 -> agree_outside R b1 b3.
Proof.
  intros R b1 b2 b3 [L1 H1] [L2 H2]. split; [congruence|].
  intros j Hj. now rewrite H2, H1.
Qed.

Lemma pack_into_agree : forall (R : nat -> Prop) size enc buf off buf',
  (forall bs, enc = Ok bs -> length bs = size) ->
  (forall j, off <= j < off + size -> R j) ->
  pack_into size enc buf off = Ok buf' -> agree_outside R buf buf'.
Proof.
  intros R size enc buf off buf' Hlen HR H.
  apply pack_into_inv in H. destruct H as (bs & E & B & ->).
  specialize (Hlen _ E). split.
  - apply splice_length. lia.
  - intros j Hj. apply splice_nth_outside; [lia|].
    destruct (Nat.lt_ge_cases j off) as [|G]; [now left|right].
    destruct (Nat.le_gt_cases (off + length bs) j) as [|L]; [assumption|].
    exfalso. apply Hj, HR. lia.
Qed.

Lemma pack_into_h_agree : forall (R : nat -> Prop) buf off v buf',
  (forall j, off <= j < off + 2 -> R j) ->
  pack_into_h buf off v = Ok buf' -> agree_outside R buf buf'.
Proof. intros. eapply pack_into_agree; eauto using pack_h_length. Qed.

Lemma pack_into_i_agree : forall (R : nat -> Prop) buf off v buf',
  (forall j, off <= j < off + 4 -> R j) ->
  pack_into_i buf off v = Ok buf' -> agree_outside R buf buf'.
Proof. intros. eapply pack_into_agree; eauto using pack_i_length. Qed.

Lemma pack_into_f_agree : forall (R : nat -> Prop) buf off x buf',
  (forall j, off <= j < off + 4 -> R j) ->
  pack_into_f buf off x = Ok buf' -> agree_outside R buf buf'.
Proof. intros. eapply pack_into_agree; eauto using pack_f_length. Qed.

Lemma pack_into_s_agree : forall (R : nat -> Prop) n buf off bs buf',
  (forall j, off <= j < off + n -> R j) ->
  pack_into_s n buf off bs = Ok buf' -> agree_outside R buf buf'.
Proof. intros. eapply pack_into_agree; eauto using pack_s_length. Qed.

Lemma for_each_agree : forall (A : Type) (R : nat -> Prop) (l : list A) body b b',
  (forall x s s', In x l -> body x s = Ok s' -> agree_outside R s s') ->
  for_each l body b = Ok b' -> agree_outside R b b'.
Proof.
  induction l as [|x l IH]; intros body b b' Hb H; cbn [for_each] in H.
  - injection H as <-. apply agree_refl.
  - inv_bind H. eapply agree_trans.
    + apply (Hb x b x0); [now left|assumption].
    + eapply IH; [|eassumption]. intros y s s' Hy Hs. apply (Hb y s s'); [now right|assumption].
Qed.
(** * The header is written inside the fields of the layout table *)

Ltac in_field f :=
  let j := fresh "j" in
  let Hj := fresh "Hj" in
  intros j Hj; exists f; split;
  [unfold header_fields; cbn [In]; tauto | cbn [fst snd]; lia].

Lemma populate_header_agree : forall data dataPointCount sampleRateHz channelCount data',
  populate_header data dataPointCount sampleRateHz channelCount = Ok data' ->
  agree_outside in_header_field data data'.
Proof.
  unfold populate_header. intros data dpc rate C data' H.
  repeat inv_bind H.
  repeat match goal with
  | E : pack_into_s _ _ _ _ = Ok _ |- _ =>
      apply (pack_into_s_agree in_header_field) in E; [|in_field (0, 4)]
  | E : pack_into_f _ 4 _ = Ok _ |- _ =>
      apply (pack_into_f_agree in_header_field) in E; [|in_field (4, 4)]
  | E : pack_into_h _ 8 _ = Ok _ |- _ =>
      apply (pack_into_h_agree in_header_field) in E; [|in_field (8, 2)]
  | E : pack_into_i _ 10 _ = Ok _ |- _ =>
      apply (pack_into_i_agree in_header_field) in E; [|in_field (10, 4)]
  | E : pack_into_i _ 16 _ = Ok _ |- _ =>
      apply (pack_into_i_agree in_header_field) in E; [|in_field (16, 4)]
  | E : pack_into_i _ 40 _ = Ok _ |- _ =>
      apply (pack_into_i_agree in_header_field) in E; [|in_field (40, 4)]
  | E : pack_into_h _ 100 _ = Ok _ |- _ =>
      apply (pack_into_h_agree in_header_field) in E; [|in_field (100, 2)]
  | E : pack_into_f _ 122 _ = Ok _ |- _ =>
      apply (pack_into_f_agree in_header_field) in E; [|in_field (122, 4)]
  | E : pack_into_i _ 138 _ = Ok _ |- _ =>
      apply (pack_into_i_agree in_header_field) in E; [|in_field (138, 4)]
  | E : pack_into_h _ 120 _ = Ok _ |- _ =>
      apply (pack_into_h_agree in_header_field) in E; [|in_field (120, 2)]
  end.
  apply (for_each_agree _ in_header_field) in H.
  - repeat (eapply agree_trans; [eassumption|]). apply agree_refl.
  - intros ch s s' Hch Hs. unfold range, MAX_NUM_CH in Hch.
    apply in_seq in Hch.
    destruct (_ <=? _)%Z;
      apply bind_ok_inv in Hs; destruct Hs as (b1 & Eb1 & Hs);
      (apply (pack_into_h_agree in_header_field) in Eb1; [|in_field (378, 32)]);
      (apply (pack_into_h_agree in_header_field) in Hs; [|in_field (410, 32)]);
      eapply agree_trans; eassumption.
Qed.

Lemma store_scale_data_agree : forall data f unitString channelCount data',
  store_scale_data data f unitString channelCount = Ok data' ->
  agree_outside in_header_field data data'.
Proof.
  unfold store_scale_data. intros data f us C data' H.
  repeat inv_bind H.
  apply (pack_into_i_agree in_header_field) in E; [|in_field (252, 4)].
  apply (pack_into_f_agree in_header_field) in E0; [|in_field (244, 4)].
  apply (for_each_agree _ in_header_field) in H.
  - repeat (eapply agree_trans; [eassumption|]). apply agree_refl.
  - intros ch s s' Hch Hs. unfold range, MAX_NUM_CH in Hch.
    apply in_seq in Hch.
    apply bind_ok_inv in Hs; destruct Hs as (f0 & Ef & Hs).
    apply bind_ok_inv in Hs; destruct Hs as (b1 & Eb1 & Hs).
    apply bind_ok_inv in Hs; destruct Hs as (b2 & Eb2 & Hs).
    apply bind_ok_inv in Hs; destruct Hs as (b3 & Eb3 & Hs).
    apply bind_ok_inv in Hs; destruct Hs as (u & Eu & Hs).
    apply (pack_into_f_agree in_header_field) in Eb1; [|in_field (922, 64)].
    apply (pack_into_f_agree in_header_field) in Eb2; [|in_field (1050, 64)].
    apply (pack_into_f_agree in_header_field) in Eb3; [|in_field (730, 64)].
    apply (pack_into_s_agree in_header_field) in Hs; [|in_field (602, 128)].
    repeat (eapply agree_trans; [eassumption|]). apply agree_refl.
Qed.
(** * Scale selection of a channel *)

Section Selection.
Local Open Scope Z_scope.

Lemma select_scale_found : forall row f s,
  select_scale row = Ok (f, Some s) ->
  exists k m, (1 <= k <= 10)%nat /\ np_max (np_abs row) = Ok m /\
    f = instrument_factor k /\ s = candidate_scale k /\
    (m <=? max_deviation k)%float = true /\
    (forall i, (1 <= i < k)%nat -> (m <=? max_deviation i)%float = false).
Proof.
  intros row f s H. unfold select_scale in H. inv_bind H.
  change 1%float with (instrument_factor 0) in H.
  destruct (scale_search_spec 10 0 x) as [(k & Hk & Hs & Hle & Hlt)|[Hs _]]; [lia| |].
  - rewrite Hs in H. injection H as <- <-.
    exists k, x. repeat split; try lia; try assumption;
      try (intros i Hi; apply Hlt; lia).
  - rewrite Hs in H. discriminate.
Qed.

Lemma select_scale_not_found : forall row f,
  select_scale row = Ok (f, None) ->
  exists m, np_max (np_abs row) = Ok m /\ f = instrument_factor 10 /\
    forall i, (1 <= i <= 10)%nat -> (m <=? max_deviation i)%float = false.
Proof.
  intros row f H. unfold select_scale in H. inv_bind H.
  change 1%float with (instrument_factor 0) in H.
  destruct (scale_search_spec 10 0 x) as [(k & Hk & Hs & Hle & Hlt)|[Hs Hlt]]; [lia| |].
  - rewrite Hs in H. discriminate.
  - rewrite Hs in H. injection H as <-.
    exists x. repeat split; try assumption; try (intros i Hi; apply Hlt; lia).
Qed.

(** The selection never raises on a non-empty row. *)
Lemma select_scale_total : forall row m,
  np_max (np_abs row) = Ok m ->
  exists f o, select_scale row = Ok (f, o).
Proof.
  intros row m Hm. unfold select_scale. rewrite Hm. cbn [bind].
  change 1%float with (instrument_factor 0).
  destruct (scale_search_spec 10 0 m) as [(k & Hk & Hs & _)|[Hs _]]; [lia| |];
    rewrite Hs; eauto.
Qed.

Lemma representable_found : forall row, representable row ->
  exists f s, select_scale row = Ok (f, Some s).
Proof.
  intros row (m & Hm & Hle). unfold select_scale. rewrite Hm. cbn [bind].
  change 1%float with (instrument_factor 0).
  destruct (scale_search_spec 10 0 m) as [(k & Hk & Hs & _)|[Hs Hlt]]; [lia| |].
  - rewrite Hs; eauto.
  - rewrite (Hlt 10%nat) in Hle by lia. discriminate.
Qed.

Lemma select_scale_quantize : forall c, c = 2148 -> forall row f s x,
  select_scale row = Ok (f, Some s) -> In x row ->
  -32767 <= astype_int (x * s) <= 32767 /\
  Z.abs (astype_int (x * s) * 2 ^ c
         - SFord (Prim2SF x) * SFord (Prim2SF s)) <= 2 ^ c.
Proof.
  intros c Hc row f s x H Hx.
  destruct (select_scale_found _ _ _ H) as (k & m & Hk & Hm & -> & -> & Hle & _).
  pose proof (candidate_scale_admissible k Hk) as Hadm.
  assert (Hax : (abs x <=? max_deviation k)%float = true).
  { pose proof (leb_true_ord _ _ Hle) as (Nm & Nd & Lm).
    destruct (np_max_abs_bound _ _ _ Hm Nm Hx) as [Nx Lx].
    rewrite leb_spec. unfold SFleb.
    rewrite SFcompare_ord by (apply Prim2SF_valid || assumption).
    destruct (Z.compare_spec (SFord (Prim2SF (abs x)))
                (SFord (Prim2SF (max_deviation k)))); try reflexivity.
    exfalso. lia. }
  now apply quantize_spec with (D := max_deviation k).
Qed.
End Selection.
(** * Loops that collect a list *)

Lemma for_each_app : forall (A S : Type) (l1 l2 : list A) body (s : S),
  for_each (l1 ++ l2) body s = (s' <- for_each l1 body s ;; for_each l2 body s').
Proof.
  induction l1 as [|x l1 IH]; intros l2 body s; cbn [for_each app bind].
  - reflexivity.
  - destruct (body x s); cbn [bind]; [apply IH|reflexivity].
Qed.

Lemma for_each_collect_inv : forall (A B C : Type) (f : A -> result B) (g : B -> C)
    (l : list A) (acc r : list C),
  for_each l (fun ch acc => x <- f ch ;; Ok (acc ++ [g x])) acc = Ok r ->
  exists xs, r = acc ++ map g xs /\ Forall2 (fun ch x => f ch = Ok x) l xs.
Proof.
  induction l as [|a l IH]; intros acc r H; cbn [for_each] in H.
  - injection H as <-. exists []. split; [now rewrite app_nil_r|constructor].
  - inv_bind H. inv_bind E. injection E as <-.
    destruct (IH _ _ H) as (xs & -> & F).
    exists (x0 :: xs). split; [now rewrite <- app_assoc|now constructor].
Qed.

Lemma for_each_collect_ok : forall (A B C : Type) (f : A -> result B) (g : B -> C)
    (l : list A) (xs : list B) (acc : list C),
  Forall2 (fun ch x => f ch = Ok x) l xs ->
  for_each l (fun ch acc => x <- f ch ;; Ok (acc ++ [g x])) acc
  = Ok (acc ++ map g xs).
Proof.
  intros A B C f g l xs acc F. revert acc.
  induction F as [|a x l xs Ha F IH]; intros acc; cbn [for_each map].
  - now rewrite app_nil_r.
  - rewrite Ha. cbn [bind]. rewrite IH. now rewrite <- app_assoc.
Qed.

Lemma Forall2_seq_nth : forall (B : Type) (P : nat -> B -> Prop) n s xs d,
  Forall2 P (seq s n) xs ->
  length xs = n /\ forall i, i < n -> P (s + i) (nth i xs d).
Proof.
  induction n as [|n IH]; intros s xs d F; cbn [seq] in F; inversion F; subst.
  - split; [reflexivity|]. intros i Hi. lia.
  - destruct (IH _ _ d H3) as [L Hn]. split; [cbn; lia|].
    intros [|i] Hi; cbn [nth].
    + now rewrite Nat.add_0_r.
    + replace (s + S i) with (S s + i) by lia. apply Hn. lia.
Qed.

Lemma Forall2_seq_intro : forall (B : Type) (P : nat -> B -> Prop) n s xs d,
  length xs = n -> (forall i, i < n -> P (s + i) (nth i xs d)) ->
  Forall2 P (seq s n) xs.
Proof.
  induction n as [|n IH]; intros s xs d L H; cbn [seq].
  - destruct xs; [constructor|discriminate].
  - destruct xs as [|x xs]; [discriminate|]. constructor.
    + specialize (H 0). cbn in H. rewrite Nat.add_0_r in H. apply H. lia.
    + apply IH with d; [cbn in L; lia|].
      intros i Hi. replace (S s + i) with (s + S i) by lia.
      apply (H (S i)). lia.
Qed.

(** * Interleaving *)

Lemma nth_flat_map_const : forall (A : Type) (f : nat -> list A) c n s k i d,
  (forall j, length (f j) = c) -> k < n -> i < c ->
  nth (k * c + i) (flat_map f (seq s n)) d = nth i (f (s + k)) d.
Proof.
  intros A f c. induction n as [|n IH]; intros s k i d Hf Hk Hi; [lia|].
  cbn [seq flat_map]. destruct k as [|k].
  - cbn [Nat.mul Nat.add]. rewrite app_nth1 by (rewrite Hf; lia).
    now rewrite Nat.add_0_r.
  - rewrite app_nth2 by (rewrite Hf; cbn; lia). rewrite Hf.
    replace (S k * c + i - c) with (k * c + i) by (cbn; lia).
    rewrite IH by (assumption || lia). f_equal. f_equal. lia.
Qed.

Lemma length_flat_map_const : forall (A : Type) (f : nat -> list A) c n s,
  (forall j, length (f j) = c) -> length (flat_map f (seq s n)) = n * c.
Proof.
  intros A f c. induction n as [|n IH]; intros s Hf; cbn [seq flat_map].
  - reflexivity.
  - rewrite length_app, Hf, IH by assumption. cbn. lia.
Qed.

Lemma transpose_elems_length : forall s0 rest l,
  length (transpose_elems (s0 :: rest) l) = size_of rest * s0.
Proof.
  intros s0 rest l. cbn [transpose_elems].
  apply length_flat_map_const. intros j. now rewrite !length_map, length_seq.
Qed.

Lemma transpose_elems_rank1 : forall n l, length l = n ->
  transpose_elems [n] l = l.
Proof.
  intros n l L. cbn [transpose_elems size_of fold_right seq flat_map].
  rewrite app_nil_r, map_map.
  apply nth_ext with (d := 0%float) (d' := 0%float).
  - now rewrite length_map, length_seq.
  - intros i Hi. rewrite length_map, length_seq in Hi.
    rewrite (nth_indep _ 0%float (nth 0 (firstn 1 (skipn (0 * 1) l)) 0%float))
      by (rewrite length_map, length_seq; lia).
    rewrite (map_nth (fun x => nth 0 (firstn 1 (skipn (x * 1) l)) 0%float)).
    rewrite seq_nth by lia. cbn [Nat.add].
    rewrite nth_firstn. cbn. rewrite nth_skipn. f_equal. lia.
Qed.

(** The interleaving law on a matrix of [C] rows and [N] columns. *)
Lemma transpose_elems_rank2 : forall C N l ch i,
  ch < C -> i < N ->
  nth (i * C + ch) (transpose_elems [C; N] l) 0%float
  = nth (ch * N + i) l 0%float.
Proof.
  intros C N l ch i Hch Hi.
  change (transpose_elems [C; N] l) with
    (let blk := size_of [N] in
     let subs := map (fun r => transpose_elems [N] (firstn blk (skipn (r * blk) l)))
                     (seq 0 C) in
     flat_map (fun k => map (fun t => nth k t 0%float) subs) (seq 0 blk)).
  cbv zeta. replace (size_of [N]) with N by (cbn; lia).
  rewrite (nth_flat_map_const _ _ C) by
    (try (intros j; now rewrite !length_map, length_seq); lia).
  cbn [Nat.add]. rewrite map_map.
  rewrite (nth_indep _ 0%float
            (nth i (transpose_elems [N] (firstn N (skipn (0 * N) l))) 0%float))
    by (rewrite length_map, length_seq; lia).
  rewrite (map_nth (fun x => nth i (transpose_elems [N] (firstn N (skipn (x * N) l))) 0%float)).
  rewrite seq_nth by lia. cbn [Nat.add].
  cbn [transpose_elems size_of fold_right seq flat_map].
  rewrite app_nil_r, map_map.
  rewrite (nth_indep _ 0%float
            (nth 0 (firstn 1 (skipn (0 * 1) (firstn N (skipn (ch * N) l)))) 0%float))
    by (rewrite length_map, length_seq; lia).
  rewrite (map_nth (fun x => nth 0 (firstn 1 (skipn (x * 1) (firstn N (skipn (ch * N) l)))) 0%float)).
  rewrite seq_nth by lia. cbn [Nat.add].
  rewrite nth_firstn. cbn [Nat.ltb Nat.leb]. rewrite nth_skipn.
  rewrite nth_firstn. replace (i * 1 + 0 <? N) with true
    by (symmetry; apply Nat.ltb_lt; lia).
  rewrite nth_skipn. f_equal. lia.
Qed.
(** * Tiling and element-wise products *)

Lemma np_tile_length : forall l r, length (np_tile l r) = r * length l.
Proof.
  intros l r. unfold np_tile. induction r as [|r IH]; cbn [repeat concat].
  - reflexivity.
  - rewrite length_app, IH. cbn. lia.
Qed.

Lemma np_tile_nth : forall l r i ch d,
  i < r -> ch < length l ->
  nth (i * length l + ch) (np_tile l r) d = nth ch l d.
Proof.
  intros l r. unfold np_tile. induction r as [|r IH]; intros i ch d Hi Hch; [lia|].
  cbn [repeat concat]. destruct i as [|i].
  - cbn [Nat.mul Nat.add]. now rewrite app_nth1.
  - rewrite app_nth2 by (cbn; lia).
    replace (S i * length l + ch - length l) with (i * length l + ch) by (cbn; lia).
    apply IH; lia.
Qed.

Lemma zip_mul_length : forall a b, length a = length b ->
  length (zip_mul a b) = length a.
Proof.
  induction a as [|x a IH]; intros [|y b] L; cbn in *; try lia.
  rewrite IH; lia.
Qed.

Lemma zip_mul_nth : forall a b p, p < length a -> p < length b ->
  nth p (zip_mul a b) 0%float = (nth p a 0 * nth p b 0)%float.
Proof.
  induction a as [|x a IH]; intros [|y b] p Ha Hb; cbn in *; try lia.
  destruct p as [|p]; [reflexivity|]. apply IH; lia.
Qed.

(** * Packing a sequence of 16-bit integers *)

Lemma pack_h_ok : forall v, (-32768 <= v <= 32767)%Z ->
  pack_h v = Ok [(v mod 256)%Z; ((v / 256) mod 256)%Z].
Proof.
  intros v H. unfold pack_h.
  replace ((-32768 <=? v) && (v <=? 32767))%Z with true; [reflexivity|].
  symmetry. apply andb_true_iff. split; apply Z.leb_le; lia.
Qed.

Lemma pack_h_inv : forall v bs, pack_h v = Ok bs ->
  (-32768 <= v <= 32767)%Z /\ bs = [(v mod 256)%Z; ((v / 256) mod 256)%Z].
Proof.
  unfold pack_h. intros v bs H.
  destruct ((-32768 <=? v) && (v <=? 32767))%Z eqn:E; [|discriminate].
  apply andb_true_iff in E. destruct E as [E1 E2].
  apply Z.leb_le in E1. apply Z.leb_le in E2.
  injection H as <-. split; [lia|reflexivity].
Qed.

Lemma pack_hs_ok : forall vs,
  (forall v, In v vs -> (-32768 <= v <= 32767)%Z) ->
  exists bs, pack_hs vs = Ok bs.
Proof.
  induction vs as [|v vs IH]; intros H; cbn [pack_hs].
  - now exists [].
  - rewrite pack_h_ok by (apply H; now left). cbn [bind].
    destruct IH as (bs & ->); [intros; apply H; now right|].
    cbn [bind]. eauto.
Qed.

Lemma pack_hs_nth : forall vs bs p,
  pack_hs vs = Ok bs -> p < length vs ->
  (-32768 <= nth p vs 0 <= 32767)%Z /\
  nth (2 * p) bs 0%Z = (nth p vs 0 mod 256)%Z /\
  nth (2 * p + 1) bs 0%Z = ((nth p vs 0 / 256) mod 256)%Z.
Proof.
  induction vs as [|v vs IH]; intros bs p H Hp; cbn [pack_hs length] in *; [lia|].
  inv_bind H. inv_bind H. injection H as <-.
  apply pack_h_inv in E. destruct E as [Hv ->].
  destruct p as [|p].
  - cbn. repeat split; lia.
  - destruct (IH _ p E0) as (R & N0 & N1); [lia|].
    replace (2 * S p) with (S (S (2 * p))) by lia.
    cbn [app nth Nat.add]. repeat split; first [assumption | lia].
Qed.

(** Reading back a packed 16-bit integer. *)
Lemma int16_roundtrip : forall v, (-32768 <= v <= 32767)%Z ->
  (let u := v mod 256 + 256 * ((v / 256) mod 256) in
   if u <? 32768 then u else u - 65536)%Z = v.
Proof.
  intros v H. cbv zeta.
  assert (E : (v mod 256 + 256 * ((v / 256) mod 256) = v mod 65536)%Z).
  { change 65536%Z with (256 * 256)%Z.
    rewrite Z.rem_mul_r by lia. reflexivity. }
  rewrite E.
  destruct (Z_lt_le_dec v 0) as [N|P].
  - assert (v mod 65536 = v + 65536)%Z.
    { symmetry. apply Z.mod_unique with (-1)%Z; lia. }
    destruct (Z.ltb_spec (v mod 65536) 32768); lia.
  - rewrite Z.mod_small by lia.
    destruct (Z.ltb_spec v 32768); lia.
Qed.
(** * Success of the header blocks *)

Lemma for_each_ok : forall (A S : Type) (I : S -> Prop) (l : list A) body (s : S),
  (forall x s, In x l -> I s -> exists s', body x s = Ok s' /\ I s') ->
  I s -> exists s', for_each l body s = Ok s' /\ I s'.
Proof.
  induction l as [|x l IH]; intros body s Hb Hs; cbn [for_each].
  - eauto.
  - destruct (Hb x s) as (s1 & -> & H1); [now left|assumption|]. cbn [bind].
    apply IH; [|assumption]. intros y t Hy Ht. apply Hb; [now right|assumption].
Qed.

Lemma pack_into_succeeds : forall size enc buf off bs n,
  enc = Ok bs -> length bs = size -> length buf = n -> off + size <= n ->
  exists buf', pack_into size enc buf off = Ok buf' /\ length buf' = n.
Proof.
  intros size enc buf off bs n E Lb L H.
  exists (splice buf off bs). split.
  - apply pack_into_ok; [assumption|lia].
  - rewrite splice_length; lia.
Qed.

Lemma pack_into_h_succeeds : forall buf off v n,
  (-32768 <= v <= 32767)%Z -> length buf = n -> off + 2 <= n ->
  exists buf', pack_into_h buf off v = Ok buf' /\ length buf' = n.
Proof.
  intros buf off v n Hv L H. unfold pack_into_h.
  eapply pack_into_succeeds; eauto using pack_h_ok.
Qed.

Lemma pack_into_i_succeeds : forall buf off v n,
  (-2147483648 <= v <= 2147483647)%Z -> length buf = n -> off + 4 <= n ->
  exists buf', pack_into_i buf off v = Ok buf' /\ length buf' = n.
Proof.
  intros buf off v n Hv L H. unfold pack_into_i.
  eapply pack_into_succeeds with (bs := le_bytes 4 v); eauto.
  unfold pack_i.
  replace ((-2147483648 <=? v) && (v <=? 2147483647))%Z with true; [reflexivity|].
  symmetry. apply andb_true_iff. split; apply Z.leb_le; lia.
Qed.

Lemma pack_into_f_succeeds : forall buf off x bs n,
  pack_f x = Ok bs -> length buf = n -> off + 4 <= n ->
  exists buf', pack_into_f buf off x = Ok buf' /\ length buf' = n.
Proof.
  intros buf off x bs n E L H. unfold pack_into_f.
  eapply pack_into_succeeds; eauto using pack_f_length.
Qed.

Lemma pack_into_s_succeeds : forall k buf off bs n,
  length buf = n -> off + k <= n ->
  exists buf', pack_into_s k buf off bs = Ok buf' /\ length buf' = n.
Proof.
  intros k buf off bs n L H. unfold pack_into_s.
  eapply pack_into_succeeds with (bs := firstn k (bs ++ repeat 0%Z k));
    [reflexivity | eapply pack_s_length; reflexivity | assumption | lia].
Qed.

Ltac pack_step n :=
  match goal with
  | |- exists r, bind (pack_into_h ?b ?o ?v) _ = Ok r /\ _ =>
      let b' := fresh "b" in let E := fresh "E" in let L := fresh "L" in
      destruct (pack_into_h_succeeds b o v n) as (b' & E & L);
      [lia | assumption | lia | rewrite E; cbn [bind]]
  | |- exists r, bind (pack_into_i ?b ?o ?v) _ = Ok r /\ _ =>
      let b' := fresh "b" in let E := fresh "E" in let L := fresh "L" in
      destruct (pack_into_i_succeeds b o v n) as (b' & E & L);
      [lia | assumption | lia | rewrite E; cbn [bind]]
  | |- exists r, bind (pack_into_s ?k ?b ?o ?v) _ = Ok r /\ _ =>
      let b' := fresh "b" in let E := fresh "E" in let L := fresh "L" in
      destruct (pack_into_s_succeeds k b o v n) as (b' & E & L);
      [assumption | lia | rewrite E; cbn [bind]]
  end.

Lemma populate_header_ok : forall data dataPointCount sampleRateHz channelCount n q i bs,
  length data = n -> 2048 <= n ->
  (Z.of_nat dataPointCount <= 2147483647)%Z -> channelCount <= 16 ->
  py_truediv 1000000%float sampleRateHz = Ok q ->
  py_truediv q (float_of_nat channelCount) = Ok i ->
  pack_f i = Ok bs ->
  exists data',
    populate_header data dataPointCount sampleRateHz channelCount = Ok data' /\
    length data' = n.
Proof.
  intros data dpc rate C n q i bs L Hn Hd HC Hq Hi Hbs.
  unfold populate_header, HEADER_BLOCKS.
  pack_step n.
  destruct (pack_into_f_succeeds b 4 0x1.4cccccccccccdp+0%float
              [102; 102; 166; 63]%Z n) as (b0 & E0 & L1);
    [vm_compute; reflexivity | assumption | lia |]. rewrite E0. cbn [bind].
  do 5 pack_step n.
  rewrite Hq. cbn [bind]. rewrite Hi. cbn [bind].
  destruct (pack_into_f_succeeds b5 122 i bs n) as (b6 & E6 & L7);
    [assumption | assumption | lia |]. rewrite E6. cbn [bind].
  do 2 pack_step n.
  apply (for_each_ok _ _ (fun s => length s = n)); [|assumption].
  intros ch s Hch Hs. unfold range, MAX_NUM_CH in Hch. apply in_seq in Hch.
  destruct (_ <=? _)%Z; do 1 pack_step n;
    apply pack_into_h_succeeds; (assumption || lia).
Qed.
Lemma py_index_ok : forall (A : Type) (l : list A) i d,
  i < length l -> py_index l i = Ok (nth i l d).
Proof.
  intros A l i d H. unfold py_index.
  rewrite (nth_error_nth' l d H). reflexivity.
Qed.

Lemma py_index_raises : forall (A : Type) (l : list A) i,
  length l <= i -> py_index l i = Raise IndexError.
Proof.
  intros A l i H. unfold py_index.
  apply nth_error_None in H. now rewrite H.
Qed.

Lemma py_getitem_ok : forall (A : Type) (l : list A) i d,
  (0 <= i < Z.of_nat (length l))%Z ->
  py_getitem l i = Ok (nth (Z.to_nat i) l d).
Proof.
  intros A l i d H. unfold py_getitem.
  destruct (Z.ltb_spec i 0); [lia|].
  destruct (Z.ltb_spec i 0); [lia|].
  apply py_index_ok. lia.
Qed.

Lemma py_getitem_nat : forall (A : Type) (l : list A) (i : nat),
  py_getitem l (Z.of_nat i) = py_index l i.
Proof.
  intros A l i. unfold py_getitem.
  destruct (Z.ltb_spec (Z.of_nat i) 0); [lia|].
  destruct (Z.ltb_spec (Z.of_nat i) 0); [lia|].
  now rewrite Nat2Z.id.
Qed.

Lemma instrument_factor_packable : forall k, 1 <= k <= 10 ->
  exists bs, pack_f (instrument_factor k) = Ok bs.
Proof.
  intros k [L U].
  do 11 (destruct k as [|k]; [try lia; try (eexists; vm_compute; reflexivity)|]).
  lia.
Qed.

Lemma store_scale_data_ok : forall data f unitString channelCount n bs,
  length data = n -> 2048 <= n ->
  pack_f f = Ok bs ->
  length unitString = channelCount -> 1 <= channelCount ->
  exists data',
    store_scale_data data (Some f) unitString channelCount = Ok data' /\
    length data' = n.
Proof.
  intros data f us C n bs L Hn Hf Hus HC.
  unfold store_scale_data.
  pack_step n.
  destruct (pack_into_f_succeeds b 244 fADCRange [0; 0; 32; 65]%Z n)
    as (b0 & E0 & L1); [vm_compute; reflexivity | assumption | lia |].
  rewrite E0. cbn [bind].
  apply (for_each_ok _ _ (fun s => length s = n)); [|assumption].
  intros ch s Hch Hs. unfold range, MAX_NUM_CH in Hch. apply in_seq in Hch.
  cbn [bind].
  destruct (pack_into_f_succeeds s (922 + ch * 4) f bs n) as (s1 & E1 & L2);
    [assumption | assumption | lia |]. rewrite E1. cbn [bind].
  destruct (pack_into_f_succeeds s1 (1050 + ch * 4) 1%float [0; 0; 128; 63]%Z n)
    as (s2 & E2 & L3); [vm_compute; reflexivity | assumption | lia |].
  rewrite E2. cbn [bind].
  destruct (pack_into_f_succeeds s2 (730 + ch * 4) 1%float [0; 0; 128; 63]%Z n)
    as (s3 & E3 & L4); [vm_compute; reflexivity | assumption | lia |].
  rewrite E3. cbn [bind].
  rewrite (py_getitem_ok _ us _ String.EmptyString) by lia. cbn [bind].
  apply pack_into_s_succeeds; (assumption || lia).
Qed.

(** * The scale loop *)

Lemma last_cons : forall (A : Type) (l : list A) x d, last (x :: l) d = last l x.
Proof.
  induction l as [|y l IH]; intros x d; [reflexivity|].
  change (last (x :: y :: l) d) with (last (y :: l) d).
  now rewrite !IH.
Qed.

Lemma scale_loop_body_ok : forall maxVal l rs (st : scale_state),
  Forall2 (fun ch r => exists m, py_index maxVal ch = Ok m /\
                                 scale_search 10 1%float m = Ok r) l rs ->
  for_each l
    (fun ch (st : scale_state) =>
       m <- py_index maxVal ch ;;
       r <- scale_search 10 1%float m ;;
       Ok (match snd r with
           | Some valueScaleI => fst st ++ [valueScaleI]
           | None => fst st
           end, Some (fst r)))
    st
  = Ok (fst st ++ flat_map appended rs,
        last (map (fun r => Some (fst r)) rs) (snd st)).
Proof.
  intros maxVal l rs st F. revert st.
  induction F as [|ch r l rs (m & Hm & Hr) F IH]; intros st; cbn [for_each].
  - cbn. rewrite app_nil_r. now destruct st.
  - rewrite Hm. cbn [bind]. rewrite Hr. cbn [bind]. rewrite IH.
    cbn [fst snd flat_map map]. rewrite last_cons.
    unfold appended at 2. destruct (snd r); cbn [app];
      rewrite <- ?app_assoc; reflexivity.
Qed.

Lemma scale_loop_body_inv : forall maxVal l (st st' : scale_state),
  for_each l
    (fun ch (st : scale_state) =>
       m <- py_index maxVal ch ;;
       r <- scale_search 10 1%float m ;;
       Ok (match snd r with
           | Some valueScaleI => fst st ++ [valueScaleI]
           | None => fst st
           end, Some (fst r)))
    st
  = Ok st' ->
  exists rs,
    Forall2 (fun ch r => exists m, py_index maxVal ch = Ok m /\
                                   scale_search 10 1%float m = Ok r) l rs.
Proof.
  intros maxVal. induction l as [|ch l IH]; intros st st' H; cbn [for_each] in H.
  - exists []. constructor.
  - inv_bind H. inv_bind E. inv_bind E. injection E as <-.
    destruct (IH _ _ H) as (rs & F).
    exists (x1 :: rs). constructor; [eauto|assumption].
Qed.
(** * Encoding a valid matrix *)

Lemma Forall2_seq_exists : forall (B : Type) (P : nat -> B -> Prop) n s,
  (forall i, i < n -> exists x, P (s + i) x) ->
  exists xs, Forall2 P (seq s n) xs.
Proof.
  induction n as [|n IH]; intros s H; cbn [seq].
  - exists []. constructor.
  - destruct (H 0) as (x & Hx); [lia|]. rewrite Nat.add_0_r in Hx.
    destruct (IH (S s)) as (xs & Hxs).
    + intros i Hi. replace (S s + i) with (s + S i) by lia. apply H. lia.
    + exists (x :: xs). now constructor.
Qed.

Lemma flat_map_appended_found : forall (Q : nat -> float -> Prop) n s rs d,
  Forall2 (fun ch r => exists v, snd r = Some v /\ Q ch v) (seq s n) rs ->
  length (flat_map appended rs) = n /\
  forall i, i < n -> Q (s + i) (nth i (flat_map appended rs) d).
Proof.
  induction n as [|n IH]; intros s rs d F; cbn [seq] in F; inversion F; subst.
  - split; [reflexivity|]. intros i Hi. lia.
  - destruct H1 as (v & Hv & HQ).
    destruct (IH _ _ d H3) as [L Hn].
    cbn [flat_map]. unfold appended at 1. unfold appended at 2. rewrite Hv.
    cbn [app length]. split; [lia|].
    intros [|i] Hi; cbn [nth].
    + now rewrite Nat.add_0_r.
    + replace (s + S i) with (S s + i) by lia. apply Hn. lia.
Qed.

Lemma last_map_nonempty : forall (A B : Type) (h : A -> B) (l : list A) d d',
  l <> [] -> last (map h l) d = h (last l d').
Proof.
  induction l as [|x l IH]; intros d d' H; [congruence|].
  destruct l as [|y l]; [reflexivity|].
  change (last (map h (x :: y :: l)) d) with (last (map h (y :: l)) d).
  change (last (x :: y :: l) d') with (last (y :: l) d').
  apply IH. discriminate.
Qed.

Section ValidMatrix.
Variables (C N : nat) (el : list float).
Hypothesis HC : 1 <= C.
Hypothesis HN : 1 <= N.
Hypothesis Hrep : forall ch, ch < C ->
  representable (firstn N (skipn (ch * N) el)).

Let a' : ndarray := {| shape := [C; N]; elems := el |}.
Let row (ch : nat) : list float := firstn N (skipn (ch * N) el).

Lemma subarray_row : forall ch, subarray a' ch = row ch.
Proof.
  intros ch. unfold subarray, a', row. cbn [shape elems tl size_of fold_right].
  now rewrite Nat.mul_1_r.
Qed.

Lemma peak_deviation_valid : exists maxVal,
  peak_deviation a' C = Ok maxVal /\ length maxVal = C /\
  forall ch, ch < C ->
    np_max (np_abs (row ch)) = Ok (nth ch maxVal 0%float) /\
    (nth ch maxVal 0 <=? max_deviation 10)%float = true.
Proof.
  destruct (Forall2_seq_exists _
              (fun ch m => np_max (np_abs (row ch)) = Ok m /\
                           (m <=? max_deviation 10)%float = true) C 0)
    as (maxVal & F).
  { intros ch Hch. cbn [Nat.add]. destruct (Hrep ch Hch) as (m & Hm & Hle). eauto. }
  exists maxVal.
  destruct (Forall2_seq_nth _ _ _ _ _ 0%float F) as [L Hn].
  split; [|split; [assumption|intros ch Hch; exact (Hn ch Hch)]].
  unfold peak_deviation, range.
  rewrite (for_each_collect_ok _ _ _
             (fun ch => np_max (np_abs (subarray a' ch))) (fun m => m)
             (seq 0 C) maxVal []).
  - cbn [app]. now rewrite map_id.
  - eapply Forall2_impl; [|exact F]. intros ch m [Hm _].
    now rewrite subarray_row.
Qed.

(** The scale loop finds a scale for every channel; the variable
    [fInstrumentScaleFactor] is left at the factor of the last channel. *)
Lemma scale_loop_valid : forall maxVal,
  length maxVal = C ->
  (forall ch, ch < C ->
     np_max (np_abs (row ch)) = Ok (nth ch maxVal 0%float) /\
     (nth ch maxVal 0 <=? max_deviation 10)%float = true) ->
  exists valueScale f,
    scale_loop maxVal C = Ok (valueScale, Some f) /\
    length valueScale = C /\
    (forall ch, ch < C -> exists fch,
       select_scale (row ch) = Ok (fch, Some (nth ch valueScale 0%float))) /\
    (exists flast, select_scale (row (C - 1)) = Ok (f, flast)) /\
    (exists k, 1 <= k <= 10 /\ f = instrument_factor k).
Proof.
  intros maxVal L Hm.
  destruct (Forall2_seq_exists _
              (fun ch r => (exists m, py_index maxVal ch = Ok m /\
                                      scale_search 10 1%float m = Ok r) /\
                           (exists v, snd r = Some v /\
                              select_scale (row ch) = Ok (fst r, Some v))) C 0)
    as (rs & F).
  { intros ch Hch. cbn [Nat.add]. destruct (Hm ch Hch) as [Hmax Hle].
    destruct (representable_found (row ch)) as (f & s & Hs).
    { exists (nth ch maxVal 0%float). now split. }
    exists (f, Some s). split.
    - exists (nth ch maxVal 0%float). split; [apply py_index_ok; lia|].
      unfold select_scale in Hs. rewrite Hmax in Hs. exact Hs.
    - exists s. now split. }
  assert (F1 : Forall2 (fun ch r => exists m, py_index maxVal ch = Ok m /\
                                     scale_search 10 1%float m = Ok r) (seq 0 C) rs).
  { eapply Forall2_impl; [|exact F]. intros ch r [H _]. exact H. }
  assert (F2 : Forall2 (fun ch r => exists v, snd r = Some v /\
                 select_scale (row ch) = Ok (fst r, Some v)) (seq 0 C) rs).
  { eapply Forall2_impl; [|exact F]. intros ch r [_ H]. exact H. }
  destruct (flat_map_appended_found
              (fun ch v => exists fch, select_scale (row ch) = Ok (fch, Some v))
              C 0 rs 0%float) as [Lv Hv].
  { eapply Forall2_impl; [|exact F2]. intros ch r (v & Hs & Hsel). eauto. }
  destruct (Forall2_seq_nth _ _ _ _ _ (1%float, None) F2) as [Lr Hr].
  assert (Hne : rs <> []) by (intros ->; cbn in Lr; lia).
  exists (flat_map appended rs), (fst (last rs (1%float, None))).
  split; [|split; [assumption|split; [exact Hv|]]].
  - unfold scale_loop, range. rewrite (scale_loop_body_ok _ _ _ _ F1).
    cbn [fst snd app]. f_equal. f_equal.
    now apply (last_map_nonempty _ _ (fun r : float * option float => Some (fst r))).
  - assert (Hlast : last rs (1%float, None) = nth (C - 1) rs (1%float, None)).
    { rewrite <- Lr. clear - Hne. induction rs as [|x l IH]; [congruence|].
      destruct l as [|y l]; [reflexivity|].
      change (last (x :: y :: l) (1%float, None)) with (last (y :: l) (1%float, None)).
      rewrite IH by discriminate. cbn [length]. 
      replace (S (S (length l)) - 1) with (S (S (length l) - 1)) by lia.
      reflexivity. }
    rewrite Hlast.
    destruct (Hr (C - 1)) as (v & Hsv & Hsel); [lia|]. cbn [Nat.add] in Hsel.
    split; [eauto|].
    destruct (select_scale_found _ _ _ Hsel) as (k & m & Hk & _ & Hf & _).
    eauto.
Qed.
End ValidMatrix.
(** * Unit strings *)

Lemma unit_strings_ok : forall units channelCount,
  channelCount <= length units ->
  unit_strings units channelCount = Ok (map pad_unit (firstn channelCount units)).
Proof.
  intros units C H. unfold unit_strings, range.
  rewrite (for_each_collect_ok _ _ _
             (fun ch => py_getitem units (Z.of_nat ch)) pad_unit
             (seq 0 C) (firstn C units) []); [reflexivity|].
  apply Forall2_seq_intro with (d := String.EmptyString).
  - rewrite firstn_length_le; lia.
  - intros i Hi. cbn [Nat.add]. rewrite py_getitem_nat.
    rewrite (py_index_ok _ units i String.EmptyString) by lia.
    f_equal. rewrite nth_firstn.
    replace (i <? C) with true by (symmetry; apply Nat.ltb_lt; lia). reflexivity.
Qed.

Lemma unit_strings_raises : forall units channelCount,
  length units < channelCount ->
  unit_strings units channelCount = Raise IndexError.
Proof.
  intros units C H. unfold unit_strings, range.
  replace C with (length units + S (C - length units - 1)) by lia.
  rewrite seq_app, for_each_app.
  rewrite (for_each_collect_ok _ _ _
             (fun ch => py_getitem units (Z.of_nat ch)) pad_unit
             (seq 0 (length units)) units []).
  - cbn [bind seq for_each Nat.add]. rewrite py_getitem_nat.
    rewrite py_index_raises by lia. reflexivity.
  - apply Forall2_seq_intro with (d := String.EmptyString); [reflexivity|].
    intros i Hi. cbn [Nat.add]. rewrite py_getitem_nat.
    now apply py_index_ok.
Qed.

(** * The samples of a valid matrix *)

Lemma scaled_nth : forall C N el vs ch i,
  length vs = C -> ch < C -> i < N ->
  nth (i * C + ch) (zip_mul (transpose_elems [C; N] el) (np_tile vs N)) 0%float
  = (nth (ch * N + i) el 0 * nth ch vs 0)%float.
Proof.
  intros C N el vs ch i L Hch Hi.
  assert (Hp : i * C + ch < N * C).
  { assert (H : S i * C <= N * C) by (apply Nat.mul_le_mono_r; lia). cbn in H. lia. }
  rewrite zip_mul_nth.
  - rewrite transpose_elems_rank2 by assumption.
    rewrite <- L at 1. rewrite np_tile_nth by lia. reflexivity.
  - rewrite transpose_elems_length. cbn [size_of fold_right]. lia.
  - rewrite np_tile_length, L. lia.
Qed.

Lemma row_nth : forall C N (el : list float) ch i,
  length el = C * N -> ch < C -> i < N ->
  In (nth (ch * N + i) el 0%float) (firstn N (skipn (ch * N) el)).
Proof.
  intros C N el ch i L Hch Hi.
  assert (Hb : ch * N + N <= C * N).
  { assert (S ch * N <= C * N) by (apply Nat.mul_le_mono_r; lia). cbn in H. lia. }
  replace (nth (ch * N + i) el 0%float)
    with (nth i (firstn N (skipn (ch * N) el)) 0%float).
  - apply nth_In. rewrite firstn_length_le; [assumption|].
    rewrite length_skipn. lia.
  - rewrite nth_firstn.
    replace (i <? N) with true by (symmetry; apply Nat.ltb_lt; lia).
    now rewrite nth_skipn.
Qed.

Lemma data_fits : forall dpc, 2048 + 2 * dpc <= (dpc * 2 / 512 + 1 + 4) * 512.
Proof.
  intros dpc. pose proof (Nat.div_mod (dpc * 2) 512).
  pose proof (Nat.mod_upper_bound (dpc * 2) 512). lia.
Qed.

Lemma encode_matrix : forall C N el sampleRateHz units q i0 bs0,
  1 <= C <= 16 -> 1 <= N -> length el = C * N ->
  (Z.of_nat (N * C) <= 2147483647)%Z ->
  py_truediv 1000000%float sampleRateHz = Ok q ->
  py_truediv q (float_of_nat C) = Ok i0 ->
  pack_f i0 = Ok bs0 ->
  C <= length units ->
  (forall ch, ch < C -> representable (firstn N (skipn (ch * N) el))) ->
  let n := (N * C * 2 / 512 + 1 + 4) * 512 in
  exists data ints bs,
    writeABF_channels {| shape := [C; N]; elems := el |} sampleRateHz units
    = Ok (splice data 2048 bs) /\
    length data = n /\
    agree_outside in_header_field (bytearray_zeros n) data /\
    pack_hs ints = Ok bs /\ length ints = N * C /\
    forall ch i, ch < C -> i < N ->
      exists f s,
        select_scale (firstn N (skipn (ch * N) el)) = Ok (f, Some s) /\
        nth (i * C + ch) ints 0%Z = astype_int (nth (ch * N + i) el 0 * s)%float.
Proof.
  intros C N el rate units q i0 bs0 HC HN Lel Hdpc Hq Hi0 Hbs0 Hu Hrep n.
  unfold writeABF_channels. cbn [shape elems nth].
  unfold BLOCKSIZE, HEADER_BLOCKS. fold n.
  assert (Hn : 2048 + 2 * (N * C) <= n) by apply data_fits.
  destruct (populate_header_ok (bytearray_zeros n) (N * C) rate C n q i0 bs0)
    as (data1 & E1 & L1);
    try assumption; try lia; [apply repeat_length|].
  assert (A1 := populate_header_agree _ _ _ _ _ E1).
  rewrite E1. cbn [bind].
  destruct (peak_deviation_valid C N el) as (maxVal & Ep & Lm & Hm);
    [assumption|].
  rewrite Ep. cbn [bind].
  destruct (scale_loop_valid C N el) with (maxVal := maxVal)
    as (valueScale & f & Es & Lv & Hv & _ & (k & Hk & Hf)); try assumption; try lia.
  rewrite Es. cbn [bind fst snd].
  rewrite unit_strings_ok by assumption. cbn [bind].
  destruct (instrument_factor_packable k Hk) as (bsf & Hbsf). rewrite <- Hf in Hbsf.
  destruct (store_scale_data_ok data1 f (map pad_unit (firstn C units)) C n bsf)
    as (data2 & E2 & L2); try assumption; try lia.
  { rewrite length_map, firstn_length_le; lia. }
  assert (A2 := store_scale_data_agree _ _ _ _ _ E2).
  rewrite E2. cbn [bind].
  unfold interleave_signals, reshape_row. cbn [shape elems].
  rewrite transpose_elems_length. cbn [size_of fold_right].
  replace (N * 1 * C =? N * C) with true by (symmetry; apply Nat.eqb_eq; lia).
  cbn [bind]. unfold scale_signals. rewrite Lv.
  replace (C =? 0) with false by (symmetry; apply Nat.eqb_neq; lia).
  cbn [bind]. rewrite Nat.div_mul by lia.
  unfold np_multiply.
  rewrite transpose_elems_length, np_tile_length, Lv. cbn [size_of fold_right].
  replace (N * 1 * C =? N * C) with true by (symmetry; apply Nat.eqb_eq; lia).
  cbn [bind].
  set (scaled := zip_mul (transpose_elems [C; N] el) (np_tile valueScale N)).
  assert (Ls : length scaled = N * C).
  { unfold scaled. rewrite zip_mul_length.
    - rewrite transpose_elems_length. cbn [size_of fold_right]. lia.
    - rewrite transpose_elems_length, np_tile_length, Lv. cbn [size_of fold_right]. lia. }
  assert (Hnth : forall ch i, ch < C -> i < N ->
            exists f s, select_scale (firstn N (skipn (ch * N) el)) = Ok (f, Some s) /\
              nth (i * C + ch) (map astype_int scaled) 0%Z
              = astype_int (nth (ch * N + i) el 0 * s)%float).
  { intros ch i Hch Hi. destruct (Hv ch Hch) as (fch & Hsel).
    exists fch, (nth ch valueScale 0%float). split; [exact Hsel|].
    change 0%Z with (astype_int 0%float). rewrite map_nth.
    unfold scaled. now rewrite scaled_nth. }
  destruct (pack_hs_ok (map astype_int scaled)) as (bs & Hbs).
  { intros v Hin. apply (In_nth _ _ 0%Z) in Hin. destruct Hin as (p & Hp & <-).
    rewrite length_map, Ls in Hp.
    assert (HCpos : C <> 0) by lia.
    pose proof (Nat.div_mod p C HCpos) as Hdm.
    pose proof (Nat.mod_upper_bound p C HCpos) as Hmod.
    assert (Hdiv : p / C < N) by (apply Nat.Div0.div_lt_upper_bound; lia).
    destruct (Hnth (p mod C) (p / C) Hmod Hdiv) as (f' & s & Hsel & Heq).
    replace (p / C * C + p mod C) with p in Heq by lia.
    rewrite Heq.
    destruct (select_scale_quantize 2148 eq_refl _ _ _
                (nth (p mod C * N + p / C) el 0%float) Hsel) as [Hr _].
    { now apply row_nth with (C := C). }
    lia. }
  exists data2, (map astype_int scaled), bs.
  split; [|split; [assumption|split; [|split; [assumption|split]]]].
  - unfold pack_into_hs. apply pack_into_ok; [assumption|].
    rewrite length_map, Ls. lia.
  - eapply agree_trans; eassumption.
  - now rewrite length_map.
  - exact Hnth.
Qed.
(** * The encoder on valid inputs *)

Lemma as_channels_matrix : forall a,
  length (shape a) = 1 \/ length (shape a) = 2 ->
  as_channels a
  = Ok {| shape := [channelCount_of a; channelPointCount_of a];
          elems := elems a |}.
Proof.
  intros [sh el] H. unfold as_channels, channelCount_of, channelPointCount_of.
  cbn [shape elems] in *.
  destruct sh as [|c [|n [|x sh]]]; cbn in H; try lia; reflexivity.
Qed.

Lemma matrix_length : forall a,
  wf_ndarray a -> length (shape a) = 1 \/ length (shape a) = 2 ->
  length (elems a) = channelCount_of a * channelPointCount_of a.
Proof.
  intros [sh el] W H. unfold wf_ndarray, channelCount_of, channelPointCount_of in *.
  cbn [shape elems] in *.
  destruct sh as [|c [|n [|x sh]]]; cbn in H; try lia;
    cbn [size_of fold_right] in W; lia.
Qed.

(** The whole pipeline on a valid input. *)
Lemma encode_valid : forall a sampleRateHz units,
  valid_input a sampleRateHz units ->
  let C := channelCount_of a in
  let N := channelPointCount_of a in
  let n := (N * C * 2 / 512 + 1 + 4) * 512 in
  exists data ints bs,
    writeABF_data a sampleRateHz units = Ok (splice data 2048 bs) /\
    length data = n /\
    agree_outside in_header_field (bytearray_zeros n) data /\
    pack_hs ints = Ok bs /\ length ints = N * C /\
    forall ch i, ch < C -> i < N ->
      exists f s,
        select_scale (channel a ch) = Ok (f, Some s) /\
        In (sample a ch i) (channel a ch) /\
        nth (i * C + ch) ints 0%Z = astype_int (sample a ch i * s).
Proof.
  intros a rate units ((W & R & HC & HN & Hd & (q & i0 & bs0 & Hq & Hi0 & Hb)) & Hu & Hrep).
  cbv zeta.
  pose proof (matrix_length a W R) as Lel.
  destruct (encode_matrix (channelCount_of a) (channelPointCount_of a) (elems a)
              rate units q i0 bs0) as (data & ints & bs & E & L & A & P & Li & Hn);
    try assumption.
  exists data, ints, bs.
  unfold writeABF_data. rewrite (as_channels_matrix a R). cbn [bind].
  repeat (split; [assumption|]).
  intros ch i Hch Hi. destruct (Hn ch i Hch Hi) as (f & s & Hs & Hv).
  exists f, s. split; [exact Hs|]. split; [|exact Hv].
  unfold sample, channel. now apply row_nth with (C := channelCount_of a).
Qed.

(** On success the buffer is what [open(filename, 'wb')] and [f.write]
    store. *)
Lemma writeABF_stores : forall a filename sampleRateHz units fs out,
  writeABF_data a sampleRateHz units = Ok out ->
  fs_writable fs filename = true ->
  writeABF a filename sampleRateHz units fs = (fs_store fs filename out, Ok tt)
  /\ fs_files (fs_store fs filename out) filename = Some out.
Proof.
  intros a name rate units fs out E Hw. unfold writeABF, write_file.
  rewrite E, Hw. split; [reflexivity|].
  cbn [fs_store fs_files]. now rewrite String.eqb_refl.
Qed.

Lemma writeABF_fails : forall a filename sampleRateHz units fs e,
  writeABF_data a sampleRateHz units = Raise e ->
  writeABF a filename sampleRateHz units fs = (fs, Raise e).
Proof. intros a name rate units fs e E. unfold writeABF. now rewrite E. Qed.

Lemma stored_int16 : forall data bs ints p,
  2048 + length bs <= length data ->
  pack_hs ints = Ok bs -> p < length ints ->
  int16_at (splice data 2048 bs) (2048 + p * 2) = nth p ints 0%Z.
Proof.
  intros data bs ints p Hfit Hp Hlt.
  pose proof (pack_hs_length _ _ Hp) as Lb.
  destruct (pack_hs_nth _ _ _ Hp Hlt) as (R & B0 & B1).
  unfold int16_at.
  replace (2048 + p * 2 + 1) with (2048 + (2 * p + 1)) by lia.
  replace (2048 + p * 2) with (2048 + 2 * p) by lia.
  rewrite !splice_nth_inside by lia.
  rewrite B0, B1. now apply int16_roundtrip.
Qed.

(** For a valid input the sample [i] of channel [ch], scaled by the
    channel's scale and truncated, is the 16-bit integer at
    [2048 + (i * channelCount + ch) * 2] of the output. *)
Lemma stored_samples : forall a sampleRateHz units,
  valid_input a sampleRateHz units ->
  exists out,
    writeABF_data a sampleRateHz units = Ok out /\
    forall ch i, ch < channelCount_of a -> i < channelPointCount_of a ->
      exists f s,
        select_scale (channel a ch) = Ok (f, Some s) /\
        In (sample a ch i) (channel a ch) /\
        int16_at out (2048 + (i * channelCount_of a + ch) * 2)
        = astype_int (sample a ch i * s).
Proof.
  intros a rate units V.
  destruct (encode_valid a rate units V)
    as (data & ints & bs & E & L & A & P & Li & Hn).
  exists (splice data 2048 bs). split; [exact E|].
  intros ch i Hch Hi. destruct (Hn ch i Hch Hi) as (f & s & Hs & Hin & Hv).
  exists f, s. split; [exact Hs|]. split; [exact Hin|].
  rewrite <- Hv. apply stored_int16; [|assumption|].
  - rewrite (pack_hs_length _ _ P), Li, L. apply data_fits.
  - rewrite Li.
    assert (H : S i * channelCount_of a <= channelPointCount_of a * channelCount_of a)
      by (apply Nat.mul_le_mono_r; lia).
    cbn in H. lia.
Qed.
(** * Failures *)

Lemma writeABF_channels_inv : forall a' sampleRateHz units out,
  writeABF_channels a' sampleRateHz units = Ok out ->
  let C := nth 0 (shape a') 0 in
  let N := nth 1 (shape a') 0 in
  let n := (N * C * 2 / 512 + 1 + 4) * 512 in
  exists data1 maxVal st unitString data2 interleaved scaled,
    populate_header (bytearray_zeros n) (N * C) sampleRateHz C = Ok data1 /\
    peak_deviation a' C = Ok maxVal /\
    scale_loop maxVal C = Ok st /\
    unit_strings units C = Ok unitString /\
    store_scale_data data1 (snd st) unitString C = Ok data2 /\
    interleave_signals a' (N * C) = Ok interleaved /\
    scale_signals interleaved (fst st) (N * C) = Ok scaled /\
    pack_into_hs data2 2048 (map astype_int scaled) = Ok out.
Proof.
  intros a' rate units out H. cbv zeta. unfold writeABF_channels in H.
  cbv zeta in H. unfold BLOCKSIZE, HEADER_BLOCKS in H.
  do 7 inv_bind H.
  exists x, x0, x1, x2, x3, x4, x5. repeat split; assumption.
Qed.

Lemma channelCount_as_channels : forall a a',
  as_channels a = Ok a' -> nth 0 (shape a') 0 = channelCount_of a.
Proof.
  intros [sh el] a' H. unfold as_channels, channelCount_of in *.
  cbn [shape elems] in *.
  destruct sh as [|c [|n sh]]; try discriminate; injection H as <-; reflexivity.
Qed.

(** The encoder never succeeds with fewer unit labels than channels. *)
Lemma writeABF_data_units : forall a sampleRateHz units out,
  writeABF_data a sampleRateHz units = Ok out ->
  channelCount_of a <= length units.
Proof.
  intros a rate units out H. unfold writeABF_data in H. inv_bind H.
  apply writeABF_channels_inv in H. cbv zeta in H.
  destruct H as (d1 & mv & st & us & d2 & il & sc & _ & _ & _ & Hu & _).
  rewrite (channelCount_as_channels _ _ E) in Hu.
  destruct (Nat.le_gt_cases (channelCount_of a) (length units)) as [|G];
    [assumption|].
  rewrite unit_strings_raises in Hu by assumption. discriminate.
Qed.

Lemma np_max_nonempty : forall row, row <> [] ->
  exists m, np_max (np_abs row) = Ok m.
Proof.
  intros [|x row] H; [congruence|]. cbn. eauto.
Qed.

Lemma row_nonempty : forall C N (el : list float) ch,
  length el = C * N -> ch < C -> 1 <= N ->
  firstn N (skipn (ch * N) el) <> [].
Proof.
  intros C N el ch L Hch HN E.
  apply (f_equal (@length float)) in E.
  assert (Hb : ch * N + N <= C * N).
  { assert (H : S ch * N <= C * N) by (apply Nat.mul_le_mono_r; lia). cbn in H. lia. }
  rewrite firstn_length_le in E by (rewrite length_skipn; lia).
  cbn in E. lia.
Qed.

Lemma peak_deviation_nonempty : forall C N el,
  length el = C * N -> 1 <= N ->
  exists maxVal,
    peak_deviation {| shape := [C; N]; elems := el |} C = Ok maxVal /\
    length maxVal = C.
Proof.
  intros C N el L HN.
  destruct (Forall2_seq_exists _
              (fun ch m => np_max (np_abs (subarray {| shape := [C; N]; elems := el |} ch))
                           = Ok m) C 0) as (maxVal & F).
  { intros ch Hch. cbn [Nat.add]. rewrite subarray_row.
    apply np_max_nonempty. now apply row_nonempty with (C := C). }
  exists maxVal. split.
  - unfold peak_deviation, range.
    rewrite (for_each_collect_ok _ _ _
               (fun ch => np_max (np_abs (subarray {| shape := [C; N]; elems := el |} ch)))
               (fun m => m) (seq 0 C) maxVal [] F).
    cbn [app]. now rewrite map_id.
  - now destruct (Forall2_seq_nth _ _ _ _ _ 0%float F).
Qed.

Lemma scale_search_total : forall m, exists r, scale_search 10 1%float m = Ok r.
Proof.
  intros m. change 1%float with (instrument_factor 0).
  destruct (scale_search_spec 10 0 m) as [(k & _ & Hs & _)|[Hs _]]; [lia| |]; eauto.
Qed.

Lemma scale_loop_total : forall maxVal C,
  length maxVal = C ->
  exists rs,
    Forall2 (fun ch r => exists m, py_index maxVal ch = Ok m /\
                                   scale_search 10 1%float m = Ok r)
            (seq 0 C) rs /\
    scale_loop maxVal C
    = Ok (flat_map appended rs, last (map (fun r => Some (fst r)) rs) None).
Proof.
  intros maxVal C L.
  destruct (Forall2_seq_exists _
              (fun ch r => exists m, py_index maxVal ch = Ok m /\
                                     scale_search 10 1%float m = Ok r) C 0)
    as (rs & F).
  { intros ch Hch. cbn [Nat.add].
    destruct (scale_search_total (nth ch maxVal 0%float)) as (r & Hr).
    exists r, (nth ch maxVal 0%float). split; [apply py_index_ok; lia|exact Hr]. }
  exists rs. split; [exact F|].
  unfold scale_loop, range. now rewrite (scale_loop_body_ok _ _ _ _ F).
Qed.

(** With a valid matrix and sample rate, too few unit labels raise
    [IndexError]. *)
Lemma short_units_IndexError : forall a sampleRateHz units,
  valid_matrix a sampleRateHz -> length units < channelCount_of a ->
  writeABF_data a sampleRateHz units = Raise IndexError.
Proof.
  intros a rate units (W & R & HC & HN & Hd & (q & i0 & bs0 & Hq & Hi0 & Hb)) Hu.
  pose proof (matrix_length a W R) as Lel.
  unfold writeABF_data. rewrite (as_channels_matrix a R). cbn [bind].
  unfold writeABF_channels. cbn [shape elems nth].
  unfold BLOCKSIZE, HEADER_BLOCKS.
  set (C := channelCount_of a) in *. set (N := channelPointCount_of a) in *.
  set (n := (N * C * 2 / 512 + 1 + 4) * 512).
  assert (Hn : 2048 + 2 * (N * C) <= n) by apply data_fits.
  destruct (populate_header_ok (bytearray_zeros n) (N * C) rate C n q i0 bs0)
    as (data1 & E1 & L1);
    try assumption; try lia; [apply repeat_length|].
  rewrite E1. cbn [bind].
  destruct (peak_deviation_nonempty C N (elems a)) as (maxVal & Ep & Lm);
    [assumption|assumption|].
  rewrite Ep. cbn [bind].
  destruct (scale_loop_total maxVal C Lm) as (rs & _ & Es).
  rewrite Es. cbn [bind].
  rewrite unit_strings_raises by assumption. reflexivity.
Qed.

(** ** Overflowing channels *)

Lemma leb_ltb_exclusive : forall m D,
  (m <=? D)%float = true -> (D <? m)%float = true -> False.
Proof.
  intros m D Hle Hlt. destruct (leb_true_ord _ _ Hle) as (Nm & ND & Hord).
  rewrite ltb_spec in Hlt. unfold SFltb in Hlt.
  rewrite SFcompare_ord in Hlt by (apply Prim2SF_valid || assumption).
  destruct (Z.compare_spec (SFord (Prim2SF D)) (SFord (Prim2SF m)));
    try discriminate. lia.
Qed.

(** The inner loop leaves no scale for a peak above the deviation of every
    pass; it ends with the factor of the tenth pass. *)
Lemma scale_search_overflow : forall m,
  (forall k, 1 <= k <= 10 -> (max_deviation k <? m)%float = true) ->
  scale_search 10 1%float m = Ok (instrument_factor 10, None).
Proof.
  intros m H. change 1%float with (instrument_factor 0).
  destruct (scale_search_spec 10 0 m) as [(k & Hk & _ & Hle & _)|[Hs _]];
    [lia| |exact Hs].
  exfalso. apply (leb_ltb_exclusive _ _ Hle). apply H. lia.
Qed.

Lemma scale_loop_overflow_passes : forall C N el maxVal rs,
  (forall ch, ch < C -> overflows (firstn N (skipn (ch * N) el))) ->
  peak_deviation {| shape := [C; N]; elems := el |} C = Ok maxVal ->
  Forall2 (fun ch r => exists m, py_index maxVal ch = Ok m /\
                                 scale_search 10 1%float m = Ok r)
          (seq 0 C) rs ->
  rs = repeat (instrument_factor 10, None) C.
Proof.
  intros C N el maxVal rs Hov Ep F.
  unfold peak_deviation, range in Ep.
  apply for_each_collect_inv
    with (f := fun ch => np_max (np_abs (subarray {| shape := [C; N]; elems := el |} ch)))
         (g := fun m : float => m) in Ep.
  destruct Ep as (xs & -> & Fx). cbn [app] in F. rewrite map_id in F.
  destruct (Forall2_seq_nth _ _ _ _ _ 0%float Fx) as [Lx Hx].
  destruct (Forall2_seq_nth _ _ _ _ _ (instrument_factor 10, @None float) F) as [Lr Hr].
  apply nth_ext with (d := (instrument_factor 10, @None float))
                     (d' := (instrument_factor 10, @None float)).
  - now rewrite repeat_length.
  - intros i Hi. rewrite Lr in Hi. rewrite nth_repeat.
    destruct (Hr i Hi) as (m & Hm & Hs). cbn [Nat.add] in Hm, Hs.
    rewrite (py_index_ok _ xs i 0%float) in Hm by lia. injection Hm as <-.
    specialize (Hx i Hi). cbn [Nat.add] in Hx. rewrite subarray_row in Hx.
    destruct (Hov i Hi) as (m' & Hm' & Hk). rewrite Hm' in Hx. injection Hx as ->.
    rewrite (scale_search_overflow _ Hk) in Hs. injection Hs as Hs.
    symmetry. exact Hs.
Qed.

Lemma flat_map_appended_none : forall (f : float) n,
  flat_map appended (repeat (f, None) n) = [].
Proof. induction n as [|n IH]; [reflexivity|exact IH]. Qed.

Lemma last_factor_repeat : forall (f : float) n, 1 <= n ->
  last (map (fun r : float * option float => Some (fst r)) (repeat (f, None) n)) None
  = Some f.
Proof.
  intros f n H. destruct n as [|n]; [lia|]. clear H.
  induction n as [|n IH]; [reflexivity|].
  change (repeat (f, @None float) (S (S n)))
    with ((f, @None float) :: repeat (f, None) (S n)).
  rewrite map_cons.
  change (repeat (f, @None float) (S n)) with ((f, @None float) :: repeat (f, None) n) in *.
  rewrite map_cons in *. exact IH.
Qed.

(** When every channel overflows, the scale loop leaves [valueScale]
    empty. *)
Lemma scale_loop_overflow : forall C N el maxVal st,
  (forall ch, ch < C -> overflows (firstn N (skipn (ch * N) el))) ->
  peak_deviation {| shape := [C; N]; elems := el |} C = Ok maxVal ->
  scale_loop maxVal C = Ok st ->
  fst st = [] /\ (1 <= C -> snd st = Some (instrument_factor 10)).
Proof.
  intros C N el maxVal st Hov Ep Es.
  unfold scale_loop, range in Es.
  destruct (scale_loop_body_inv _ _ _ _ Es) as (rs & F).
  rewrite (scale_loop_body_ok _ _ _ _ F) in Es. injection Es as <-.
  rewrite (scale_loop_overflow_passes C N el maxVal rs Hov Ep F).
  cbn [fst snd app]. split.
  - apply flat_map_appended_none.
  - intros HC. now apply last_factor_repeat.
Qed.

Lemma scale_signals_empty : forall interleaved dataPointCount,
  scale_signals interleaved [] dataPointCount = Raise ZeroDivisionError.
Proof. reflexivity. Qed.

(** The encoder never succeeds when every channel of a matrix overflows. *)
Lemma writeABF_data_all_overflow : forall a sampleRateHz units out,
  length (shape a) = 1 \/ length (shape a) = 2 ->
  (forall ch, ch < channelCount_of a -> overflows (channel a ch)) ->
  writeABF_data a sampleRateHz units = Ok out -> False.
Proof.
  intros a rate units out R Hov H. unfold writeABF_data in H.
  rewrite (as_channels_matrix a R) in H. cbn [bind] in H.
  apply writeABF_channels_inv in H. cbv zeta in H. cbn [shape nth] in H.
  destruct H as (d1 & mv & st & us & d2 & il & sc & _ & Ep & Es & _ & _ & _ & Hsc & _).
  destruct (scale_loop_overflow _ _ _ _ _ Hov Ep Es) as [E0 _].
  rewrite E0, scale_signals_empty in Hsc. discriminate.
Qed.

(** With a valid matrix and sample rate and enough unit labels, the error
    is the [ZeroDivisionError] of the division by the number of scales. *)
Lemma all_overflow_ZeroDivisionError : forall a sampleRateHz units,
  valid_matrix a sampleRateHz -> channelCount_of a <= length units ->
  (forall ch, ch < channelCount_of a -> overflows (channel a ch)) ->
  writeABF_data a sampleRateHz units = Raise ZeroDivisionError.
Proof.
  intros a rate units (W & R & HC & HN & Hd & (q & i0 & bs0 & Hq & Hi0 & Hb)) Hu Hov.
  pose proof (matrix_length a W R) as Lel.
  unfold writeABF_data. rewrite (as_channels_matrix a R). cbn [bind].
  unfold writeABF_channels. cbn [shape elems nth].
  unfold BLOCKSIZE, HEADER_BLOCKS.
  unfold channel in Hov.
  set (C := channelCount_of a) in *. set (N := channelPointCount_of a) in *.
  set (n := (N * C * 2 / 512 + 1 + 4) * 512).
  assert (Hn : 2048 + 2 * (N * C) <= n) by apply data_fits.
  destruct (populate_header_ok (bytearray_zeros n) (N * C) rate C n q i0 bs0)
    as (data1 & E1 & L1);
    try assumption; try lia; [apply repeat_length|].
  rewrite E1. cbn [bind].
  destruct (peak_deviation_nonempty C N (elems a)) as (maxVal & Ep & Lm);
    [assumption|assumption|].
  rewrite Ep. cbn [bind].
  destruct (scale_loop_total maxVal C Lm) as (rs & _ & Es).
  destruct (scale_loop_overflow C N (elems a) maxVal _ Hov Ep Es) as [E0 Ef].
  rewrite Es. cbn [bind]. rewrite E0, Ef by lia.
  rewrite unit_strings_ok by assumption. cbn [bind].
  destruct (instrument_factor_packable 10) as (bsf & Hbsf); [lia|].
  destruct (store_scale_data_ok data1 (instrument_factor 10)
              (map pad_unit (firstn C units)) C n bsf)
    as (data2 & E2 & L2); try assumption; try lia.
  { rewrite length_map, firstn_length_le; lia. }
  rewrite E2. cbn [bind].
  unfold interleave_signals, reshape_row. cbn [shape elems].
  rewrite transpose_elems_length. cbn [size_of fold_right].
  replace (N * 1 * C =? N * C) with true by (symmetry; apply Nat.eqb_eq; lia).
  cbn [bind]. rewrite scale_signals_empty. reflexivity.
Qed.

(** ** Inputs without samples *)

Lemma populate_header_no_channels : forall data dataPointCount sampleRateHz data',
  populate_header data dataPointCount sampleRateHz 0 = Ok data' -> False.
Proof.
  intros data dpc rate data' H. unfold populate_header in H.
  do 9 inv_bind H.
  unfold py_truediv in E7. 
  replace (float_of_nat 0 =? 0)%float with true in E7 by (vm_compute; reflexivity).
  discriminate.
Qed.

Lemma no_samples_stride : forall a a',
  as_channels a = Ok a' -> channelPointCount_of a = 0 ->
  size_of (tl (shape a')) = 0.
Proof.
  intros [sh el] a' H E. unfold as_channels, channelPointCount_of in *.
  cbn [shape elems] in *.
  destruct sh as [|c [|n sh]]; try discriminate; injection H as <-; subst;
    cbn [shape tl size_of fold_right]; lia.
Qed.

Lemma peak_deviation_no_samples : forall a' C,
  size_of (tl (shape a')) = 0 -> 1 <= C ->
  peak_deviation a' C = Raise ValueError.
Proof.
  intros a' C H HC. destruct C as [|C]; [lia|].
  unfold peak_deviation, range. cbn [seq for_each].
  unfold subarray. rewrite H. reflexivity.
Qed.

(** The encoder never succeeds on an input without samples. *)
Lemma writeABF_data_no_samples : forall a sampleRateHz units out,
  channelPointCount_of a = 0 ->
  writeABF_data a sampleRateHz units = Ok out -> False.
Proof.
  intros a rate units out H0 H. unfold writeABF_data in H. inv_bind H.
  pose proof (no_samples_stride _ _ E H0) as Hs.
  apply writeABF_channels_inv in H. cbv zeta in H.
  destruct H as (d1 & mv & st & us & d2 & il & sc & Eh & Ep & _).
  destruct (nth 0 (shape x) 0) as [|C].
  - exact (populate_header_no_channels _ _ _ _ Eh).
  - rewrite peak_deviation_no_samples in Ep by (assumption || lia). discriminate.
Qed.

(** With 1 to 16 channels and a sample rate whose interval can be stored,
    the error is the [ValueError] of [np.max] on an empty row. *)
Lemma no_samples_ValueError : forall a sampleRateHz units q i bs,
  channelPointCount_of a = 0 -> 1 <= length (shape a) ->
  1 <= channelCount_of a <= 16 ->
  py_truediv 1000000%float sampleRateHz = Ok q ->
  py_truediv q (float_of_nat (channelCount_of a)) = Ok i ->
  pack_f i = Ok bs ->
  writeABF_data a sampleRateHz units = Raise ValueError.
Proof.
  intros a rate units q i0 bs0 H0 R HC Hq Hi0 Hb.
  unfold writeABF_data.
  destruct (as_channels a) as [a'|e] eqn:E.
  2:{ unfold as_channels in E. destruct (shape a) as [|c [|n sh]];
        try discriminate. cbn in R. lia. }
  cbn [bind].
  pose proof (no_samples_stride _ _ E H0) as Hs.
  pose proof (channelCount_as_channels _ _ E) as HCa.
  assert (HN : nth 1 (shape a') 0 = 0).
  { clear - E H0. destruct a as [sh el].
    unfold as_channels, channelPointCount_of in *. cbn [shape elems] in *.
    destruct sh as [|c [|n sh]]; try discriminate;
      injection E as <-; cbn [shape nth]; assumption. }
  unfold writeABF_channels. rewrite HCa, HN.
  unfold BLOCKSIZE, HEADER_BLOCKS.
  destruct (populate_header_ok (bytearray_zeros 2560) 0 rate (channelCount_of a)
              2560 q i0 bs0)
    as (data1 & E1 & L1); try assumption; try lia; [reflexivity|].
  change ((0 * channelCount_of a * 2 / 512 + 1 + 4) * 512) with 2560.
  change (0 * channelCount_of a) with 0.
  rewrite E1. cbn [bind].
  rewrite peak_deviation_no_samples by (assumption || lia). reflexivity.
Qed.
(** * The values of the header fields *)

Lemma bytes_at_nth : forall (b : bytearray) o l k d,
  k < l -> nth k (bytes_at b o l) d = nth (o + k) b d.
Proof.
  intros b o l k d H. unfold bytes_at. rewrite nth_firstn.
  replace (k <? l) with true by (symmetry; now apply Nat.ltb_lt).
  apply nth_skipn.
Qed.

Lemma bytes_at_length : forall (b : bytearray) o l,
  length (bytes_at b o l) = Nat.min l (length b - o).
Proof. intros b o l. unfold bytes_at. now rewrite length_firstn, length_skipn. Qed.

Lemma bytes_at_agree : forall (R : nat -> Prop) b b' o l,
  agree_outside R b b' -> (forall j, o <= j < o + l -> ~ R j) ->
  bytes_at b' o l = bytes_at b o l.
Proof.
  intros R b b' o l [L H] HR.
  apply nth_ext with (d := 0%Z) (d' := 0%Z).
  - rewrite !bytes_at_length. now rewrite L.
  - intros k Hk. rewrite bytes_at_length in Hk.
    rewrite !bytes_at_nth by lia. apply H, HR. lia.
Qed.

Lemma bytes_at_splice : forall buf off bs,
  off <= length buf -> bytes_at (splice buf off bs) off (length bs) = bs.
Proof.
  intros buf off bs H. unfold bytes_at, splice.
  rewrite skipn_app, length_firstn, Nat.min_l by assumption.
  rewrite skipn_all2 by (rewrite length_firstn; lia).
  rewrite Nat.sub_diag. cbn [skipn app].
  rewrite firstn_app, Nat.sub_diag, firstn_all. cbn [firstn].
  now rewrite app_nil_r.
Qed.

(** What [pack_into] stores can be read back, and it leaves the bytes
    outside its range alone. *)
Lemma pack_into_same : forall size enc buf off buf',
  (forall bs, enc = Ok bs -> length bs = size) ->
  pack_into size enc buf off = Ok buf' ->
  enc = Ok (bytes_at buf' off size).
Proof.
  intros size enc buf off buf' Hlen H.
  apply pack_into_inv in H. destruct H as (bs & E & B & ->).
  rewrite <- (Hlen _ E). rewrite bytes_at_splice by lia. exact E.
Qed.

Lemma pack_into_other : forall size enc buf off buf' o l,
  (forall bs, enc = Ok bs -> length bs = size) ->
  pack_into size enc buf off = Ok buf' ->
  o + l <= off \/ off + size <= o ->
  bytes_at buf' o l = bytes_at buf o l.
Proof.
  intros size enc buf off buf' o l Hlen H D.
  apply (bytes_at_agree (fun j => off <= j < off + size)).
  - eapply pack_into_agree; [exact Hlen | | exact H]. intros j Hj. exact Hj.
  - intros j Hj. lia.
Qed.

Lemma pack_into_h_same : forall buf off v buf',
  pack_into_h buf off v = Ok buf' -> pack_h v = Ok (bytes_at buf' off 2).
Proof. intros. eapply pack_into_same; eauto using pack_h_length. Qed.

Lemma pack_into_i_same : forall buf off v buf',
  pack_into_i buf off v = Ok buf' -> pack_i v = Ok (bytes_at buf' off 4).
Proof. intros. eapply pack_into_same; eauto using pack_i_length. Qed.

Lemma pack_into_f_same : forall buf off x buf',
  pack_into_f buf off x = Ok buf' -> pack_f x = Ok (bytes_at buf' off 4).
Proof. intros. eapply pack_into_same; eauto using pack_f_length. Qed.

Lemma pack_into_s_same : forall n buf off bs buf',
  pack_into_s n buf off bs = Ok buf' -> pack_s n bs = Ok (bytes_at buf' off n).
Proof. intros. eapply pack_into_same; eauto using pack_s_length. Qed.

Lemma pack_into_h_other : forall buf off v buf' o l,
  pack_into_h buf off v = Ok buf' -> o + l <= off \/ off + 2 <= o ->
  bytes_at buf' o l = bytes_at buf o l.
Proof. intros. eapply pack_into_other; eauto using pack_h_length. Qed.

Lemma pack_into_i_other : forall buf off v buf' o l,
  pack_into_i buf off v = Ok buf' -> o + l <= off \/ off + 4 <= o ->
  bytes_at buf' o l = bytes_at buf o l.
Proof. intros. eapply pack_into_other; eauto using pack_i_length. Qed.

Lemma pack_into_f_other : forall buf off x buf' o l,
  pack_into_f buf off x = Ok buf' -> o + l <= off \/ off + 4 <= o ->
  bytes_at buf' o l = bytes_at buf o l.
Proof. intros. eapply pack_into_other; eauto using pack_f_length. Qed.

Lemma pack_into_s_other : forall n buf off bs buf' o l,
  pack_into_s n buf off bs = Ok buf' -> o + l <= off \/ off + n <= o ->
  bytes_at buf' o l = bytes_at buf o l.
Proof. intros. eapply pack_into_other; eauto using pack_s_length. Qed.

Lemma pack_into_hs_other : forall buf off vs buf' o l,
  pack_into_hs buf off vs = Ok buf' -> o + l <= off ->
  bytes_at buf' o l = bytes_at buf o l.
Proof.
  intros buf off vs buf' o l H D. unfold pack_into_hs in H.
  eapply pack_into_other; [|exact H|now left].
  intros bs E. now apply pack_hs_length.
Qed.

(** Rewrites [bytes_at] of a buffer to [bytes_at] of the buffer before the
    writes that do not touch the range. *)
Ltac frame_back :=
  repeat match goal with
  | E : pack_into_h ?b ?off ?v = Ok ?b' |- context [bytes_at ?b' ?o ?l] =>
      rewrite (pack_into_h_other b off v b' o l E) by lia
  | E : pack_into_i ?b ?off ?v = Ok ?b' |- context [bytes_at ?b' ?o ?l] =>
      rewrite (pack_into_i_other b off v b' o l E) by lia
  | E : pack_into_f ?b ?off ?v = Ok ?b' |- context [bytes_at ?b' ?o ?l] =>
      rewrite (pack_into_f_other b off v b' o l E) by lia
  | E : pack_into_s ?n ?b ?off ?v = Ok ?b' |- context [bytes_at ?b' ?o ?l] =>
      rewrite (pack_into_s_other n b off v b' o l E) by lia
  end.

(** ** Loops over the channel slots *)

Lemma for_each_preserve : forall (A S : Type) (Q : S -> Prop) (l : list A)
    (body : A -> S -> result S) s s',
  (forall c t t', In c l -> body c t = Ok t' -> Q t -> Q t') ->
  for_each l body s = Ok s' -> Q s -> Q s'.
Proof.
  induction l as [|x l IH]; intros body s s' Hb H Hs; cbn [for_each] in H.
  - now injection H as <-.
  - inv_bind H. apply (IH body x0 s'); [|assumption|].
    + intros c t t' Hc. apply Hb. now right.
    + apply (Hb x s x0); [now left|assumption|assumption].
Qed.

Lemma for_each_establish : forall (A S : Type) (P : A -> S -> Prop) (l : list A)
    (body : A -> S -> result S),
  (forall c s s', In c l -> body c s = Ok s' -> P c s') ->
  (forall c c' s s', In c l -> In c' l -> c <> c' ->
     body c' s = Ok s' -> P c s -> P c s') ->
  NoDup l ->
  forall s s', for_each l body s = Ok s' -> forall c, In c l -> P c s'.
Proof.
  induction l as [|x l IH]; intros body He Hp ND s s' H c Hc; [destruct Hc|].
  cbn [for_each] in H. inv_bind H. inversion ND as [|y l' Hx ND']; subst.
  destruct Hc as [<-|Hc].
  - apply (for_each_preserve _ _ (P x) l body x0 s'); [|assumption|].
    + intros c t t' Hc. apply Hp; [now left | now right |].
      intros ->. contradiction.
    + apply (He x s x0); [now left|assumption].
  - apply (IH body) with (s := x0); try assumption.
    + intros c0 t t' Hc0. apply He. now right.
    + intros c0 c' t t' Hc0 Hc'. apply Hp; now right.
Qed.

(** ** Lines 47-65 *)

Lemma populate_header_fields : forall data dataPointCount sampleRateHz channelCount data',
  populate_header data dataPointCount sampleRateHz channelCount = Ok data' ->
  header_block data' dataPointCount sampleRateHz channelCount.
Proof.
  unfold populate_header, header_block, HEADER_BLOCKS.
  intros data dpc rate C data' H.
  do 12 inv_bind H.
  assert (Hloop : forall o l, o + l <= 378 -> bytes_at data' o l = bytes_at x10 o l).
  { intros o l Hol. apply (bytes_at_agree map_region); [|unfold map_region; intros; lia].
    eapply for_each_agree; [|exact H].
    intros ch s s' Hch Hs. unfold range, MAX_NUM_CH in Hch. apply in_seq in Hch.
    cbv beta in Hs.
    destruct (_ <=? _)%Z;
      apply bind_ok_inv in Hs; destruct Hs as (b1 & Eb1 & Hs);
      (apply (pack_into_h_agree map_region) in Eb1; [|unfold map_region; intros; lia]);
      (apply (pack_into_h_agree map_region) in Hs; [|unfold map_region; intros; lia]);
      eapply agree_trans; eassumption. }
  repeat match goal with
  | |- _ /\ _ => split
  end;
  try (rewrite Hloop by lia; frame_back;
       first [ eapply pack_into_s_same; eassumption
             | eapply pack_into_f_same; eassumption
             | eapply pack_into_h_same; eassumption
             | eapply pack_into_i_same; eassumption ]).
  - exists x6, x7. split; [assumption|]. split; [assumption|].
    rewrite Hloop by lia. frame_back. eapply pack_into_f_same; eassumption.
  - assert (Hall : forall ch, In ch (range MAX_NUM_CH) ->
              pack_h (map_slot C ch) = Ok (bytes_at data' (378 + 2 * ch) 2) /\
              pack_h (map_slot C ch) = Ok (bytes_at data' (410 + 2 * ch) 2));
      [|intros ch Hch; apply Hall, in_seq; unfold MAX_NUM_CH; lia].
    refine (for_each_establish _ _
              (fun ch s =>
                 pack_h (map_slot C ch) = Ok (bytes_at s (378 + 2 * ch) 2) /\
                 pack_h (map_slot C ch) = Ok (bytes_at s (410 + 2 * ch) 2))
              (range MAX_NUM_CH) _ _ _ (seq_NoDup _ _) x10 data' H).
    + intros c s s' Hc Hs. unfold map_slot. cbv beta in Hs.
      destruct (_ <=? _)%Z;
        apply bind_ok_inv in Hs; destruct Hs as (b1 & Eb1 & Hs);
        (split; [frame_back; exact (pack_into_h_same _ _ _ _ Eb1)
                |exact (pack_into_h_same _ _ _ _ Hs)]).
    + intros c c' s s' Hc Hc' Hne Hs [P1 P2].
      unfold range, MAX_NUM_CH in Hc, Hc'. apply in_seq in Hc, Hc'.
      cbv beta in Hs.
      destruct (Z.of_nat c' <=? _)%Z;
        apply bind_ok_inv in Hs; destruct Hs as (b1 & Eb1 & Hs);
        (split; frame_back; assumption).
Qed.

(** ** Lines 102-108 *)

Lemma store_scale_data_region : forall data f unitString channelCount data',
  store_scale_data data f unitString channelCount = Ok data' ->
  agree_outside scale_region data data'.
Proof.
  unfold store_scale_data. intros data f us C data' H.
  do 2 inv_bind H.
  apply (pack_into_i_agree scale_region) in E; [|unfold scale_region; intros; lia].
  apply (pack_into_f_agree scale_region) in E0; [|unfold scale_region; intros; lia].
  apply (for_each_agree _ scale_region) in H.
  - repeat (eapply agree_trans; [eassumption|]). apply agree_refl.
  - intros ch s s' Hch Hs. unfold range, MAX_NUM_CH in Hch.
    apply in_seq in Hch.
    apply bind_ok_inv in Hs; destruct Hs as (f0 & Ef & Hs).
    apply bind_ok_inv in Hs; destruct Hs as (b1 & Eb1 & Hs).
    apply bind_ok_inv in Hs; destruct Hs as (b2 & Eb2 & Hs).
    apply bind_ok_inv in Hs; destruct Hs as (b3 & Eb3 & Hs).
    apply bind_ok_inv in Hs; destruct Hs as (u & Eu & Hs).
    apply (pack_into_f_agree scale_region) in Eb1; [|unfold scale_region; intros; lia].
    apply (pack_into_f_agree scale_region) in Eb2; [|unfold scale_region; intros; lia].
    apply (pack_into_f_agree scale_region) in Eb3; [|unfold scale_region; intros; lia].
    apply (pack_into_s_agree scale_region) in Hs; [|unfold scale_region; intros; lia].
    repeat (eapply agree_trans; [eassumption|]). apply agree_refl.
Qed.

Lemma store_scale_data_fields : forall data fo unitString channelCount data',
  store_scale_data data fo unitString channelCount = Ok data' ->
  scale_block data' fo unitString channelCount.
Proof.
  unfold store_scale_data, scale_block. intros data fo us C data' H.
  do 2 inv_bind H.
  assert (Hloop : forall o l, o + l <= 602 -> bytes_at data' o l = bytes_at x0 o l).
  { intros o l Hol.
    apply (bytes_at_agree (fun j => 602 <= j < 1114)); [|intros; lia].
    eapply for_each_agree; [|exact H].
    intros ch s s' Hch Hs. unfold range, MAX_NUM_CH in Hch. apply in_seq in Hch.
    cbv beta in Hs.
    apply bind_ok_inv in Hs; destruct Hs as (f0 & Ef & Hs).
    apply bind_ok_inv in Hs; destruct Hs as (b1 & Eb1 & Hs).
    apply bind_ok_inv in Hs; destruct Hs as (b2 & Eb2 & Hs).
    apply bind_ok_inv in Hs; destruct Hs as (b3 & Eb3 & Hs).
    apply bind_ok_inv in Hs; destruct Hs as (u & Eu & Hs).
    apply (pack_into_f_agree (fun j => 602 <= j < 1114)) in Eb1; [|intros; lia].
    apply (pack_into_f_agree (fun j => 602 <= j < 1114)) in Eb2; [|intros; lia].
    apply (pack_into_f_agree (fun j => 602 <= j < 1114)) in Eb3; [|intros; lia].
    apply (pack_into_s_agree (fun j => 602 <= j < 1114)) in Hs; [|intros; lia].
    repeat (eapply agree_trans; [eassumption|]). apply agree_refl. }
  split; [rewrite Hloop by lia; frame_back; exact (pack_into_i_same _ _ _ _ E)|].
  split; [rewrite Hloop by lia; exact (pack_into_f_same _ _ _ _ E0)|].
  assert (Hall : forall ch, In ch (range MAX_NUM_CH) ->
    (exists f, fo = Some f /\ pack_f f = Ok (bytes_at data' (922 + ch * 4) 4)) /\
    pack_f 1%float = Ok (bytes_at data' (1050 + ch * 4) 4) /\
    pack_f 1%float = Ok (bytes_at data' (730 + ch * 4) 4) /\
    (exists u, py_getitem us (Z.min (Z.of_nat ch) (Z.of_nat C - 1)) = Ok u /\
               pack_s 8 (encode u) = Ok (bytes_at data' (602 + ch * 8) 8)));
    [|intros ch Hch; apply Hall, in_seq; unfold MAX_NUM_CH; lia].
  refine (for_each_establish _ _
            (fun ch s =>
               (exists f, fo = Some f /\ pack_f f = Ok (bytes_at s (922 + ch * 4) 4)) /\
               pack_f 1%float = Ok (bytes_at s (1050 + ch * 4) 4) /\
               pack_f 1%float = Ok (bytes_at s (730 + ch * 4) 4) /\
               (exists u, py_getitem us (Z.min (Z.of_nat ch) (Z.of_nat C - 1)) = Ok u /\
                          pack_s 8 (encode u) = Ok (bytes_at s (602 + ch * 8) 8)))
            (range MAX_NUM_CH) _ _ _ (seq_NoDup _ _) x0 data' H).
  - intros c s s' Hc Hs. cbv beta in Hs.
    apply bind_ok_inv in Hs; destruct Hs as (f0 & Ef & Hs).
    apply bind_ok_inv in Hs; destruct Hs as (b1 & Eb1 & Hs).
    apply bind_ok_inv in Hs; destruct Hs as (b2 & Eb2 & Hs).
    apply bind_ok_inv in Hs; destruct Hs as (b3 & Eb3 & Hs).
    apply bind_ok_inv in Hs; destruct Hs as (u & Eu & Hs).
    unfold range, MAX_NUM_CH in Hc. apply in_seq in Hc.
    split; [|split; [|split]].
    + exists f0. split; [destruct fo; [now injection Ef as ->|discriminate]|].
      frame_back. exact (pack_into_f_same _ _ _ _ Eb1).
    + frame_back. exact (pack_into_f_same _ _ _ _ Eb2).
    + frame_back. exact (pack_into_f_same _ _ _ _ Eb3).
    + exists u. split; [assumption|]. exact (pack_into_s_same _ _ _ _ _ Hs).
  - intros c c' s s' Hc Hc' Hne Hs (P1 & P2 & P3 & P4).
    unfold range, MAX_NUM_CH in Hc, Hc'. apply in_seq in Hc, Hc'.
    cbv beta in Hs.
    apply bind_ok_inv in Hs; destruct Hs as (f0 & Ef & Hs).
    apply bind_ok_inv in Hs; destruct Hs as (b1 & Eb1 & Hs).
    apply bind_ok_inv in Hs; destruct Hs as (b2 & Eb2 & Hs).
    apply bind_ok_inv in Hs; destruct Hs as (b3 & Eb3 & Hs).
    apply bind_ok_inv in Hs; destruct Hs as (u & Eu & Hs).
    split; [|split; [|split]].
    + destruct P1 as (f & Hf & P1). exists f. split; [assumption|].
      frame_back. assumption.
    + frame_back. assumption.
    + frame_back. assumption.
    + destruct P4 as (u' & Hu' & P4). exists u'. split; [assumption|].
      frame_back. assumption.
Qed.

(** ** The header of the output *)

Lemma channelPointCount_as_channels : forall a a',
  as_channels a = Ok a' -> nth 1 (shape a') 0 = channelPointCount_of a.
Proof.
  intros [sh el] a' H. unfold as_channels, channelPointCount_of in *.
  cbn [shape elems] in *.
  destruct sh as [|c [|n sh]]; try discriminate; injection H as <-; reflexivity.
Qed.

Lemma pack_into_hs_length : forall buf off vs buf',
  pack_into_hs buf off vs = Ok buf' -> length buf' = length buf.
Proof.
  intros buf off vs buf' H. unfold pack_into_hs in H.
  apply pack_into_inv in H. destruct H as (bs & E & B & ->).
  apply splice_length. rewrite (pack_hs_length _ _ E). exact B.
Qed.

(** Every successful encode went through the header blocks, and its
    first 2048 bytes are those left by lines 102-108. *)
Lemma writeABF_data_header : forall a sampleRateHz units out,
  writeABF_data a sampleRateHz units = Ok out ->
  let C := channelCount_of a in
  let N := channelPointCount_of a in
  let n := (N * C * 2 / 512 + 1 + 4) * 512 in
  exists a' data1 maxVal st unitString data2,
    as_channels a = Ok a' /\
    populate_header (bytearray_zeros n) (N * C) sampleRateHz C = Ok data1 /\
    peak_deviation a' C = Ok maxVal /\
    scale_loop maxVal C = Ok st /\
    unit_strings units C = Ok unitString /\
    store_scale_data data1 (snd st) unitString C = Ok data2 /\
    length out = n /\
    forall o l, o + l <= 2048 -> bytes_at out o l = bytes_at data2 o l.
Proof.
  intros a rate units out H. cbv zeta. unfold writeABF_data in H. inv_bind H.
  rename x into a'.
  apply writeABF_channels_inv in H. cbv zeta in H.
  rewrite (channelCount_as_channels _ _ E),
          (channelPointCount_as_channels _ _ E) in H.
  destruct H as (d1 & mv & st & us & d2 & il & sc & Eh & Ep & Es & Eu & Ed & _ & _ & Eo).
  exists a', d1, mv, st, us, d2. repeat (split; [assumption|]). split.
  - rewrite (pack_into_hs_length _ _ _ _ Eo).
    destruct (store_scale_data_agree _ _ _ _ _ Ed) as [-> _].
    destruct (populate_header_agree _ _ _ _ _ Eh) as [-> _].
    apply repeat_length.
  - intros o l Hol. now apply (pack_into_hs_other _ _ _ _ o l Eo).
Qed.

(** The fields of lines 47-65 survive lines 102-108. *)
Lemma store_scale_data_other : forall data f unitString channelCount data' o l,
  store_scale_data data f unitString channelCount = Ok data' ->
  o + l <= 244 \/ 442 >= o + l /\ 378 <= o ->
  bytes_at data' o l = bytes_at data o l.
Proof.
  intros data f us C data' o l H D.
  apply (bytes_at_agree scale_region).
  - exact (store_scale_data_region _ _ _ _ _ H).
  - unfold scale_region. intros j Hj. lia.
Qed.

(** ** The variable left by the scale loop *)

Lemma last_nth_length : forall (A : Type) (l : list A) d,
  l <> [] -> last l d = nth (length l - 1) l d.
Proof.
  induction l as [|x l IH]; intros d H; [congruence|].
  destruct l as [|y l]; [reflexivity|].
  change (last (x :: y :: l) d) with (last (y :: l) d).
  rewrite IH by discriminate. cbn [length].
  replace (S (S (length l)) - 1) with (S (S (length l) - 1)) by lia.
  reflexivity.
Qed.

(** After the scale loop, [fInstrumentScaleFactor] is the factor at which
    the inner loop ended for the last channel. *)
Lemma scale_loop_last : forall a' C maxVal st f,
  peak_deviation a' C = Ok maxVal -> scale_loop maxVal C = Ok st ->
  snd st = Some f ->
  1 <= C /\ exists o, select_scale (subarray a' (C - 1)) = Ok (f, o).
Proof.
  intros a' C maxVal st f Ep Es Hf.
  unfold peak_deviation, range in Ep.
  apply for_each_collect_inv
    with (f := fun ch => np_max (np_abs (subarray a' ch)))
         (g := fun m : float => m) in Ep.
  destruct Ep as (xs & -> & Fx). cbn [app] in Es. rewrite map_id in Es.
  destruct (Forall2_seq_nth _ _ _ _ _ 0%float Fx) as [Lx Hx].
  unfold scale_loop, range in Es.
  destruct (scale_loop_body_inv _ _ _ _ Es) as (rs & F).
  rewrite (scale_loop_body_ok _ _ _ _ F) in Es. injection Es as <-.
  cbn [fst snd] in Hf.
  destruct (Forall2_seq_nth _ _ _ _ _ (1%float, @None float) F) as [Lr Hr].
  destruct rs as [|r0 rs']; [discriminate|].
  set (rs := r0 :: rs') in *.
  assert (HC : 1 <= C) by (rewrite <- Lr; cbn; lia).
  split; [exact HC|].
  rewrite (last_map_nonempty _ _ (fun r : float * option float => Some (fst r))
             rs None (1%float, None)) in Hf by discriminate.
  rewrite last_nth_length in Hf by discriminate. rewrite Lr in Hf.
  injection Hf as <-.
  destruct (Hr (C - 1)) as (m & Hm & Hs); [lia|]. cbn [Nat.add] in Hm, Hs.
  rewrite (py_index_ok _ xs (C - 1) 0%float) in Hm by lia. injection Hm as <-.
  specialize (Hx (C - 1)). cbn [Nat.add] in Hx.
  exists (snd (nth (C - 1) rs (1%float, None))).
  unfold select_scale. rewrite Hx by lia. cbn [bind]. rewrite Hs.
  now rewrite <- surjective_pairing.
Qed.

Lemma subarray_channel : forall a a',
  length (shape a) = 1 \/ length (shape a) = 2 ->
  as_channels a = Ok a' -> forall ch, subarray a' ch = channel a ch.
Proof.
  intros a a' R E ch. rewrite (as_channels_matrix a R) in E. injection E as <-.
  apply subarray_row.
Qed.

(** ** Unit labels *)

Lemma encode_append : forall s t,
  encode (String.append s t) = encode s ++ encode t.
Proof.
  induction s as [|c s IH]; intros t; cbn [String.append encode]; [reflexivity|].
  now rewrite IH, app_assoc.
Qed.

Lemma encode_spaces : forall n,
  encode (String.concat String.EmptyString
            (repeat (String.String " " String.EmptyString) n))
  = repeat 32%Z n.
Proof.
  induction n as [|n IH]; [reflexivity|].
  cbn [repeat]. destruct n as [|n]; [reflexivity|].
  cbn [repeat] in *.
  change (String.concat String.EmptyString
            (String.String " " String.EmptyString
             :: String.String " " String.EmptyString
             :: repeat (String.String " " String.EmptyString) n))
    with (String.append (String.String " " String.EmptyString)
            (String.append String.EmptyString
               (String.concat String.EmptyString
                  (String.String " " String.EmptyString
                   :: repeat (String.String " " String.EmptyString) n)))).
  rewrite encode_append. cbn [String.append]. rewrite IH. reflexivity.
Qed.

Lemma encode_pad_unit : forall u,
  encode (pad_unit u) = encode u ++ repeat 32%Z (8 - String.length u).
Proof. intros u. unfold pad_unit. now rewrite encode_append, encode_spaces. Qed.

Lemma encode_length : forall s, String.length s <= length (encode s).
Proof.
  induction s as [|c s IH]; cbn [String.length encode]; [lia|].
  rewrite length_app. unfold utf8_char. destruct (_ <? _)%Z; cbn [length]; lia.
Qed.

Lemma pack_s_long : forall n bs, n <= length bs -> pack_s n bs = Ok (firstn n bs).
Proof.
  intros n bs H. unfold pack_s. f_equal.
  rewrite firstn_app. replace (n - length bs) with 0 by lia.
  cbn [firstn]. now rewrite app_nil_r.
Qed.

(** ** Failures in the first header block *)

Lemma populate_header_starts : forall data dataPointCount sampleRateHz channelCount n,
  length data = n -> 2048 <= n ->
  (Z.of_nat dataPointCount <= 2147483647)%Z ->
  exists data7, length data7 = n /\
    populate_header data dataPointCount sampleRateHz channelCount
    = (q <- py_truediv 1000000%float sampleRateHz ;;
       fADCSampleInterval <- py_truediv q (float_of_nat channelCount) ;;
       data <- pack_into_f data7 122 fADCSampleInterval ;;
       data <- pack_into_i data 138 (Z.of_nat dataPointCount) ;;
       data <- pack_into_h data 120 (Z.of_nat channelCount) ;;
       for_each (range MAX_NUM_CH)
         (fun ch data =>
            if (Z.of_nat ch <=? Z.of_nat channelCount - 1)%Z then
              data <- pack_into_h data (378 + 2 * ch) (Z.of_nat ch) ;;
              pack_into_h data (410 + 2 * ch) (Z.of_nat ch)
            else
              data <- pack_into_h data (378 + 2 * ch) (-1) ;;
              pack_into_h data (410 + 2 * ch) (-1))
         data).
Proof.
  intros data dpc rate C n L Hn Hd.
  unfold populate_header, HEADER_BLOCKS.
  destruct (pack_into_s_succeeds 4 data 0 [65; 66; 70; 32]%Z n) as (b0 & E0 & L0);
    [assumption|lia|]. rewrite E0. cbn [bind].
  destruct (pack_into_f_succeeds b0 4 0x1.4cccccccccccdp+0%float
              [102; 102; 166; 63]%Z n) as (b1 & E1 & L1);
    [vm_compute; reflexivity | assumption | lia |]. rewrite E1. cbn [bind].
  destruct (pack_into_h_succeeds b1 8 5 n) as (b2 & E2 & L2); [lia|assumption|lia|].
  rewrite E2. cbn [bind].
  destruct (pack_into_i_succeeds b2 10 (Z.of_nat dpc) n) as (b3 & E3 & L3);
    [lia|assumption|lia|].
  rewrite E3. cbn [bind].
  destruct (pack_into_i_succeeds b3 16 1 n) as (b4 & E4 & L4); [lia|assumption|lia|].
  rewrite E4. cbn [bind].
  destruct (pack_into_i_succeeds b4 40 4 n) as (b5 & E5 & L5); [lia|assumption|lia|].
  change (Z.of_nat 4) with 4%Z. rewrite E5. cbn [bind].
  destruct (pack_into_h_succeeds b5 100 0 n) as (b6 & E6 & L6); [lia|assumption|lia|].
  rewrite E6. cbn [bind].
  exists b6. split; [assumption|reflexivity].
Qed.

Lemma populate_header_zero_rate : forall data dataPointCount sampleRateHz channelCount,
  2048 <= length data -> (Z.of_nat dataPointCount <= 2147483647)%Z ->
  (sampleRateHz =? 0)%float = true ->
  populate_header data dataPointCount sampleRateHz channelCount
  = Raise ZeroDivisionError.
Proof.
  intros data dpc rate C Hn Hd Hr.
  destruct (populate_header_starts data dpc rate C (length data))
    as (d7 & _ & ->); [reflexivity|assumption|assumption|].
  unfold py_truediv at 1. now rewrite Hr.
Qed.

Lemma populate_header_zero_channels : forall data dataPointCount sampleRateHz,
  2048 <= length data -> (Z.of_nat dataPointCount <= 2147483647)%Z ->
  populate_header data dataPointCount sampleRateHz 0 = Raise ZeroDivisionError.
Proof.
  intros data dpc rate Hn Hd.
  destruct (populate_header_starts data dpc rate 0 (length data))
    as (d7 & _ & ->); [reflexivity|assumption|assumption|].
  unfold py_truediv at 1. destruct (rate =? 0)%float; [reflexivity|].
  cbn [bind]. unfold py_truediv.
  replace (float_of_nat 0 =? 0)%float with true by (vm_compute; reflexivity).
  reflexivity.
Qed.

Lemma populate_header_too_long : forall data dataPointCount sampleRateHz channelCount,
  2048 <= length data -> (2147483647 < Z.of_nat dataPointCount)%Z ->
  populate_header data dataPointCount sampleRateHz channelCount
  = Raise StructError.
Proof.
  intros data dpc rate C Hn Hd. set (n := length data) in *.
  unfold populate_header.
  destruct (pack_into_s_succeeds 4 data 0 [65; 66; 70; 32]%Z n) as (b0 & E0 & L0);
    [reflexivity|lia|]. rewrite E0. cbn [bind].
  destruct (pack_into_f_succeeds b0 4 0x1.4cccccccccccdp+0%float
              [102; 102; 166; 63]%Z n) as (b1 & E1 & L1);
    [vm_compute; reflexivity | assumption | lia |]. rewrite E1. cbn [bind].
  destruct (pack_into_h_succeeds b1 8 5 n) as (b2 & E2 & L2); [lia|assumption|lia|].
  rewrite E2. cbn [bind].
  unfold pack_into_i at 1, pack_into.
  replace (10 + 4 <=? length b2) with true by (symmetry; apply Nat.leb_le; lia).
  unfold pack_i.
  replace (Z.of_nat dpc <=? 2147483647)%Z with false by (symmetry; apply Z.leb_gt; lia).
  rewrite andb_false_r. reflexivity.
Qed.

(** ** The header of every output *)

Lemma header_block_frame : forall b b' dataPointCount sampleRateHz channelCount,
  (forall o l, o + l <= 244 \/ 378 <= o /\ o + l <= 442 ->
     bytes_at b' o l = bytes_at b o l) ->
  header_block b dataPointCount sampleRateHz channelCount ->
  header_block b' dataPointCount sampleRateHz channelCount.
Proof.
  unfold header_block. intros b b' dpc rate C H
    (H0 & H1 & H2 & H3 & H4 & H5 & H6 & (q & i & Hq & Hi & H7) & H8 & H9 & H10).
  rewrite !H by lia.
  repeat (split; [assumption|]).
  split; [exists q, i; repeat split; assumption|].
  repeat (split; [assumption|]).
  intros ch Hch. rewrite !H by lia. now apply H10.
Qed.

Lemma scale_block_frame : forall b b' fo unitString channelCount,
  (forall o l, o + l <= 2048 -> bytes_at b' o l = bytes_at b o l) ->
  scale_block b fo unitString channelCount ->
  scale_block b' fo unitString channelCount.
Proof.
  unfold scale_block. intros b b' fo us C H (H0 & H1 & H2).
  rewrite !H by lia. repeat (split; [assumption|]).
  intros ch Hch. rewrite !H by lia. now apply H2.
Qed.

(** Every successful encode leaves both header blocks in its output. *)
Lemma output_fields : forall a sampleRateHz units out,
  writeABF_data a sampleRateHz units = Ok out ->
  let C := channelCount_of a in
  let N := channelPointCount_of a in
  exists a' maxVal st unitString,
    as_channels a = Ok a' /\
    peak_deviation a' C = Ok maxVal /\
    scale_loop maxVal C = Ok st /\
    unit_strings units C = Ok unitString /\
    length out = (N * C * 2 / 512 + 1 + 4) * 512 /\
    header_block out (N * C) sampleRateHz C /\
    scale_block out (snd st) unitString C.
Proof.
  intros a rate units out H. cbv zeta.
  destruct (writeABF_data_header a rate units out H)
    as (a' & d1 & mv & st & us & d2 & Ea & Eh & Ep & Es & Eu & Ed & L & Hout).
  exists a', mv, st, us. repeat (split; [assumption|]). split.
  - apply (header_block_frame d1).
    + intros o l Hol. rewrite Hout by lia.
      apply (store_scale_data_other _ _ _ _ _ o l Ed). lia.
    + exact (populate_header_fields _ _ _ _ _ Eh).
  - apply (scale_block_frame d2); [exact Hout|].
    exact (store_scale_data_fields _ _ _ _ _ Ed).
Qed.

Lemma field_value : forall (enc : result (list byte)) b bs,
  enc = Ok b -> enc = Ok bs -> b = bs.
Proof. intros enc b bs H1 H2. congruence. Qed.
(** * Decoding header fields *)

Lemma pack_i_inv : forall v bs, pack_i v = Ok bs ->
  (-2147483648 <= v <= 2147483647)%Z /\ bs = le_bytes 4 v.
Proof.
  unfold pack_i. intros v bs H.
  destruct ((-2147483648 <=? v) && (v <=? 2147483647))%Z eqn:E; [|discriminate].
  injection H as <-. apply andb_true_iff in E. destruct E as [E1 E2].
  apply Z.leb_le in E1, E2. now split.
Qed.

Lemma py_truediv_inv : forall x y q, py_truediv x y = Ok q ->
  (y =? 0)%float = false /\ q = (x / y)%float.
Proof.
  unfold py_truediv. intros x y q H.
  destruct (y =? 0)%float; [discriminate|]. injection H as <-. now split.
Qed.

Lemma int16_at_packed : forall buf off v,
  pack_h v = Ok (bytes_at buf off 2) -> int16_at buf off = v.
Proof.
  intros buf off v H. apply pack_h_inv in H. destruct H as [Hv E].
  cbn [le_bytes] in E.
  assert (E0 : nth off buf 0%Z = (v mod 256)%Z).
  { rewrite <- (Nat.add_0_r off), <- (bytes_at_nth buf off 2 0 0%Z) by lia.
    now rewrite E. }
  assert (E1 : nth (off + 1) buf 0%Z = ((v / 256) mod 256)%Z).
  { rewrite <- (bytes_at_nth buf off 2 1 0%Z) by lia. now rewrite E. }
  unfold int16_at. rewrite E0, E1. now apply int16_roundtrip.
Qed.

Lemma map_slot_cases : forall channelCount ch,
  map_slot channelCount ch = if ch <? channelCount then Z.of_nat ch else (-1)%Z.
Proof.
  intros C ch. unfold map_slot.
  destruct (Z.leb_spec (Z.of_nat ch) (Z.of_nat C - 1));
    destruct (Nat.ltb_spec ch C); try reflexivity; lia.
Qed.

(** ** Comparisons and NaN *)

Lemma ord_leb_true : forall x y,
  Prim2SF x <> S754_nan -> Prim2SF y <> S754_nan ->
  (SFord (Prim2SF x) <= SFord (Prim2SF y))%Z -> (x <=? y)%float = true.
Proof.
  intros x y Nx Ny H. rewrite leb_spec. unfold SFleb.
  rewrite SFcompare_ord by (apply Prim2SF_valid || assumption).
  destruct (Z.compare_spec (SFord (Prim2SF x)) (SFord (Prim2SF y)));
    try reflexivity. lia.
Qed.

Lemma is_nan_false : forall x, is_nan x = false -> Prim2SF x <> S754_nan.
Proof.
  intros x H E. apply is_nan_spec in E. congruence.
Qed.

Lemma leb_nan_l : forall x y, is_nan x = true -> (x <=? y)%float = false.
Proof.
  intros x y H. apply is_nan_spec in H. rewrite leb_spec, H. reflexivity.
Qed.

Lemma abs_nan : forall x, is_nan x = true -> is_nan (abs x) = true.
Proof.
  intros x H. apply is_nan_spec in H. apply is_nan_spec.
  rewrite abs_spec, H. reflexivity.
Qed.

Lemma np_maximum_nan_r : forall a b, is_nan b = true -> is_nan (np_maximum a b) = true.
Proof.
  intros a b H. unfold np_maximum. destruct (is_nan a) eqn:E; [assumption|].
  now rewrite (leb_nan_l b a H).
Qed.

Lemma fold_maximum_nan_acc : forall l acc,
  is_nan acc = true -> is_nan (fold_left np_maximum l acc) = true.
Proof.
  induction l as [|y l IH]; intros acc H; cbn [fold_left]; [assumption|].
  apply IH. unfold np_maximum. now rewrite H.
Qed.

Lemma fold_maximum_nan_in : forall l acc y,
  In y l -> is_nan y = true -> is_nan (fold_left np_maximum l acc) = true.
Proof.
  induction l as [|z l IH]; intros acc y Hy H; [destruct Hy|].
  cbn [fold_left]. destruct Hy as [->|Hy].
  - apply fold_maximum_nan_acc. now apply np_maximum_nan_r.
  - now apply (IH _ y).
Qed.

Lemma np_max_nan : forall row x, In x row -> is_nan x = true ->
  exists m, np_max (np_abs row) = Ok m /\ is_nan m = true.
Proof.
  intros [|x0 row] x Hx H; [destruct Hx|].
  unfold np_abs. cbn [map np_max]. eexists. split; [reflexivity|].
  destruct Hx as [->|Hx].
  - apply fold_maximum_nan_acc. now apply abs_nan.
  - apply (fold_maximum_nan_in _ _ (abs x)); [now apply in_map|now apply abs_nan].
Qed.

Lemma scale_search_nan : forall m, is_nan m = true ->
  scale_search 10 1%float m = Ok (instrument_factor 10, None).
Proof.
  intros m H. change 1%float with (instrument_factor 0).
  destruct (scale_search_spec 10 0 m) as [(k & _ & _ & Hle & _)|[Hs _]];
    [lia| |exact Hs].
  rewrite (leb_nan_l m _ H) in Hle. discriminate.
Qed.

Lemma unit_label_item : forall units C ch u,
  1 <= C <= length units ->
  py_getitem (map pad_unit (firstn C units))
    (Z.min (Z.of_nat ch) (Z.of_nat C - 1)) = Ok u ->
  exists u0, nth_error units (Nat.min ch (C - 1)) = Some u0 /\ u = pad_unit u0.
Proof.
  intros units C ch u HC H.
  replace (Z.min (Z.of_nat ch) (Z.of_nat C - 1)) with (Z.of_nat (Nat.min ch (C - 1)))
    in H by lia.
  rewrite py_getitem_nat in H.
  assert (Hlt : Nat.min ch (C - 1) < C) by lia.
  rewrite (py_index_ok _ _ _ String.EmptyString) in H
    by (rewrite length_map, firstn_length_le; lia).
  injection H as <-.
  exists (nth (Nat.min ch (C - 1)) units String.EmptyString). split.
  - apply nth_error_nth'. lia.
  - rewrite (nth_indep _ String.EmptyString (pad_unit String.EmptyString))
      by (rewrite length_map, firstn_length_le; lia).
    rewrite map_nth, nth_firstn.
    now replace (Nat.min ch (C - 1) <? C) with true by (symmetry; apply Nat.ltb_lt; lia).
Qed.
(** * Scales are applied by position *)

Lemma np_multiply_inv : forall a b c, np_multiply a b = Ok c ->
  (length a = length b /\ c = zip_mul a b) \/
  (length a <> length b /\ (length b = 1 \/ length a = 1)).
Proof.
  intros a b c H. unfold np_multiply in H.
  destruct (Nat.eqb_spec (length a) (length b)) as [E|E].
  - left. injection H as <-. now split.
  - right. split; [assumption|].
    destruct b as [|y [|y' b]].
    + destruct a as [|x [|x' a]]; try discriminate. now right.
    + now left.
    + destruct a as [|x [|x' a]]; try discriminate. now right.
Qed.

Lemma flat_map_Forall2 : forall (A B C : Type) (f : A -> list C) (g : B -> list C) l rs,
  Forall2 (fun x r => g r = f x) l rs -> flat_map g rs = flat_map f l.
Proof.
  intros A B C f g l rs F. induction F as [|x r l rs H F IH]; [reflexivity|].
  cbn [flat_map]. now rewrite H, IH.
Qed.

Lemma flat_map_short : forall (A B : Type) (f : A -> list B) l,
  (forall x, length (f x) <= 1) -> length (flat_map f l) <= length l.
Proof.
  intros A B f l H. induction l as [|x l IH]; [reflexivity|].
  cbn [flat_map length]. rewrite length_app. specialize (H x). lia.
Qed.

(** The scale loop leaves in [valueScale] the scales selected for the
    channels. *)
Lemma scale_loop_selected : forall a a' maxVal st,
  length (shape a) = 1 \/ length (shape a) = 2 ->
  as_channels a = Ok a' ->
  peak_deviation a' (channelCount_of a) = Ok maxVal ->
  scale_loop maxVal (channelCount_of a) = Ok st ->
  fst st = selected_scales a.
Proof.
  intros a a' maxVal st R Ea Ep Es.
  unfold peak_deviation, range in Ep.
  apply for_each_collect_inv
    with (f := fun ch => np_max (np_abs (subarray a' ch)))
         (g := fun m : float => m) in Ep.
  destruct Ep as (xs & -> & Fx). cbn [app] in Es. rewrite map_id in Es.
  destruct (Forall2_seq_nth _ _ _ _ _ 0%float Fx) as [Lx Hx].
  unfold scale_loop, range in Es.
  destruct (scale_loop_body_inv _ _ _ _ Es) as (rs & F).
  rewrite (scale_loop_body_ok _ _ _ _ F) in Es. injection Es as <-.
  cbn [fst app]. unfold selected_scales.
  apply flat_map_Forall2.
  destruct (Forall2_seq_nth _ _ _ _ _ (1%float, @None float) F) as [Lr Hr].
  apply Forall2_seq_intro with (d := (1%float, @None float)); [assumption|].
  intros ch Hch. cbn [Nat.add].
  destruct (Hr ch Hch) as (m & Hm & Hs). cbn [Nat.add] in Hm, Hs.
  rewrite (py_index_ok _ xs ch 0%float) in Hm by lia. injection Hm as <-.
  specialize (Hx ch Hch). cbn [Nat.add] in Hx.
  rewrite (subarray_channel a a' R Ea) in Hx.
  unfold channel_scale, select_scale. rewrite Hx. cbn [bind]. rewrite Hs.
  unfold appended. now destruct (nth ch rs (1%float, None)) as [f [s|]].
Qed.

Lemma selected_scales_length : forall a,
  length (selected_scales a) <= channelCount_of a.
Proof.
  intros a. unfold selected_scales.
  etransitivity; [apply flat_map_short|now rewrite length_seq].
  intros ch. destruct (channel_scale a ch); cbn; lia.
Qed.

Lemma tile_exact : forall n L, 1 <= L -> 1 <= n ->
  n / L * L = 1 \/ n = 1 /\ L <= 1 -> n / L * L = n.
Proof.
  intros n L HL Hn [H|[-> H]].
  - destruct L as [|[|L]]; [lia| |].
    + rewrite Nat.div_1_r in *. lia.
    + exfalso. destruct (n / S (S L)); cbn in H; lia.
  - replace L with 1 by lia. reflexivity.
Qed.

(** * Too few unit labels *)

Lemma float_nonzero_from_spec : forall n p q,
  float_nonzero_from n p = true ->
  (Zpos p <= Zpos q < Zpos p + Z.of_nat n)%Z ->
  (SF2Prim (binary_normalize prec emax (Zpos q) 0 false) =? 0)%float = false.
Proof.
  induction n as [|n IH]; intros p q H Hq; [lia|].
  cbn [float_nonzero_from] in H. apply andb_true_iff in H. destruct H as [H0 H].
  destruct (Pos.eq_dec p q) as [->|Hne].
  - now apply negb_true_iff in H0.
  - apply (IH (Pos.succ p)); [assumption|]. lia.
Qed.

Lemma float_nonzero_to_32767 : float_nonzero_from (Z.to_nat 32767) 1 = true.
Proof. vm_compute. reflexivity. Qed.

(** [float(channelCount)] is not zero for a channel count that fits the
    16-bit field of line 58. *)
Lemma float_of_nat_nonzero : forall c,
  1 <= c -> (Z.of_nat c <= 32767)%Z -> (float_of_nat c =? 0)%float = false.
Proof.
  intros c H1 H2. unfold float_of_nat.
  assert (E : Zpos (Pos.of_nat c) = Z.of_nat c) by lia.
  rewrite <- E.
  apply (float_nonzero_from_spec (Z.to_nat 32767) 1); [exact float_nonzero_to_32767|].
  rewrite Z2Nat.id by lia. lia.
Qed.

Lemma pack_f_total : forall x, exists bs, pack_f x = Ok bs.
Proof. intros x. unfold pack_f. eexists. reflexivity. Qed.

(** Lines 47-65 succeed when the counts fit their fields and the sample
    rate is not zero. *)
Lemma populate_header_succeeds : forall data dataPointCount sampleRateHz channelCount n,
  length data = n -> 2048 <= n ->
  (Z.of_nat dataPointCount <= 2147483647)%Z ->
  1 <= channelCount -> (Z.of_nat channelCount <= 32767)%Z ->
  (sampleRateHz =? 0)%float = false ->
  exists data',
    populate_header data dataPointCount sampleRateHz channelCount = Ok data' /\
    length data' = n.
Proof.
  intros data dpc rate C n L Hn Hd HC1 HC2 Hr.
  destruct (populate_header_starts data dpc rate C n L Hn Hd) as (d7 & L7 & ->).
  unfold py_truediv. rewrite Hr. cbn [bind].
  rewrite (float_of_nat_nonzero C HC1 HC2). cbn [bind].
  destruct (pack_f_total (1000000 / rate / float_of_nat C)%float) as (bs & Hbs).
  destruct (pack_into_f_succeeds d7 122 _ bs n Hbs L7) as (d8 & E8 & L8); [lia|].
  rewrite E8. cbn [bind].
  do 2 pack_step n.
  apply (for_each_ok _ _ (fun s => length s = n)); [|assumption].
  intros ch s Hch Hs. unfold range, MAX_NUM_CH in Hch. apply in_seq in Hch.
  destruct (_ <=? _)%Z; do 1 pack_step n;
    apply pack_into_h_succeeds; (assumption || lia).
Qed.

(** With too few unit labels, [units[ch]] raises [IndexError] whenever the
    statements before line 96 do not raise. *)
Lemma short_units_raise_IndexError : forall a sampleRateHz units,
  wf_ndarray a -> length (shape a) = 1 \/ length (shape a) = 2 ->
  1 <= channelPointCount_of a ->
  (Z.of_nat (channelPointCount_of a * channelCount_of a) <= 2147483647)%Z ->
  (Z.of_nat (channelCount_of a) <= 32767)%Z ->
  (sampleRateHz =? 0)%float = false ->
  length units < channelCount_of a ->
  writeABF_data a sampleRateHz units = Raise IndexError.
Proof.
  intros a rate units W R HN Hd HC Hr Hu.
  pose proof (matrix_length a W R) as Lel.
  unfold writeABF_data. rewrite (as_channels_matrix a R). cbn [bind].
  unfold writeABF_channels. cbn [shape elems nth].
  unfold BLOCKSIZE, HEADER_BLOCKS.
  set (C := channelCount_of a) in *. set (N := channelPointCount_of a) in *.
  set (n := (N * C * 2 / 512 + 1 + 4) * 512).
  assert (Hn : 2048 + 2 * (N * C) <= n) by apply data_fits.
  destruct (populate_header_succeeds (bytearray_zeros n) (N * C) rate C n)
    as (data1 & E1 & L1);
    try assumption; try lia; [apply repeat_length|].
  rewrite E1. cbn [bind].
  destruct (peak_deviation_nonempty C N (elems a)) as (maxVal & Ep & Lm);
    [assumption|assumption|].
  rewrite Ep. cbn [bind].
  destruct (scale_loop_total maxVal C Lm) as (rs & _ & Es).
  rewrite Es. cbn [bind].
  rewrite unit_strings_raises by assumption. reflexivity.
Qed.
(** * The claims *)

(** Validity of a concrete input is decided by evaluation. *)
Ltac solve_valid_matrix :=
  split; [reflexivity|];
  split; [first [left; reflexivity | right; reflexivity]|];
  split; [cbn; lia|];
  split; [cbn; lia|];
  split; [cbn; lia|];
  do 3 eexists; repeat split; vm_compute; reflexivity.

Ltac solve_representable :=
  let ch := fresh "ch" in
  let H := fresh "H" in
  intros ch H; cbn in H;
  repeat (destruct ch as [|ch];
          [eexists; split; vm_compute; reflexivity|]);
  exfalso; lia.

Ltac solve_valid_input :=
  split; [solve_valid_matrix|];
  split; [cbn; lia|];
  solve_representable.

Ltac solve_overflows :=
  let k := fresh "k" in
  let H := fresh "H" in
  eexists; split; [vm_compute; reflexivity|];
  intros k H;
  do 11 (destruct k as [|k]; [try (exfalso; lia); try (vm_compute; reflexivity)|]);
  exfalso; lia.

(** C1: the code does not keep each channel's own instrument factor in the
    header.  On the valid two-channel input [[1, 0], [500, -3]] the scale
    selection gives channel 0 the factor of pass 1 (0.1, the bytes
    cd cc cc 3d as a binary32) and channel 1 the factor of pass 2 (0.01,
    the bytes 0a d7 23 3c); the slot of channel 0 at offset 922 holds the
    bytes of the factor of channel 1, the last one computed. *)
Theorem C1_slot_holds_last_factor :
  valid_input two_channels 10000 [mV; mV] /\
  channel_factor two_channels 0 = Some (instrument_factor 1) /\
  channel_factor two_channels 1 = Some (instrument_factor 2) /\
  pack_f (instrument_factor 1) = Ok [205; 204; 204; 61]%Z /\
  pack_f (instrument_factor 2) = Ok [10; 215; 35; 60]%Z /\
  exists out,
    writeABF_data two_channels 10000 [mV; mV] = Ok out /\
    firstn 4 (skipn 922 out) = [10; 215; 35; 60]%Z /\
    firstn 4 (skipn 926 out) = [10; 215; 35; 60]%Z.
Proof.
  split; [solve_valid_input|].
  do 4 (split; [vm_compute; reflexivity|]).
  eexists. split; [vm_compute; reflexivity|].
  split; reflexivity.
Qed.

(** C2, the claim fails: the second channel of [overflowing_channel]
    exceeds the deviation of every pass, yet the encode succeeds and the
    file is written. *)
Lemma C2_counterexample :
  overflows (channel overflowing_channel 1) /\
  exists out,
    writeABF overflowing_channel mV 10000 [mV; mV] empty_fs
    = (fs_store empty_fs mV out, Ok tt) /\
    fs_files (fs_store empty_fs mV out) mV = Some out.
Proof.
  split; [solve_overflows|].
  eexists. split; vm_compute; reflexivity.
Qed.

(** C2, amended: when every channel of a one- or two-dimensional input
    exceeds the deviation of every pass, the encode fails and the file
    system is left as it was; for a valid matrix and sample rate with a
    unit label per channel the error is the [ZeroDivisionError] of the
    division by the (zero) number of selected scales. *)
Theorem C2_all_channels_overflow : forall a filename sampleRateHz units fs,
  length (shape a) = 1 \/ length (shape a) = 2 ->
  (forall ch, ch < channelCount_of a -> overflows (channel a ch)) ->
  (exists e, writeABF a filename sampleRateHz units fs = (fs, Raise e)) /\
  (valid_matrix a sampleRateHz -> channelCount_of a <= length units ->
   writeABF a filename sampleRateHz units fs = (fs, Raise ZeroDivisionError)).
Proof.
  intros a name rate units fs R Hov. split.
  - destruct (writeABF_data a rate units) as [out|e] eqn:E.
    + exfalso. exact (writeABF_data_all_overflow a rate units out R Hov E).
    + exists e. now apply writeABF_fails.
  - intros V Hu. apply writeABF_fails.
    now apply all_overflow_ZeroDivisionError.
Qed.

Lemma C2_witness :
  (length (shape overflowing_single) = 1 \/ length (shape overflowing_single) = 2) /\
  (forall ch, ch < channelCount_of overflowing_single ->
     overflows (channel overflowing_single ch)) /\
  valid_matrix overflowing_single 10000 /\
  channelCount_of overflowing_single <= length [mV] /\
  writeABF overflowing_single mV 10000 [mV] empty_fs
  = (empty_fs, Raise ZeroDivisionError).
Proof.
  assert (Hov : forall ch, ch < channelCount_of overflowing_single ->
            overflows (channel overflowing_single ch)).
  { intros ch H. cbn in H. destruct ch as [|ch]; [solve_overflows|exfalso; lia]. }
  split; [right; reflexivity|]. split; [exact Hov|].
  split; [solve_valid_matrix|]. split; [cbn; lia|].
  apply (C2_all_channels_overflow overflowing_single mV 10000 [mV] empty_fs);
    [right; reflexivity | exact Hov | solve_valid_matrix | cbn; lia].
Defined.

(** C3, the claim fails: an input with seventeen channels and an input of
    rank 3 are both encoded and written. *)
Lemma C3_counterexample :
  channelCount_of seventeen_channels = 17 /\
  (exists out,
     writeABF seventeen_channels mV 10000 (repeat mV 17) empty_fs
     = (fs_store empty_fs mV out, Ok tt)) /\
  length (shape rank3_input) = 3 /\
  (exists out,
     writeABF rank3_input mV 10000 [mV; mV] empty_fs
     = (fs_store empty_fs mV out, Ok tt)).
Proof.
  split; [reflexivity|]. split; [eexists; vm_compute; reflexivity|].
  split; [reflexivity|]. eexists; vm_compute; reflexivity.
Qed.

(** C3, amended: an input with zero samples per channel makes the encode
    fail and leaves the file system as it was; with 1 to 16 channels and a
    sample rate whose interval can be stored, the error is the
    [ValueError] that [np.max] raises on an empty row. *)
Theorem C3_no_samples_fails : forall a filename sampleRateHz units fs,
  channelPointCount_of a = 0 ->
  (exists e, writeABF a filename sampleRateHz units fs = (fs, Raise e)) /\
  (1 <= length (shape a) -> 1 <= channelCount_of a <= 16 ->
   (exists q i bs, py_truediv 1000000%float sampleRateHz = Ok q /\
                   py_truediv q (float_of_nat (channelCount_of a)) = Ok i /\
                   pack_f i = Ok bs) ->
   writeABF a filename sampleRateHz units fs = (fs, Raise ValueError)).
Proof.
  intros a name rate units fs H0. split.
  - destruct (writeABF_data a rate units) as [out|e] eqn:E.
    + exfalso. exact (writeABF_data_no_samples a rate units out H0 E).
    + exists e. now apply writeABF_fails.
  - intros R HC (q & i & bs & Hq & Hi & Hb). apply writeABF_fails.
    now apply (no_samples_ValueError a rate units q i bs).
Qed.

Lemma C3_witness :
  channelPointCount_of no_samples = 0 /\
  writeABF no_samples mV 10000 [mV; mV] empty_fs = (empty_fs, Raise ValueError).
Proof.
  split; [reflexivity|].
  apply (C3_no_samples_fails no_samples mV 10000 [mV; mV] empty_fs);
    [reflexivity | cbn; lia | cbn; lia |].
  do 3 eexists; repeat split; vm_compute; reflexivity.
Defined.

(** C4: for every valid input with channelCount channels and sampleCount
    samples per channel, sample [i] of channel [ch] is stored as a signed
    16-bit little-endian integer at byte offset
    [2048 + (i * channelCount + ch) * 2]; the integer is the sample scaled
    by the channel's own scale and truncated toward zero. *)
Theorem C4_interleaved_samples : forall a sampleRateHz units,
  valid_input a sampleRateHz units ->
  exists out,
    writeABF_data a sampleRateHz units = Ok out /\
    forall ch i, ch < channelCount_of a -> i < channelPointCount_of a ->
      exists s,
        channel_scale a ch = Some s /\
        int16_at out (2048 + (i * channelCount_of a + ch) * 2)
        = astype_int (sample a ch i * s).
Proof.
  intros a rate units V.
  destruct (stored_samples a rate units V) as (out & E & Hn).
  exists out. split; [exact E|].
  intros ch i Hch Hi. destruct (Hn ch i Hch Hi) as (f & s & Hs & _ & Hv).
  exists s. split; [|exact Hv].
  unfold channel_scale. now rewrite Hs.
Qed.

Lemma C4_witness :
  valid_input two_channels 10000 [mV; mV] /\
  exists out,
    writeABF_data two_channels 10000 [mV; mV] = Ok out /\
    forall ch i, ch < channelCount_of two_channels ->
                 i < channelPointCount_of two_channels ->
      exists s,
        channel_scale two_channels ch = Some s /\
        int16_at out (2048 + (i * channelCount_of two_channels + ch) * 2)
        = astype_int (sample two_channels ch i * s).
Proof.
  split; [solve_valid_input|].
  apply (C4_interleaved_samples two_channels 10000 [mV; mV]).
  solve_valid_input.
Defined.

(** C5: for every valid input the number of data blocks is
    [floor(channelCount * sampleCount * 2 / 512) + 1] and the written file
    has exactly [(dataBlocks + 4) * 512] bytes. *)
Theorem C5_file_size : forall a filename sampleRateHz units fs,
  valid_input a sampleRateHz units ->
  fs_writable fs filename = true ->
  let dataBlocks := channelCount_of a * channelPointCount_of a * 2 / 512 + 1 in
  exists out fs',
    writeABF a filename sampleRateHz units fs = (fs', Ok tt) /\
    fs_files fs' filename = Some out /\
    length out = (dataBlocks + 4) * 512.
Proof.
  intros a name rate units fs V Hw. cbv zeta.
  destruct (encode_valid a rate units V)
    as (data & ints & bs & E & L & A & P & Li & Hn).
  destruct (writeABF_stores a name rate units fs _ E Hw) as [Ew Ef].
  exists (splice data 2048 bs), (fs_store fs name (splice data 2048 bs)).
  split; [exact Ew|]. split; [exact Ef|].
  rewrite splice_length.
  - rewrite L. now rewrite (Nat.mul_comm (channelCount_of a)).
  - rewrite (pack_hs_length _ _ P), Li, L. apply data_fits.
Qed.

Lemma C5_witness :
  valid_input two_channels 10000 [mV; mV] /\
  fs_writable empty_fs mV = true /\
  exists out fs',
    writeABF two_channels mV 10000 [mV; mV] empty_fs = (fs', Ok tt) /\
    fs_files fs' mV = Some out /\
    length out = (channelCount_of two_channels
                  * channelPointCount_of two_channels * 2 / 512 + 1 + 4) * 512.
Proof.
  split; [solve_valid_input|]. split; [reflexivity|].
  apply (C5_file_size two_channels mV 10000 [mV; mV] empty_fs);
    [solve_valid_input|reflexivity].
Defined.

(** C6: for every channel for which the scale selection succeeded, every
    sample of the channel, multiplied by the selected scale and truncated
    toward zero, lies within [-32767, 32767]. *)
Theorem C6_quantized_within_int16 : forall row f s x,
  select_scale row = Ok (f, Some s) -> In x row ->
  (-32767 <= astype_int (x * s) <= 32767)%Z.
Proof.
  intros row f s x Hs Hx.
  now destruct (select_scale_quantize 2148 eq_refl row f s x Hs Hx).
Qed.

Lemma C6_witness :
  select_scale [1; -2]%float
    = Ok (instrument_factor 1, Some (candidate_scale 1)) /\
  In (-2)%float [1; -2]%float /\
  (-32767 <= astype_int (-2 * candidate_scale 1) <= 32767)%Z.
Proof.
  split; [vm_compute; reflexivity|].
  split; [right; left; reflexivity|].
  apply (C6_quantized_within_int16 [1; -2]%float (instrument_factor 1)
           (candidate_scale 1) (-2)%float);
    [vm_compute; reflexivity | right; left; reflexivity].
Defined.

Section RoundTrip.
Import QArith_base Qabs.
Local Open Scope Z_scope.

(** A rational bound from its integer form: if [q * e^2] is within [e^2]
    of [X * S], then [q / (S/e)] is within [1 / (S/e)] of [X/e]. *)
Lemma Qabs_div_bound : forall (q X S : Z) (e : positive),
  0 < S -> Z.abs (q * (Zpos e * Zpos e) - X * S) <= Zpos e * Zpos e ->
  (Qabs (inject_Z q / (S # e) - (X # e)) <= 1 / (S # e))%Q.
Proof.
  intros q X S e HS H.
  destruct S as [|p|p]; try lia.
  unfold Qdiv, Qinv, Qminus, Qplus, Qopp, Qmult, Qabs, Qle, inject_Z.
  cbn [Qnum Qden].
  rewrite !Pos2Z.inj_mul. rewrite !Z.mul_1_l.
  replace (q * Zpos e * Zpos e + - X * Zpos p)
    with (q * (Zpos e * Zpos e) - X * Zpos p) by ring.
  set (A := Z.abs (q * (Zpos e * Zpos e) - X * Zpos p)) in *.
  assert (0 < Zpos p) by lia.
  assert (A * Zpos p <= Zpos e * Zpos e * Zpos p)
    by (apply Z.mul_le_mono_nonneg_r; lia).
  lia.
Qed.

Lemma pow2_1074_sq : Zpos (2 ^ 1074)%positive * Zpos (2 ^ 1074)%positive = 2 ^ 2148.
Proof.
  rewrite Pos2Z.inj_pow. rewrite <- Z.pow_add_r by lia. reflexivity.
Qed.

Lemma candidate_scale_positive : forall k, (1 <= k <= 10)%nat ->
  0 < SFord (Prim2SF (candidate_scale k)).
Proof.
  intros k Hk. pose proof (candidate_scale_admissible k Hk) as H.
  unfold scale_admissible in H.
  pose proof (Prim2SF_valid (candidate_scale k)) as V.
  destruct (Prim2SF (candidate_scale k)) as [| | |s m e]; try discriminate.
  destruct s; [discriminate|]. cbn [SFord cond_Zopp].
  apply (mag_bounds m e V).
Qed.

(** C7: round trip.  For every valid input, dividing the 16-bit sample
    stored for sample [i] of channel [ch] by the channel's own scale
    reproduces the original sample to within [1 / scale] (exact values of
    the doubles, as rational numbers). *)
Theorem C7_round_trip : forall a sampleRateHz units,
  valid_input a sampleRateHz units ->
  exists out,
    writeABF_data a sampleRateHz units = Ok out /\
    forall ch i, (ch < channelCount_of a)%nat -> (i < channelPointCount_of a)%nat ->
      exists s,
        channel_scale a ch = Some s /\
        (Qabs (inject_Z (int16_at out (2048 + (i * channelCount_of a + ch) * 2))
               / F2Q s - F2Q (sample a ch i))
         <= 1 / F2Q s)%Q.
Proof.
  intros a rate units V.
  destruct (stored_samples a rate units V) as (out & E & Hn).
  exists out. split; [exact E|].
  intros ch i Hch Hi. destruct (Hn ch i Hch Hi) as (f & s & Hsel & Hin & Hv).
  exists s. split; [unfold channel_scale; now rewrite Hsel|]. rewrite Hv.
  destruct (select_scale_quantize 2148 eq_refl _ _ _ _ Hsel Hin) as [_ Hq].
  destruct (select_scale_found _ _ _ Hsel) as (k & m & Hk & _ & _ & -> & _).
  unfold F2Q. apply Qabs_div_bound.
  - now apply candidate_scale_positive.
  - rewrite pow2_1074_sq. exact Hq.
Qed.

Lemma C7_witness :
  valid_input two_channels 10000 [mV; mV] /\
  exists out,
    writeABF_data two_channels 10000 [mV; mV] = Ok out /\
    forall ch i, (ch < channelCount_of two_channels)%nat ->
                 (i < channelPointCount_of two_channels)%nat ->
      exists s,
        channel_scale two_channels ch = Some s /\
        (Qabs (inject_Z (int16_at out
                 (2048 + (i * channelCount_of two_channels + ch) * 2))
               / F2Q s - F2Q (sample two_channels ch i))
         <= 1 / F2Q s)%Q.
Proof.
  split; [solve_valid_input|].
  apply (C7_round_trip two_channels 10000 [mV; mV]).
  solve_valid_input.
Defined.
End RoundTrip.

(** C8: a one-dimensional input of length N is encoded exactly like the
    two-dimensional input of shape (1, N) with the same values: the same
    result and the same file. *)
Theorem C8_rank1_as_single_row : forall (v : list float) filename sampleRateHz units fs,
  writeABF {| shape := [length v]; elems := v |} filename sampleRateHz units fs
  = writeABF {| shape := [1; length v]; elems := v |} filename sampleRateHz units fs.
Proof.
  intros v name rate units fs. unfold writeABF, writeABF_data, as_channels.
  cbn [shape elems bind]. reflexivity.
Qed.

(** C9: for every valid input, every byte of the output that lies outside
    the header fields of the layout table and outside the samples of the
    data region (the rest of the header and the pad after the last sample)
    is zero. *)
Theorem C9_unassigned_bytes_zero : forall a sampleRateHz units,
  valid_input a sampleRateHz units ->
  exists out,
    writeABF_data a sampleRateHz units = Ok out /\
    forall j, j < length out -> ~ in_header_field j ->
      ~ (2048 <= j < 2048 + channelCount_of a * channelPointCount_of a * 2) ->
      nth j out 0%Z = 0%Z.
Proof.
  intros a rate units V.
  destruct (encode_valid a rate units V)
    as (data & ints & bs & E & L & [_ A] & P & Li & Hn).
  exists (splice data 2048 bs). split; [exact E|].
  intros j Hj Hf Hd.
  assert (Lb : length bs = 2 * (channelPointCount_of a * channelCount_of a))
    by (rewrite (pack_hs_length _ _ P), Li; reflexivity).
  pose proof (data_fits (channelPointCount_of a * channelCount_of a)) as Hfit.
  rewrite splice_nth_outside.
  - rewrite (A j Hf). unfold bytearray_zeros. apply nth_repeat.
  - rewrite Lb, L. exact Hfit.
  - rewrite Lb. destruct (Nat.lt_ge_cases j 2048) as [|G]; [now left|right].
    destruct (Nat.le_gt_cases (2048 + 2 * (channelPointCount_of a * channelCount_of a)) j);
      [assumption|]. exfalso. apply Hd. lia.
Qed.

Lemma C9_witness :
  valid_input two_channels 10000 [mV; mV] /\
  exists out,
    writeABF_data two_channels 10000 [mV; mV] = Ok out /\
    forall j, j < length out -> ~ in_header_field j ->
      ~ (2048 <= j < 2048 + channelCount_of two_channels
                            * channelPointCount_of two_channels * 2) ->
      nth j out 0%Z = 0%Z.
Proof.
  split; [solve_valid_input|].
  apply (C9_unassigned_bytes_zero two_channels 10000 [mV; mV]).
  solve_valid_input.
Defined.

(** C10, the claim fails: with one unit label for two channels, a sample
    rate of zero raises [ZeroDivisionError] (line 54) and a matrix without
    samples raises [ValueError] (line 78); neither call reaches the
    [units[ch]] of line 96. *)
Lemma C10_counterexample :
  length [mV] < channelCount_of two_channels /\
  writeABF two_channels mV 0 [mV] empty_fs
  = (empty_fs, Raise ZeroDivisionError) /\
  length [mV] < channelCount_of no_samples /\
  writeABF no_samples mV 10000 [mV] empty_fs = (empty_fs, Raise ValueError).
Proof.
  split; [cbn; lia|]. split; [vm_compute; reflexivity|].
  split; [cbn; lia|]. vm_compute; reflexivity.
Qed.

(** C10, amended: when the list of unit labels has fewer entries than
    there are channels, the encode fails and the file system is left as it
    was: the file is never opened.  The error is the [IndexError] of
    [units[ch]] whenever no earlier statement raises: for a well-formed
    matrix with at least one sample per channel, a total sample count
    that fits 32 bits, a channel count that fits 16 bits and a sample rate
    that is not zero. *)
Theorem C10_short_units : forall a filename sampleRateHz units fs,
  length units < channelCount_of a ->
  (exists e, writeABF a filename sampleRateHz units fs = (fs, Raise e)) /\
  (wf_ndarray a -> length (shape a) = 1 \/ length (shape a) = 2 ->
   1 <= channelPointCount_of a ->
   (Z.of_nat (channelPointCount_of a * channelCount_of a) <= 2147483647)%Z ->
   (Z.of_nat (channelCount_of a) <= 32767)%Z ->
   (sampleRateHz =? 0)%float = false ->
   writeABF a filename sampleRateHz units fs = (fs, Raise IndexError)).
Proof.
  intros a name rate units fs Hu. split.
  - destruct (writeABF_data a rate units) as [out|e] eqn:E.
    + exfalso. pose proof (writeABF_data_units a rate units out E). lia.
    + exists e. now apply writeABF_fails.
  - intros W R HN Hd HC Hr. apply writeABF_fails.
    now apply short_units_raise_IndexError.
Qed.

Lemma C10_witness :
  length [mV] < channelCount_of two_channels /\
  wf_ndarray two_channels /\
  (length (shape two_channels) = 1 \/ length (shape two_channels) = 2) /\
  1 <= channelPointCount_of two_channels /\
  (Z.of_nat (channelPointCount_of two_channels * channelCount_of two_channels)
   <= 2147483647)%Z /\
  (Z.of_nat (channelCount_of two_channels) <= 32767)%Z /\
  (10000 =? 0)%float = false /\
  writeABF two_channels mV 10000 [mV] empty_fs = (empty_fs, Raise IndexError).
Proof.
  split; [cbn; lia|]. split; [reflexivity|]. split; [right; reflexivity|].
  split; [cbn; lia|]. split; [cbn; lia|]. split; [cbn; lia|].
  split; [reflexivity|].
  apply (C10_short_units two_channels mV 10000 [mV] empty_fs);
    [cbn; lia | reflexivity | right; reflexivity | cbn; lia | cbn; lia | cbn; lia
    | reflexivity].
Defined.


(** * Further properties of the encoder *)

(** X1: in the output of every successful encode the constant header
    fields hold their values of the layout table: the signature "ABF ",
    the version 1.3 as a binary32, the operation mode 5, one episode, the
    data section at block 4, the data format 0, the ADC range 10.0 and the
    ADC resolution 32768. *)
Theorem header_constants : forall a sampleRateHz units out,
  writeABF_data a sampleRateHz units = Ok out ->
  bytes_at out 0 4 = [65; 66; 70; 32]%Z /\
  bytes_at out 4 4 = [102; 102; 166; 63]%Z /\
  bytes_at out 8 2 = [5; 0]%Z /\
  bytes_at out 16 4 = [1; 0; 0; 0]%Z /\
  bytes_at out 40 4 = [4; 0; 0; 0]%Z /\
  bytes_at out 100 2 = [0; 0]%Z /\
  bytes_at out 244 4 = [0; 0; 32; 65]%Z /\
  bytes_at out 252 4 = [0; 128; 0; 0]%Z.
Proof.
  intros a rate units out H.
  destruct (output_fields a rate units out H)
    as (a' & mv & st & us & _ & _ & _ & _ & _ & Hh & Hs).
  destruct Hh as (H0 & H1 & H2 & _ & H4 & H5 & H6 & _).
  destruct Hs as (S0 & S1 & _).
  split; [apply (field_value _ _ _ H0); reflexivity|].
  split; [apply (field_value _ _ _ H1); vm_compute; reflexivity|].
  split; [apply (field_value _ _ _ H2); reflexivity|].
  split; [apply (field_value _ _ _ H4); reflexivity|].
  split; [apply (field_value _ _ _ H5); reflexivity|].
  split; [apply (field_value _ _ _ H6); reflexivity|].
  split; [apply (field_value _ _ _ S1); vm_compute; reflexivity|].
  apply (field_value _ _ _ S0); reflexivity.
Qed.

Lemma header_constants_witness :
  writeABF_data two_channels 10000 [mV; mV] = Ok two_channels_file /\
  bytes_at two_channels_file 0 4 = [65; 66; 70; 32]%Z /\
  bytes_at two_channels_file 4 4 = [102; 102; 166; 63]%Z /\
  bytes_at two_channels_file 8 2 = [5; 0]%Z /\
  bytes_at two_channels_file 16 4 = [1; 0; 0; 0]%Z /\
  bytes_at two_channels_file 40 4 = [4; 0; 0; 0]%Z /\
  bytes_at two_channels_file 100 2 = [0; 0]%Z /\
  bytes_at two_channels_file 244 4 = [0; 0; 32; 65]%Z /\
  bytes_at two_channels_file 252 4 = [0; 128; 0; 0]%Z.
Proof.
  split; [vm_compute; reflexivity|].
  apply (header_constants two_channels 10000 [mV; mV] two_channels_file).
  vm_compute; reflexivity.
Defined.

(** X2: the acquisition length at offset 10 and the samples per episode at
    offset 138 hold the total sample count as a 32-bit little-endian
    integer, and the field at offset 120 holds the channel count as a
    16-bit integer. *)
Theorem header_counts : forall a sampleRateHz units out,
  writeABF_data a sampleRateHz units = Ok out ->
  let total := Z.of_nat (channelPointCount_of a * channelCount_of a) in
  bytes_at out 10 4 = le_bytes 4 total /\
  bytes_at out 138 4 = le_bytes 4 total /\
  int16_at out 120 = Z.of_nat (channelCount_of a).
Proof.
  intros a rate units out H. cbv zeta.
  destruct (output_fields a rate units out H)
    as (a' & mv & st & us & _ & _ & _ & _ & _ & Hh & _).
  destruct Hh as (_ & _ & _ & H3 & _ & _ & _ & _ & H8 & H9 & _).
  apply pack_i_inv in H3, H8.
  split; [apply H3|]. split; [apply H8|]. now apply int16_at_packed.
Qed.

Lemma header_counts_witness :
  writeABF_data two_channels 10000 [mV; mV] = Ok two_channels_file /\
  bytes_at two_channels_file 10 4 = le_bytes 4 4 /\
  bytes_at two_channels_file 138 4 = le_bytes 4 4 /\
  int16_at two_channels_file 120 = 2%Z.
Proof.
  split; [vm_compute; reflexivity|].
  apply (header_counts two_channels 10000 [mV; mV] two_channels_file).
  vm_compute; reflexivity.
Defined.

(** X3: a successful encode had a non-zero sample rate and, when the rate
    is a number, the field at offset 122 holds
    [(1e6 / sampleRateHz) / channelCount], computed in double precision
    and converted to a binary32 as the native ['f'] format does: rounded
    to nearest, and to an infinity beyond the binary32 range. *)
Theorem header_sample_interval : forall a sampleRateHz units out,
  writeABF_data a sampleRateHz units = Ok out ->
  (sampleRateHz =? 0)%float = false /\
  (is_nan sampleRateHz = false ->
   pack_f (1000000 / sampleRateHz / float_of_nat (channelCount_of a))%float
   = Ok (bytes_at out 122 4)).
Proof.
  intros a rate units out H.
  destruct (output_fields a rate units out H)
    as (a' & mv & st & us & _ & _ & _ & _ & _ & Hh & _).
  destruct Hh as (_ & _ & _ & _ & _ & _ & _ & (q & i & Hq & Hi & H7) & _).
  apply py_truediv_inv in Hq, Hi. destruct Hq as [Hr ->]. destruct Hi as [_ ->].
  split; [exact Hr|]. intros _. exact H7.
Qed.

Lemma header_sample_interval_witness :
  exists out,
    writeABF_data two_channels 0x1p-200 [mV; mV] = Ok out /\
    (0x1p-200 =? 0)%float = false /\
    is_nan 0x1p-200 = false /\
    pack_f (1000000 / 0x1p-200 / float_of_nat (channelCount_of two_channels))%float
    = Ok (bytes_at out 122 4) /\
    bytes_at out 122 4 = [0; 0; 128; 127]%Z.
Proof.
  eexists. split; [vm_compute; reflexivity|].
  split; [reflexivity|]. split; [reflexivity|].
  split; [|vm_compute; reflexivity].
  apply (header_sample_interval two_channels 0x1p-200 [mV; mV]);
    [vm_compute; reflexivity | reflexivity].
Defined.

(** X4: slot [ch] of the channel map at offset 378 and of the sampling
    sequence at offset 410 holds [ch] for the channels of the input and -1
    for the other slots of the sixteen. *)
Theorem header_channel_maps : forall a sampleRateHz units out ch,
  writeABF_data a sampleRateHz units = Ok out -> ch < 16 ->
  let slot := if ch <? channelCount_of a then Z.of_nat ch else (-1)%Z in
  int16_at out (378 + 2 * ch) = slot /\ int16_at out (410 + 2 * ch) = slot.
Proof.
  intros a rate units out ch H Hch. cbv zeta.
  destruct (output_fields a rate units out H)
    as (a' & mv & st & us & _ & _ & _ & _ & _ & Hh & _).
  destruct Hh as (_ & _ & _ & _ & _ & _ & _ & _ & _ & _ & H10).
  destruct (H10 ch Hch) as [M1 M2]. rewrite <- map_slot_cases.
  split; now apply int16_at_packed.
Qed.

Lemma header_channel_maps_witness :
  writeABF_data two_channels 10000 [mV; mV] = Ok two_channels_file /\
  2 < 16 /\
  int16_at two_channels_file (378 + 2 * 2) = (-1)%Z /\
  int16_at two_channels_file (410 + 2 * 2) = (-1)%Z.
Proof.
  split; [vm_compute; reflexivity|]. split; [lia|].
  apply (header_channel_maps two_channels 10000 [mV; mV] two_channels_file 2);
    [vm_compute; reflexivity|lia].
Defined.

(** X5: all sixteen slots of the instrument scale factor, at offsets
    [922 + 4 * ch], hold one and the same value: the factor at which the
    scale search of the last channel ended. *)
Theorem header_factor_slots : forall a sampleRateHz units out,
  length (shape a) = 1 \/ length (shape a) = 2 ->
  writeABF_data a sampleRateHz units = Ok out ->
  1 <= channelCount_of a /\
  exists f o,
    select_scale (channel a (channelCount_of a - 1)) = Ok (f, o) /\
    forall ch, ch < 16 -> pack_f f = Ok (bytes_at out (922 + ch * 4) 4).
Proof.
  intros a rate units out R H.
  destruct (output_fields a rate units out H)
    as (a' & mv & st & us & Ea & Ep & Es & _ & _ & _ & Hs).
  destruct Hs as (_ & _ & Hslots).
  destruct (Hslots 0) as ((f & Hf & _) & _); [lia|].
  destruct (scale_loop_last _ _ _ _ _ Ep Es Hf) as (HC & o & Hsel).
  rewrite (subarray_channel a a' R Ea) in Hsel.
  split; [exact HC|]. exists f, o. split; [exact Hsel|].
  intros ch Hch. destruct (Hslots ch Hch) as ((f' & Hf' & Hp) & _).
  rewrite Hf in Hf'. now injection Hf' as <-.
Qed.

Lemma header_factor_slots_witness :
  (length (shape two_channels) = 1 \/ length (shape two_channels) = 2) /\
  writeABF_data two_channels 10000 [mV; mV] = Ok two_channels_file /\
  1 <= channelCount_of two_channels /\
  exists f o,
    select_scale (channel two_channels (channelCount_of two_channels - 1))
    = Ok (f, o) /\
    forall ch, ch < 16 ->
      pack_f f = Ok (bytes_at two_channels_file (922 + ch * 4) 4).
Proof.
  split; [right; reflexivity|]. split; [vm_compute; reflexivity|].
  apply (header_factor_slots two_channels 10000 [mV; mV] two_channels_file);
    [right; reflexivity | vm_compute; reflexivity].
Defined.

(** X6: all sixteen slots of the signal gain at [1050 + 4 * ch] and of the
    programmable gain at [730 + 4 * ch] hold 1.0 as a binary32. *)
Theorem header_gains : forall a sampleRateHz units out ch,
  writeABF_data a sampleRateHz units = Ok out -> ch < 16 ->
  bytes_at out (1050 + ch * 4) 4 = [0; 0; 128; 63]%Z /\
  bytes_at out (730 + ch * 4) 4 = [0; 0; 128; 63]%Z.
Proof.
  intros a rate units out ch H Hch.
  destruct (output_fields a rate units out H)
    as (a' & mv & st & us & _ & _ & _ & _ & _ & _ & Hs).
  destruct Hs as (_ & _ & Hslots).
  destruct (Hslots ch Hch) as (_ & G1 & G2 & _).
  split; [apply (field_value _ _ _ G1)|apply (field_value _ _ _ G2)];
    vm_compute; reflexivity.
Qed.

Lemma header_gains_witness :
  writeABF_data two_channels 10000 [mV; mV] = Ok two_channels_file /\
  15 < 16 /\
  bytes_at two_channels_file (1050 + 15 * 4) 4 = [0; 0; 128; 63]%Z /\
  bytes_at two_channels_file (730 + 15 * 4) 4 = [0; 0; 128; 63]%Z.
Proof.
  split; [vm_compute; reflexivity|]. split; [lia|].
  apply (header_gains two_channels 10000 [mV; mV] two_channels_file 15);
    [vm_compute; reflexivity|lia].
Defined.

(** X7: slot [ch] of the unit labels at [602 + 8 * ch] holds the first
    eight bytes of the UTF-8 encoding of the unit of channel
    [min(ch, channelCount - 1)], padded with spaces to eight characters. *)
Theorem header_unit_labels : forall a sampleRateHz units out ch,
  writeABF_data a sampleRateHz units = Ok out -> ch < 16 ->
  exists u,
    nth_error units (Nat.min ch (channelCount_of a - 1)) = Some u /\
    bytes_at out (602 + ch * 8) 8
    = firstn 8 (encode u ++ repeat 32%Z (8 - String.length u)).
Proof.
  intros a rate units out ch H Hch.
  pose proof (writeABF_data_units a rate units out H) as Hu.
  destruct (output_fields a rate units out H)
    as (a' & mv & st & us & _ & Ep & Es & Eu & _ & _ & Hs).
  destruct Hs as (_ & _ & Hslots).
  destruct (Hslots 0) as ((f & Hf & _) & _); [lia|].
  destruct (scale_loop_last _ _ _ _ _ Ep Es Hf) as (HC & _).
  rewrite unit_strings_ok in Eu by assumption. injection Eu as <-.
  destruct (Hslots ch Hch) as (_ & _ & _ & (u & Hget & Hp)).
  destruct (unit_label_item units _ ch u (conj HC Hu) Hget) as (u0 & Hn & ->).
  exists u0. split; [exact Hn|].
  apply (field_value _ _ _ Hp). rewrite encode_pad_unit.
  apply pack_s_long. rewrite length_app, repeat_length.
  pose proof (encode_length u0). lia.
Qed.

Lemma header_unit_labels_witness :
  writeABF_data two_channels 10000 [mV; mV] = Ok two_channels_file /\
  5 < 16 /\
  exists u,
    nth_error [mV; mV] (Nat.min 5 (channelCount_of two_channels - 1)) = Some u /\
    bytes_at two_channels_file (602 + 5 * 8) 8
    = firstn 8 (encode u ++ repeat 32%Z (8 - String.length u)).
Proof.
  split; [vm_compute; reflexivity|]. split; [lia|].
  apply (header_unit_labels two_channels 10000 [mV; mV] two_channels_file 5);
    [vm_compute; reflexivity|lia].
Defined.

(** X8: when the scale search of a channel accepts a pass, it is the
    first pass [k] of 1..10 whose deviation [32767 / valueScaleI] reaches
    the peak of the channel; the channel gets the scale and the factor of
    that pass. *)
Theorem scale_selection_first_fit : forall row f s,
  select_scale row = Ok (f, Some s) ->
  exists k m,
    1 <= k <= 10 /\ np_max (np_abs row) = Ok m /\
    f = instrument_factor k /\ s = candidate_scale k /\
    (m <=? max_deviation k)%float = true /\
    forall i, 1 <= i < k -> (m <=? max_deviation i)%float = false.
Proof. intros row f s H. exact (select_scale_found row f s H). Qed.

Lemma scale_selection_first_fit_witness :
  select_scale [500; -3]%float
  = Ok (instrument_factor 2, Some (candidate_scale 2)) /\
  exists k m,
    1 <= k <= 10 /\ np_max (np_abs [500; -3]%float) = Ok m /\
    instrument_factor 2 = instrument_factor k /\
    candidate_scale 2 = candidate_scale k /\
    (m <=? max_deviation k)%float = true /\
    forall i, 1 <= i < k -> (m <=? max_deviation i)%float = false.
Proof.
  split; [vm_compute; reflexivity|].
  apply (scale_selection_first_fit [500; -3]%float).
  vm_compute; reflexivity.
Defined.

(** X9: the peak deviation of a channel, when it is a number, bounds the
    absolute value of every sample of the channel. *)
Theorem peak_bounds_samples : forall row m x,
  np_max (np_abs row) = Ok m -> is_nan m = false -> In x row ->
  (abs x <=? m)%float = true.
Proof.
  intros row m x Hm Hn Hx. apply is_nan_false in Hn.
  destruct (np_max_abs_bound row m x Hm Hn Hx) as [Na Hle].
  now apply ord_leb_true.
Qed.

Lemma peak_bounds_samples_witness :
  np_max (np_abs [1; -500; 3]%float) = Ok 500%float /\
  is_nan 500 = false /\ In (-500)%float [1; -500; 3]%float /\
  (abs (-500) <=? 500)%float = true.
Proof.
  split; [vm_compute; reflexivity|]. split; [vm_compute; reflexivity|].
  split; [right; left; reflexivity|].
  apply (peak_bounds_samples [1; -500; 3]%float 500%float (-500)%float);
    [vm_compute; reflexivity | vm_compute; reflexivity | right; left; reflexivity].
Defined.

(** X10: a channel with a NaN sample gets no scale: its peak is NaN, every
    comparison of the search fails, and nothing is appended to
    [valueScale]. *)
Theorem nan_sample_no_scale : forall row x,
  In x row -> is_nan x = true ->
  select_scale row = Ok (instrument_factor 10, None).
Proof.
  intros row x Hx Hn. destruct (np_max_nan row x Hx Hn) as (m & Hm & Hnm).
  unfold select_scale. rewrite Hm. cbn [bind]. now apply scale_search_nan.
Qed.

Lemma nan_sample_no_scale_witness :
  In nan [1%float; nan] /\ is_nan nan = true /\
  select_scale [1%float; nan] = Ok (instrument_factor 10, None).
Proof.
  split; [right; left; reflexivity|]. split; [vm_compute; reflexivity|].
  apply (nan_sample_no_scale [1%float; nan] nan);
    [right; left; reflexivity | vm_compute; reflexivity].
Defined.

(** X11: what every successful encode needed: at least one channel and at
    most 32767, at least one sample per channel, a total sample count
    within the signed 32-bit range of the header fields, a non-zero sample
    rate and a unit label for every channel. *)
Theorem success_requires : forall a sampleRateHz units out,
  writeABF_data a sampleRateHz units = Ok out ->
  1 <= channelCount_of a /\ (Z.of_nat (channelCount_of a) <= 32767)%Z /\
  1 <= channelPointCount_of a /\
  (Z.of_nat (channelPointCount_of a * channelCount_of a) <= 2147483647)%Z /\
  (sampleRateHz =? 0)%float = false /\
  channelCount_of a <= length units.
Proof.
  intros a rate units out H.
  destruct (output_fields a rate units out H)
    as (a' & mv & st & us & _ & Ep & Es & _ & _ & Hh & Hs).
  destruct Hh as (_ & _ & _ & H3 & _ & _ & _ & (q & i & Hq & _) & _ & H9 & _).
  destruct Hs as (_ & _ & Hslots).
  destruct (Hslots 0) as ((f & Hf & _) & _); [lia|].
  destruct (scale_loop_last _ _ _ _ _ Ep Es Hf) as (HC & _).
  apply pack_i_inv in H3. apply pack_h_inv in H9. apply py_truediv_inv in Hq.
  split; [exact HC|]. split; [lia|]. split.
  - destruct (channelPointCount_of a) eqn:E; [|lia].
    exfalso. exact (writeABF_data_no_samples a rate units out E H).
  - split; [lia|]. split; [apply Hq|].
    exact (writeABF_data_units a rate units out H).
Qed.

Lemma success_requires_witness :
  writeABF_data two_channels 10000 [mV; mV] = Ok two_channels_file /\
  1 <= channelCount_of two_channels /\
  (Z.of_nat (channelCount_of two_channels) <= 32767)%Z /\
  1 <= channelPointCount_of two_channels /\
  (Z.of_nat (channelPointCount_of two_channels * channelCount_of two_channels)
   <= 2147483647)%Z /\
  (10000 =? 0)%float = false /\
  channelCount_of two_channels <= length [mV; mV].
Proof.
  split; [vm_compute; reflexivity|].
  apply (success_requires two_channels 10000 [mV; mV] two_channels_file).
  vm_compute; reflexivity.
Defined.

(** X12: whenever the call succeeds, for any input, the destination could
    be opened and holds the encoded buffer, whose length is
    [(floor(channelPointCount * channelCount * 2 / 512) + 1 + 4) * 512]. *)
Theorem written_file_length : forall a filename sampleRateHz units fs fs',
  writeABF a filename sampleRateHz units fs = (fs', Ok tt) ->
  fs_writable fs filename = true /\
  exists out,
    writeABF_data a sampleRateHz units = Ok out /\
    fs_files fs' filename = Some out /\
    length out
    = (channelPointCount_of a * channelCount_of a * 2 / 512 + 1 + 4) * 512.
Proof.
  intros a name rate units fs fs' H. unfold writeABF in H.
  destruct (writeABF_data a rate units) as [out|e] eqn:E; [|discriminate].
  unfold write_file in H.
  destruct (fs_writable fs name) eqn:Hw; [|discriminate].
  injection H as <-. split; [reflexivity|].
  exists out. split; [reflexivity|]. split.
  - cbn [fs_store fs_files]. now rewrite String.eqb_refl.
  - destruct (output_fields a rate units out E)
      as (a' & mv & st & us & _ & _ & _ & _ & L & _). exact L.
Qed.

Lemma written_file_length_witness :
  writeABF two_channels mV 10000 [mV; mV] empty_fs
  = (fs_store empty_fs mV two_channels_file, Ok tt) /\
  fs_writable empty_fs mV = true /\
  exists out,
    writeABF_data two_channels 10000 [mV; mV] = Ok out /\
    fs_files (fs_store empty_fs mV two_channels_file) mV = Some out /\
    length out
    = (channelPointCount_of two_channels
       * channelCount_of two_channels * 2 / 512 + 1 + 4) * 512.
Proof.
  split; [vm_compute; reflexivity|].
  apply (written_file_length two_channels mV 10000 [mV; mV] empty_fs).
  vm_compute; reflexivity.
Defined.

(** X14: when the input is valid but the destination cannot be opened for
    writing, the call raises [OSError] and the file system is unchanged. *)
Theorem unwritable_destination : forall a filename sampleRateHz units fs,
  valid_input a sampleRateHz units -> fs_writable fs filename = false ->
  writeABF a filename sampleRateHz units fs = (fs, Raise OSError).
Proof.
  intros a name rate units fs V Hw.
  destruct (stored_samples a rate units V) as (out & E & _).
  unfold writeABF, write_file. now rewrite E, Hw.
Qed.

Lemma unwritable_destination_witness :
  valid_input two_channels 10000 [mV; mV] /\
  fs_writable read_only_fs mV = false /\
  writeABF two_channels mV 10000 [mV; mV] read_only_fs
  = (read_only_fs, Raise OSError).
Proof.
  split; [solve_valid_input|]. split; [reflexivity|].
  apply (unwritable_destination two_channels mV 10000 [mV; mV] read_only_fs);
    [solve_valid_input|reflexivity].
Defined.

(** X15: a sample rate of zero raises [ZeroDivisionError] at line 54, for
    every array with a shape whose total sample count fits the header. *)
Theorem zero_sample_rate : forall a filename sampleRateHz units fs,
  1 <= length (shape a) ->
  (Z.of_nat (channelPointCount_of a * channelCount_of a) <= 2147483647)%Z ->
  (sampleRateHz =? 0)%float = true ->
  writeABF a filename sampleRateHz units fs = (fs, Raise ZeroDivisionError).
Proof.
  intros a name rate units fs R Hd Hr. apply writeABF_fails.
  unfold writeABF_data.
  destruct (as_channels a) as [a'|e] eqn:E.
  2:{ unfold as_channels in E. destruct (shape a) as [|c [|n sh]];
        try discriminate. cbn in R. lia. }
  cbn [bind]. unfold writeABF_channels.
  rewrite (channelCount_as_channels _ _ E), (channelPointCount_as_channels _ _ E).
  unfold BLOCKSIZE, HEADER_BLOCKS.
  rewrite populate_header_zero_rate; [reflexivity| |assumption|assumption].
  unfold bytearray_zeros. rewrite repeat_length. lia.
Qed.

Lemma zero_sample_rate_witness :
  1 <= length (shape two_channels) /\
  (Z.of_nat (channelPointCount_of two_channels * channelCount_of two_channels)
   <= 2147483647)%Z /\
  (0 =? 0)%float = true /\
  writeABF two_channels mV 0 [mV; mV] empty_fs
  = (empty_fs, Raise ZeroDivisionError).
Proof.
  split; [cbn; lia|]. split; [cbn; lia|]. split; [reflexivity|].
  apply (zero_sample_rate two_channels mV 0%float [mV; mV] empty_fs);
    [cbn; lia | cbn; lia | reflexivity].
Defined.

(** X16: an array with zero channels raises [ZeroDivisionError]: the
    sample interval of line 54 divides by the channel count. *)
Theorem zero_channels : forall a filename sampleRateHz units fs,
  2 <= length (shape a) -> channelCount_of a = 0 ->
  writeABF a filename sampleRateHz units fs = (fs, Raise ZeroDivisionError).
Proof.
  intros a name rate units fs R HC. apply writeABF_fails.
  unfold writeABF_data.
  destruct (as_channels a) as [a'|e] eqn:E.
  2:{ unfold as_channels in E. destruct (shape a) as [|c [|n sh]];
        try discriminate. cbn in R. lia. }
  cbn [bind]. unfold writeABF_channels.
  rewrite (channelCount_as_channels _ _ E), (channelPointCount_as_channels _ _ E).
  rewrite HC. unfold BLOCKSIZE, HEADER_BLOCKS.
  rewrite populate_header_zero_channels; [reflexivity| |lia].
  unfold bytearray_zeros. rewrite repeat_length. lia.
Qed.

Lemma zero_channels_witness :
  2 <= length (shape no_channels) /\ channelCount_of no_channels = 0 /\
  writeABF no_channels mV 10000 [mV] empty_fs
  = (empty_fs, Raise ZeroDivisionError).
Proof.
  split; [cbn; lia|]. split; [reflexivity|].
  apply (zero_channels no_channels mV 10000 [mV] empty_fs); [cbn; lia|reflexivity].
Defined.

(** X17: the scales are applied by position, not by channel.  In every
    successful encode of a matrix the list [valueScale] holds between one
    scale and one scale per channel, its length divides the number of
    samples, and the sample [i] of channel [ch], stored at
    [2048 + (i * channelCount + ch) * 2], was multiplied by the entry
    [(i * channelCount + ch) mod len(valueScale)] of [valueScale]: when a
    channel got no scale, the scales of the later channels are applied to
    other channels. *)
Theorem scales_applied_by_position : forall a sampleRateHz units out,
  length (shape a) = 1 \/ length (shape a) = 2 ->
  writeABF_data a sampleRateHz units = Ok out ->
  let C := channelCount_of a in
  let N := channelPointCount_of a in
  let vs := selected_scales a in
  1 <= length vs <= C /\ (N * C) mod length vs = 0 /\
  forall ch i, ch < C -> i < N ->
    int16_at out (2048 + (i * C + ch) * 2)
    = astype_int (sample a ch i * nth ((i * C + ch) mod length vs) vs 0)%float.
Proof.
  intros a rate units out R H. cbv zeta.
  assert (HN : 1 <= channelPointCount_of a).
  { destruct (channelPointCount_of a) eqn:E; [|lia].
    exfalso. exact (writeABF_data_no_samples a rate units out E H). }
  pose proof (selected_scales_length a) as HL.
  unfold writeABF_data in H. inv_bind H. rename x into a'.
  pose proof E as Ea. rewrite (as_channels_matrix a R) in E. injection E as <-.
  apply writeABF_channels_inv in H. cbv zeta in H. cbn [shape elems nth] in H.
  destruct H as (d1 & mv & st & us & d2 & il & sc & _ & Ep & Es & _ & _ & Ei & Esc & Eo).
  rewrite (scale_loop_selected a _ mv st R Ea Ep Es) in Esc.
  set (C := channelCount_of a) in *. set (N := channelPointCount_of a) in *.
  set (vs := selected_scales a) in *.
  assert (Eil : il = transpose_elems [C; N] (elems a)).
  { unfold interleave_signals, reshape_row in Ei.
    change (shape {| shape := [C; N]; elems := elems a |}) with [C; N] in Ei.
    change (elems {| shape := [C; N]; elems := elems a |}) with (elems a) in Ei.
    destruct (_ =? _) in Ei; [|discriminate]. now injection Ei as <-. }
  subst il. clear Ei.
  unfold scale_signals in Esc.
  destruct (Nat.eqb_spec (length vs) 0) as [E0|E0]; [discriminate|].
  cbn [bind] in Esc.
  assert (HC : 1 <= C) by lia.
  assert (Hdpc : 1 <= N * C) by nia.
  assert (Lil : length (transpose_elems [C; N] (elems a)) = N * C).
  { rewrite transpose_elems_length. cbn [size_of fold_right]. lia. }
  assert (Htile : N * C / length vs * length vs = N * C).
  { destruct (np_multiply_inv _ _ _ Esc) as [[E _]|[Hne [E|E]]].
    - rewrite np_tile_length, Lil in E. lia.
    - rewrite np_tile_length in E. apply tile_exact; [lia|lia|now left].
    - rewrite Lil in E. apply tile_exact; [lia|lia|]. right. split; [assumption|].
      assert (C = 1) by nia. lia. }
  destruct (np_multiply_inv _ _ _ Esc) as [[_ ->]|[Hne _]].
  2:{ exfalso. apply Hne. rewrite np_tile_length, Lil. lia. }
  split; [lia|]. split.
  { rewrite <- Htile. apply Nat.Div0.mod_mul. }
  intros ch i Hch Hi.
  assert (Hp : i * C + ch < N * C).
  { assert (Hm : S i * C <= N * C) by (apply Nat.mul_le_mono_r; lia). cbn in Hm. lia. }
  unfold pack_into_hs in Eo. apply pack_into_inv in Eo.
  destruct Eo as (bs & Ebs & Hfit & ->).
  assert (Lsc : length (zip_mul (transpose_elems [C; N] (elems a))
                          (np_tile vs (N * C / length vs))) = N * C).
  { rewrite zip_mul_length; [assumption|]. rewrite np_tile_length, Lil. lia. }
  rewrite length_map, Lsc in Hfit.
  rewrite stored_int16 with (ints := map astype_int
            (zip_mul (transpose_elems [C; N] (elems a))
               (np_tile vs (N * C / length vs))));
    [| rewrite (pack_hs_length _ _ Ebs), length_map, Lsc; lia
     | assumption
     | rewrite length_map, Lsc; assumption].
  change 0%Z with (astype_int 0%float). rewrite map_nth.
  rewrite zip_mul_nth by (rewrite ?np_tile_length; lia).
  rewrite transpose_elems_rank2 by assumption.
  f_equal. f_equal.
  rewrite (Nat.div_mod_eq (i * C + ch) (length vs)) at 1.
  rewrite (Nat.mul_comm (length vs)).
  apply np_tile_nth.
  - apply Nat.Div0.div_lt_upper_bound. lia.
  - apply Nat.mod_upper_bound. assumption.
Qed.

Lemma scales_applied_by_position_witness :
  (length (shape overflowing_channel) = 1 \/ length (shape overflowing_channel) = 2) /\
  writeABF_data overflowing_channel 10000 [mV; mV] = Ok overflowing_channel_file /\
  1 <= length (selected_scales overflowing_channel)
    <= channelCount_of overflowing_channel /\
  (channelPointCount_of overflowing_channel * channelCount_of overflowing_channel)
    mod length (selected_scales overflowing_channel) = 0 /\
  forall ch i, ch < channelCount_of overflowing_channel ->
    i < channelPointCount_of overflowing_channel ->
    int16_at overflowing_channel_file
      (2048 + (i * channelCount_of overflowing_channel + ch) * 2)
    = astype_int
        (sample overflowing_channel ch i
         * nth ((i * channelCount_of overflowing_channel + ch)
                mod length (selected_scales overflowing_channel))
               (selected_scales overflowing_channel) 0)%float.
Proof.
  split; [right; reflexivity|]. split; [vm_compute; reflexivity|].
  apply (scales_applied_by_position overflowing_channel 10000 [mV; mV]
           overflowing_channel_file);
    [right; reflexivity | vm_compute; reflexivity].
Defined.
